(** * detectem: the detection pipeline of [detectem/core.py]

    A shallow embedding of the [Detector] class: the entry classifier
    ([_prepare_har], [_mark_main_entry], [_script_to_har_entry]), the
    matcher group router ([_get_matchers_for_entry]), the three matching
    passes of [process_har], hint cascading ([get_hints]) and the splash
    pass ([process_from_splash]).

    Conventions.
    - A Python [str] is a [string]; the value [None] is [None] of an
      [option]; Python truthiness ([if x:]) is written out ([if_truthy]).
    - A [dict] whose iteration order the code observes (the grouped
      matcher tables, [file_hashes]) is an association list in iteration
      order (the keys of a [dict] are distinct; no proof relies on it);
      a [dict] that is only queried by key ([plugin_data]) is a [gmap].
    - [self._results] and the [logger] are the state threaded by the
      monad [M]; an uncaught Python exception is the outcome [Raise],
      also of the methods that touch no state ([Outcome]). *)

From stdpp Require Import base option list strings gmap.

Set Warnings "-clear-no-such-hyp".

(** ** Constants of [detectem/settings.py] *)

(** Modelled from the spec: [INLINE_SCRIPT_ENTRY], which [core.py]
    imports from [detectem.settings] and [settings.py] does not bind, is
    the third classification of the data model.  [MAIN_ENTRY] and
    [RESOURCE_ENTRY] are the constants ['main'] and ['resource'] of
    [settings.py]. *)
Inductive EntryType := MAIN_ENTRY | RESOURCE_ENTRY | INLINE_SCRIPT_ENTRY.

(** Modelled from the spec: [GENERIC_TYPE], which [core.py] imports
    from [detectem.settings] and [settings.py] does not bind, is the
    fourth result type of the data model.  [VERSION_TYPE],
    [INDICATOR_TYPE] and [HINT_TYPE] are the constants ['version'],
    ['indicator'] and ['hint'] of [settings.py]. *)
Inductive ResultType := VERSION_TYPE | INDICATOR_TYPE | HINT_TYPE | GENERIC_TYPE.

Module Kind.
(** The keys of the [MATCHERS] table of [core.py]: ['url'], ['body'],
    ['header'] and ['xpath']. *)
Inductive t := url | body | header | xpath.
End Kind.

#[global] Instance EntryType_eq_dec : EqDecision EntryType.
Proof. solve_decision. Defined.
#[global] Instance ResultType_eq_dec : EqDecision ResultType.
Proof. solve_decision. Defined.
#[global] Instance Kind_eq_dec : EqDecision Kind.t.
Proof. solve_decision. Defined.

(** ** Python values *)

(** [if x:] on a value that is [None] or a [str]: [None] and the empty
    string are false, every other string is true.  [if_truthy x] is
    [Some s] when [x] is the true string [s], [None] when [x] is false. *)
Definition if_truthy (x : option string) : option string :=
  match x with
  | None => None
  | Some s => if bool_decide (s = "") then None else Some s
  end.

(** [needle in hay] on two [str]: [needle] occurs in [hay] as a
    contiguous run of characters. *)
Fixpoint str_in (needle hay : string) : bool :=
  String.prefix needle hay ||
  match hay with
  | EmptyString => false
  | String _ hay' => str_in needle hay'
  end.

(** [any(xs)] on a list of booleans. *)
Definition any (xs : list bool) : bool := foldr orb false xs.

(** ** Exceptions *)

(** The exceptions of a run of [core.py] on input of the types below:
    - [AttributeError]: [plugin.name] on [None] in
      [process_from_splash];
    - [KeyError]: [plugin_data['homepage']] in [process_har];
    - [ValueError]: raised by [urllib.parse.urljoin] in
      [_mark_main_entry] for a [Location] value that [urlsplit] rejects;
    - [UnicodeEncodeError]: raised by [encode('utf-8')] in
      [get_version_via_file_hashes] for a body text with a surrogate
      code point;
    - [IndexError]: [entries[0]] when [_mark_main_entry] is called on
      an empty list, which [_prepare_har] does not do. *)
Inductive Exception :=
  | AttributeError (attribute : string)
  | KeyError (key : string)
  | ValueError (message : string)
  | UnicodeEncodeError (reason : string)
  | IndexError (message : string).

(** What a call ends with: a returned value or an uncaught exception. *)
Inductive Outcome (A : Type) :=
  | Return (a : A)
  | Raise (e : Exception).
Arguments Return {A}.
Arguments Raise {A}.

#[global] Instance Outcome_ret : MRet Outcome := λ A a, Return a.
#[global] Instance Outcome_bind : MBind Outcome := λ A B f o,
  match o with
  | Return a => f a
  | Raise e => Raise e
  end.

(** ** The captured session *)

Module Header.
(** One [{'name': ..., 'value': ...}] item of a response's [headers]. *)
Record t := mk { name : string; value : string }.
End Header.

(** A har entry as the session delivers it:
    [entry['request']['url']], [entry['response']['url']],
    [entry['response'].get('headers', [])] (an absent list reads as
    empty) and [entry['response']['content']['text']]. *)
Record HarEntry := mkHarEntry {
  request_url : string;
  response_url : string;
  response_headers : list Header.t;
  response_content_text : string;
}.

(** An entry of [self.har]: a har entry together with
    [entry['detectem']['type']].  Every element of [self.har] went
    through [_set_entry_type] in [_prepare_har], so the tag is a field
    and [_get_entry_type] is total. *)
Record Entry := mkEntry {
  har_entry :> HarEntry;
  detectem_type : EntryType;
}.

Module Software.
(** One [{'name': ..., 'version': ...}] item of [response['softwares']]. *)
Record t := mk { name : string; version : string }.
End Software.

Module Response.
(** The response handed to [Detector.__init__]:
    [response.get('har', [])], [response.get('scripts', [])] (an absent
    list reads as empty) and [response['softwares']]. *)
Record t := mk {
  har : list HarEntry;
  scripts : list string;
  softwares : list Software.t;
}.
End Response.

(** ** Entry classifier *)

(** [entry.setdefault('detectem', {})['type'] = entry_type]: whatever tag
    the entry had, it now has [entry_type]. *)
Definition _set_entry_type (entry : HarEntry) (entry_type : EntryType) : Entry :=
  mkEntry entry entry_type.

Definition _get_entry_type (entry : Entry) : EntryType := detectem_type entry.

(** The local [get_location] of [_mark_main_entry]: the value of the
    first header named [Location], [None] when there is none. *)
Fixpoint get_location_headers (headers : list Header.t) : option string :=
  match headers with
  | [] => None
  | header :: headers' =>
      if bool_decide (Header.name header = "Location")
      then Some (Header.value header)
      else get_location_headers headers'
  end.

Definition get_location (entry : HarEntry) : option string :=
  get_location_headers (response_headers entry).

(** The [for entry in entries[1:]] loop of [_mark_main_entry]: [Some] of
    the updated entries when the loop left through [break], [None] when
    it ran to its end (the [else] branch of the [for]). *)
Fixpoint mark_first_match (main_url : string) (entries : list Entry)
  : option (list Entry) :=
  match entries with
  | [] => None
  | entry :: entries' =>
      if bool_decide (request_url entry = main_url)
      then Some (_set_entry_type entry MAIN_ENTRY :: entries')
      else (entry ::.) <$> mark_first_match main_url entries'
  end.

(** [{'request': {'url': requested_url}, 'response': {'url':
    requested_url, 'content': {'text': script}}}], tagged as an inline
    script; the entry has no [headers]. *)
Definition _script_to_har_entry (requested_url script : string) : Entry :=
  _set_entry_type
    (mkHarEntry requested_url requested_url [] script)
    INLINE_SCRIPT_ENTRY.

Section Classifier.
(** [urllib.parse.urljoin], library code: a parameter.  It resolves
    [url] against [base] and returns the resolved URL, or raises: a
    [ValueError] for a [url] that [urlsplit] rejects, such as one with
    an unbalanced bracket in its host. *)
Variable urljoin : string → string → Outcome string.

(** The method tags the entries in place; the model returns the tagged
    list.  [entries[0]] raises [IndexError] on an empty list, and the
    call of [urljoin] is not guarded: what it raises leaves the method.
    [get_url] in the method body is its local function, the request
    URL. *)
Definition _mark_main_entry (entries : list HarEntry) : Outcome (list Entry) :=
  let entries : list Entry :=
    (λ entry, _set_entry_type entry RESOURCE_ENTRY) <$> entries in
  match entries with
  | [] => Raise (IndexError "list index out of range")
  | main_entry :: rest =>
      match if_truthy (get_location main_entry) with
      | None => Return (_set_entry_type main_entry MAIN_ENTRY :: rest)
      | Some main_location =>
          main_url ← urljoin (request_url main_entry) main_location;
          match mark_first_match main_url rest with
          | Some rest' => Return (main_entry :: rest')
          | None => Return (_set_entry_type main_entry MAIN_ENTRY :: rest)
          end
      end
  end.

(** [if har:] is true of a non-empty list.  [har.append] in the loop
    over the scripts puts each script entry after what is there.  An
    exception of [_mark_main_entry] leaves the method before the loop. *)
Definition _prepare_har (requested_url : string) (response : Response.t)
  : Outcome (list Entry) :=
  let har := Response.har response in
  har ← (if bool_decide (har ≠ []) then _mark_main_entry har else Return []);
  Return (foldl (λ har script, har ++ [_script_to_har_entry requested_url script])
                har (Response.scripts response)).
End Classifier.

(** ** Plugins, results and the registry *)

Module Result.
(** Modelled from the spec: the class [Result] of [detectem/results.py],
    a record of [name], optional [version], [homepage], [from_url] and
    [type].  A Result built without [type=] is a VERSION Result, one
    built without [version=] has no version. *)
Record t := mk {
  name : string;
  version : option string;
  homepage : string;
  from_url : string;
  type : ResultType;
}.
End Result.

Module Plugin.
(** Modelled from the spec: a plugin of the registry, read only.
    [hints] and [file_hashes] are read with [getattr] and default to
    empty.  [get_grouped_matchers source] returns a table of its own
    for each call, from signature kind to the list of signature
    specifications; [get_information] is the operation of a generic
    plugin and returns a [dict].  [Sig] is the type of a signature
    specification, opaque to [core.py]. *)
Record t {Sig : Type} := mk {
  name : string;
  homepage : string;
  is_modular : bool;
  hints : list string;
  file_hashes : list (string * list (string * string));
  get_grouped_matchers : string → list (Kind.t * list Sig);
  get_information : Entry → gmap string string;
}.
Arguments t : clear implicits.
Arguments mk {Sig}.
End Plugin.

Module PluginCollection.
(** Modelled from the spec: the plugin registry, queried by name
    ([get], [None] for an unknown name) and enumerated in registry
    order by [with_version_matchers], [with_indicator_matchers] and
    [with_generic_matchers]. *)
Record t {Sig : Type} := mk {
  get : string → option (Plugin.t Sig);
  with_version_matchers : list (Plugin.t Sig);
  with_indicator_matchers : list (Plugin.t Sig);
  with_generic_matchers : list (Plugin.t Sig);
}.
Arguments t : clear implicits.
Arguments mk {Sig}.
End PluginCollection.

Module Matcher.
(** The interface of the four matcher classes of [detectem/matchers.py]
    as [core.py] calls it: [klass.get_version(entry, *matchers)],
    [klass.check_presence(entry, *matchers)] and
    [klass.get_module_name(entry, *matchers)]. *)
Record t {Sig : Type} := mk {
  get_version : Entry → list Sig → option string;
  check_presence : Entry → list Sig → bool;
  get_module_name : Entry → list Sig → option string;
}.
Arguments t : clear implicits.
Arguments mk {Sig}.
End Matcher.

(** ** State *)

(** A record of the [logger]: level, message template and its two
    arguments [pname] and [hname]. *)
Inductive LogRecord :=
  | logger_debug (msg pname hname : string)
  | logger_error (msg pname hname : string).

(** Modelled from the spec: the [ResultCollection] [self._results]
    accumulates Results; [_results] is the sequence of the [add_result]
    calls so far.  With what the [logger] recorded, it is what a run
    mutates. *)
Record World := mkWorld {
  _results : list Result.t;
  logged : list LogRecord;
}.

Definition M (A : Type) : Type := World → Outcome A * World.

#[global] Instance M_ret : MRet M := λ A a w, (Return a, w).
#[global] Instance M_bind : MBind M := λ A B f m w,
  match m w with
  | (Return a, w') => f a w'
  | (Raise e, w') => (Raise e, w')
  end.

Definition raise {A} (e : Exception) : M A := λ w, (Raise e, w).

(** A call of a method that touches no state. *)
Definition call {A} (outcome : Outcome A) : M A := λ w, (outcome, w).

Definition add_result (result : Result.t) : M unit := λ w,
  (Return (), mkWorld (_results w ++ [result]) (logged w)).

Definition log (record : LogRecord) : M unit := λ w,
  (Return (), mkWorld (_results w) (logged w ++ [record])).

(** [d[key]] on a [dict]. *)
Definition getitem (d : gmap string string) (key : string) : M string :=
  match d !! key with
  | Some v => mret v
  | None => raise (KeyError key)
  end.

(** A [for] loop that carries the local variable [b] through its body. *)
Fixpoint for_each {A B} (xs : list A) (b : B) (body : B → A → M B) : M B :=
  match xs with
  | [] => mret b
  | x :: xs' => b' ← body b x; for_each xs' b' body
  end.

(** ** The detector *)

(** The fields [__init__] sets and no method rebinds; [self._results]
    is in [World]. *)
Record Detector {Sig : Type} := mkDetector {
  requested_url : string;
  har : list Entry;
  _softwares_from_splash : list Software.t;
  _plugins : PluginCollection.t Sig;
}.
Arguments Detector : clear implicits.
Arguments mkDetector {Sig}.

(** Modelled from the spec: [get_url] of [detectem/utils.py], the
    entry's response URL. *)
Definition get_url (entry : Entry) : string := response_url entry.

(** Modelled from the spec: [get_response_body] of [detectem/utils.py],
    the entry's body text. *)
Definition get_response_body (entry : Entry) : string :=
  response_content_text entry.

(** A [string] stands for a Python [str] through the UTF-8 bytes of its
    code points, on which [==], [in] and concatenation agree with those
    of the [str].  A [str] may hold a surrogate code point (U+D800 to
    U+DFFF), for which UTF-8 has no encoding; it stands here through
    the three bytes the same scheme gives it: ED, then a byte from A0
    to BF, then a byte from 80 to BF.  No other code point has ED
    followed by a byte from A0 to BF. *)
Fixpoint has_surrogate (s : string) : bool :=
  match s with
  | EmptyString => false
  | String c s' =>
      match s' with
      | String c' _ =>
          bool_decide (Ascii.nat_of_ascii c = 237 ∧
                       160 ≤ Ascii.nat_of_ascii c' ≤ 191)
      | EmptyString => false
      end || has_surrogate s'
  end.

(** [s.encode('utf-8')]: the UTF-8 bytes of [s]; [UnicodeEncodeError]
    when [s] holds a surrogate. *)
Definition encode_utf8 (s : string) : Outcome (list Byte.byte) :=
  if has_surrogate s then Raise (UnicodeEncodeError "surrogates not allowed")
  else Return (String.list_byte_of_string s).

(** The [for version, version_hash in hash_dict.items()] loop of
    [get_version_via_file_hashes]: [Some version] is [return version]. *)
Fixpoint find_version_hash (h : string) (hash_dict : list (string * string))
  : option string :=
  match hash_dict with
  | [] => None
  | (version, version_hash) :: hash_dict' =>
      if bool_decide (h = version_hash) then Some version
      else find_version_hash h hash_dict'
  end.

Section Detector.
Context {Sig : Type}.

(** The [MATCHERS] table of [core.py]: one matcher object per kind. *)
Variable MATCHERS : Kind.t → Matcher.t Sig.
(** [get_most_complete_version] of [detectem/utils.py]. *)
Variable get_most_complete_version : list string → option string.
(** [hashlib.sha256], [update] with the bytes, then [hexdigest]. *)
Variable sha256_hexdigest : list Byte.byte → string.
(** [urllib.parse.urljoin]. *)
Variable urljoin : string → string → Outcome string.

Implicit Types (self : Detector Sig) (plugin : Plugin.t Sig) (entry : Entry).

(** The detector and its empty [ResultCollection]; what [_prepare_har]
    raises leaves the constructor. *)
Definition __init__ (response : Response.t)
    (plugins : PluginCollection.t Sig) (requested_url : string)
  : Outcome (Detector Sig * World) :=
  har ← _prepare_har urljoin requested_url response;
  Return (mkDetector requested_url har (Response.softwares response) plugins,
          mkWorld [] []).

(** *** Hints *)

Definition hint_result self (hint_plugin : Plugin.t Sig) : Result.t :=
  Result.mk (Plugin.name hint_plugin) None (Plugin.homepage hint_plugin)
            (requested_url self) HINT_TYPE.

(** The loop of [get_hints] over [getattr(plugin, 'hints', [])], with
    its local [hints]. *)
Fixpoint get_hints_loop self plugin (hint_names : list string)
    (hints : list Result.t) : M (list Result.t) :=
  match hint_names with
  | [] => mret hints
  | hint_name :: hint_names' =>
      match PluginCollection.get (_plugins self) hint_name with
      | Some hint_plugin =>
          let hint_result := hint_result self hint_plugin in
          log (logger_debug "%(pname)s & hint %(hname)s detected"
                 (Plugin.name plugin) (Result.name hint_result));;
          get_hints_loop self plugin hint_names' (hints ++ [hint_result])
      | None =>
          log (logger_error "%(pname)s hints an invalid plugin: %(hname)s"
                 (Plugin.name plugin) hint_name);;
          get_hints_loop self plugin hint_names' hints
      end
  end.

Definition get_hints self plugin : M (list Result.t) :=
  get_hints_loop self plugin (Plugin.hints plugin) [].

(** *** Splash *)

(** The body of the loop of [process_from_splash].  [plugin.name] on
    [None] raises [AttributeError] before anything is added. *)
Definition process_from_splash_software self (software : Software.t) : M unit :=
  match PluginCollection.get (_plugins self) (Software.name software) with
  | None => raise (AttributeError "name")
  | Some plugin =>
      add_result
        (Result.mk (Plugin.name plugin) (Some (Software.version software))
           (Plugin.homepage plugin) (requested_url self) VERSION_TYPE);;
      hints ← get_hints self plugin;
      for_each hints () (λ _ hint, add_result hint)
  end.

Definition process_from_splash self : M unit :=
  for_each (_softwares_from_splash self) ()
    (λ _ software, process_from_splash_software self software).

(** *** Matcher group router *)

(** [if group in grouped_matchers: del grouped_matchers[group]]. *)
Definition remove_group (group : Kind.t)
    (grouped_matchers : list (Kind.t * list Sig)) : list (Kind.t * list Sig) :=
  filter (λ item, item.1 ≠ group) grouped_matchers.

Definition _get_matchers_for_entry (source : string) plugin entry
  : list (Kind.t * list Sig) :=
  let grouped_matchers := Plugin.get_grouped_matchers plugin source in
  if bool_decide (_get_entry_type entry = MAIN_ENTRY)
  then remove_group Kind.url (remove_group Kind.body grouped_matchers)
  else remove_group Kind.xpath (remove_group Kind.header grouped_matchers).

(** *** Versions, names and presence *)

Definition get_plugin_version plugin entry : option string :=
  let grouped_matchers := _get_matchers_for_entry "matchers" plugin entry in
  let versions :=
    foldl (λ versions '(key, matchers),
             let klass := MATCHERS key in
             match if_truthy (Matcher.get_version klass entry matchers) with
             | Some version => versions ++ [version]
             | None => versions
             end)
          [] grouped_matchers in
  get_most_complete_version versions.

(** The loop of [get_version_via_file_hashes] over
    [file_hashes.items()]. *)
Fixpoint file_hashes_loop (url : string) (body : list Byte.byte)
    (file_hashes : list (string * list (string * string))) : option string :=
  match file_hashes with
  | [] => None
  | (file, hash_dict) :: file_hashes' =>
      if negb (str_in file url) then file_hashes_loop url body file_hashes'
      else
        let h := sha256_hexdigest body in
        match find_version_hash h hash_dict with
        | Some version => Some version
        | None => file_hashes_loop url body file_hashes'
        end
  end.

(** [if not file_hashes: return] leaves with [None] before the body is
    read; the body is encoded before the loop, whether or not a file
    name occurs in the URL.  A loop that ends without [return] gives
    [None]. *)
Definition get_version_via_file_hashes plugin entry : Outcome (option string) :=
  let file_hashes := Plugin.file_hashes plugin in
  if bool_decide (file_hashes = []) then Return None
  else
    let url := get_url entry in
    body ← encode_utf8 (get_response_body entry);
    Return (file_hashes_loop url body file_hashes).

(** The loop of [get_plugin_name]: it assigns [module_name] in each
    round and leaves through [break] at the first true value. *)
Fixpoint module_name_loop entry (grouped_matchers : list (Kind.t * list Sig))
    (module_name : option string) : option string :=
  match grouped_matchers with
  | [] => module_name
  | (key, matchers) :: grouped_matchers' =>
      let klass := MATCHERS key in
      let module_name := Matcher.get_module_name klass entry matchers in
      match if_truthy module_name with
      | Some _ => module_name
      | None => module_name_loop entry grouped_matchers' module_name
      end
  end.

Definition get_plugin_name plugin entry : string :=
  if negb (Plugin.is_modular plugin) then Plugin.name plugin
  else
    let grouped_matchers :=
      _get_matchers_for_entry "modular_matchers" plugin entry in
    let module_name := module_name_loop entry grouped_matchers None in
    match if_truthy module_name with
    | Some module_name => Plugin.name plugin +:+ "-" +:+ module_name
    | None => Plugin.name plugin
    end.

Definition check_indicator_presence plugin entry : bool :=
  let grouped_matchers := _get_matchers_for_entry "indicators" plugin entry in
  let presences :=
    foldl (λ presences '(key, matchers),
             let klass := MATCHERS key in
             let presence := Matcher.check_presence klass entry matchers in
             presences ++ [presence])
          [] grouped_matchers in
  any presences.

(** *** The passes of [process_har] *)

(** The body of [for plugin in version_plugins]; it returns the local
    [hints]. *)
Definition process_har_version_plugin self entry
    (hints : list Result.t) plugin : M (list Result.t) :=
  let version := get_plugin_version plugin entry in
  match if_truthy version with
  | Some version =>
      let name := get_plugin_name plugin entry in
      add_result
        (Result.mk name (Some version) (Plugin.homepage plugin)
           (get_url entry) VERSION_TYPE);;
      plugin_hints ← get_hints self plugin;
      mret (hints ++ plugin_hints)
  | None => mret hints
  end.

(** The body of [for plugin in indicator_plugins]. *)
Definition process_har_indicator_plugin self entry
    (hints : list Result.t) plugin : M (list Result.t) :=
  let is_present := check_indicator_presence plugin entry in
  if is_present then
    let name := get_plugin_name plugin entry in
    add_result
      (Result.mk name None (Plugin.homepage plugin)
         (get_url entry) INDICATOR_TYPE);;
    plugin_hints ← get_hints self plugin;
    let hints := hints ++ plugin_hints in
    version ← call (get_version_via_file_hashes plugin entry);
    match if_truthy version with
    | Some version =>
        add_result
          (Result.mk name (Some version) (Plugin.homepage plugin)
             (get_url entry) VERSION_TYPE)
    | None =>
        add_result
          (Result.mk name None (Plugin.homepage plugin)
             (get_url entry) INDICATOR_TYPE)
    end;;
    mret hints
  else mret hints.

(** The body of [for plugin in generic_plugins]. *)
Definition process_har_generic_plugin entry plugin : M unit :=
  let is_present := check_indicator_presence plugin entry in
  if is_present then
    let plugin_data := Plugin.get_information plugin entry in
    if bool_decide (is_Some (plugin_data !! "name")) then
      name ← getitem plugin_data "name";
      homepage ← getitem plugin_data "homepage";
      add_result (Result.mk name None homepage (get_url entry) GENERIC_TYPE)
    else mret ()
  else mret ().

(** The body of [for entry in self.har]. *)
Definition process_har_entry self (hints : list Result.t) entry
  : M (list Result.t) :=
  let plugins := _plugins self in
  hints ← for_each (PluginCollection.with_version_matchers plugins) hints
            (process_har_version_plugin self entry);
  hints ← for_each (PluginCollection.with_indicator_matchers plugins) hints
            (process_har_indicator_plugin self entry);
  for_each (PluginCollection.with_generic_matchers plugins) ()
    (λ _ plugin, process_har_generic_plugin entry plugin);;
  mret hints.

Definition process_har self : M unit :=
  hints ← for_each (har self) [] (process_har_entry self);
  for_each hints () (λ _ hint, add_result hint).
End Detector.

(** ** The response after the constructor *)

(** [_prepare_har] works on the list object stored under [har] when the
    response has that key: [har = response.get('har', [])] is that
    object, [_mark_main_entry] tags its entries in place, [har.append]
    extends it, and it is returned as [self.har].  So the response has
    [self.har] as its har list afterwards.  Without the key the list is a
    fresh one and the response is as before.  The tags are no field of
    [Response.t]: [_mark_main_entry] sets the tag of every entry before
    it reads one, and nothing else reads the response's list. *)
Definition response_after_prepare_har (has_har : bool) (response : Response.t)
    (entries : list Entry) : Response.t :=
  if has_har
  then Response.mk (har_entry <$> entries) (Response.scripts response)
                   (Response.softwares response)
  else response.

(** ** The result emitter *)

(** A value of an output record: a [str], or the result type constant
    of [rt.type]. *)
Inductive Value :=
  | Str (s : string)
  | TypeStr (t : ResultType).

(** The body of the loop of [get_results]: the record [rdict] of one
    result.  [rdict[key] = value] on a key the record does not have yet
    puts the item last. *)
Definition result_record (metadata : bool) (rt : Result.t) : list (string * Value) :=
  let rdict := [("name", Str (Result.name rt))] in
  let rdict :=
    match if_truthy (Result.version rt) with
    | Some version => rdict ++ [("version", Str version)]
    | None => rdict
    end in
  if metadata then
    rdict ++ [("homepage", Str (Result.homepage rt));
              ("type", TypeStr (Result.type rt));
              ("from_url", Str (Result.from_url rt))]
  else rdict.

Section Results.
Context {Sig : Type}.
Variable MATCHERS : Kind.t → Matcher.t Sig.
Variable get_most_complete_version : list string → option string.
Variable sha256_hexdigest : list Byte.byte → string.

(** Modelled from the spec: [sorted(self._results.get_results())], the
    deduplicated, sorted view that the [ResultCollection] of
    [detectem/results.py] gives of the Results added to it.  How it
    merges and how it compares is an external contract: a parameter. *)
Variable sorted_results : list Result.t → list Result.t.

(** Reads the collection: the world is left as it is. *)
Definition sorted_get_results : M (list Result.t) := λ w,
  (Return (sorted_results (_results w)), w).

Definition get_results (self : Detector Sig) (metadata : bool)
  : M (list (list (string * Value))) :=
  process_har MATCHERS get_most_complete_version sha256_hexdigest self;;
  process_from_splash self;;
  results ← sorted_get_results;
  mret (foldl (λ results_data rt, results_data ++ [result_record metadata rt])
              [] results).
End Results.

(** ** [detectem/settings.py] *)

Module settings.
(** [s.split(sep)] for a separator of one character: the parts of [s]
    between the occurrences of [sep], empty parts included. *)
Fixpoint split (sep : Ascii.ascii) (s : string) : list string :=
  match s with
  | EmptyString => [""]
  | String c s' =>
      if bool_decide (c = sep) then "" :: split sep s'
      else
        match split sep s' with
        | part :: parts => String c part :: parts
        | [] => [String c ""]
        end
  end.

(** [os.environ.get(key, default)]; the environment is a map from
    variable names to values. *)
Definition environ_get (environ : gmap string string) (key default : string)
  : string :=
  match environ !! key with
  | Some value => value
  | None => default
  end.

(** The character [','] (code 44). *)
Definition comma : Ascii.ascii := Ascii.ascii_of_nat 44.

Definition PLUGIN_PACKAGES (environ : gmap string string) : list string :=
  split comma (environ_get environ "DET_PLUGIN_PACKAGES" "detectem.plugins").

Definition SPLASH_URL (environ : gmap string string) : string :=
  environ_get environ "SPLASH_URL" "http://localhost:8050".

Definition SETUP_SPLASH (environ : gmap string string) : bool :=
  bool_decide (environ_get environ "SETUP_SPLASH" "True" = "True").

Definition DOCKER_SPLASH_IMAGE (environ : gmap string string) : string :=
  environ_get environ "DOCKER_SPLASH_IMAGE" "scrapinghub/splash:latest".

Definition JSON_OUTPUT : string := "json".
Definition CMD_OUTPUT : string := "cmd".
End settings.

(** ** SHA-256

    [hashlib.sha256] is library code; the detector takes the digest
    function as a parameter.  This module is FIPS 180-4 SHA-256 on byte
    lists, the instance the closed examples use.  A 32-bit word is a [Z]
    in [0, 2^32). *)

Module SHA256.
#[local] Open Scope Z_scope.

Definition add32 (x y : Z) : Z := (x + y) mod 2 ^ 32.

Definition rotr (n x : Z) : Z :=
  Z.lor (Z.shiftr x n) ((Z.shiftl x (32 - n)) mod 2 ^ 32).

Definition not32 (x : Z) : Z := Z.lxor x 0xffffffff.

Definition Ch (x y z : Z) : Z := Z.lxor (Z.land x y) (Z.land (not32 x) z).

Definition Maj (x y z : Z) : Z :=
  Z.lxor (Z.lxor (Z.land x y) (Z.land x z)) (Z.land y z).

Definition Sigma0 (x : Z) : Z := Z.lxor (Z.lxor (rotr 2 x) (rotr 13 x)) (rotr 22 x).
Definition Sigma1 (x : Z) : Z := Z.lxor (Z.lxor (rotr 6 x) (rotr 11 x)) (rotr 25 x).
Definition sigma0 (x : Z) : Z := Z.lxor (Z.lxor (rotr 7 x) (rotr 18 x)) (Z.shiftr x 3).
Definition sigma1 (x : Z) : Z := Z.lxor (Z.lxor (rotr 17 x) (rotr 19 x)) (Z.shiftr x 10).

(** The largest [r] below [2 ^ bit + acc] with [r ^ k <= n], found bit
    by bit from the top. *)
Fixpoint root (k n : Z) (bit : nat) (acc : Z) : Z :=
  match bit with
  | O => acc
  | S bit' =>
      let candidate := acc + 2 ^ Z.of_nat bit' in
      root k n bit' (if candidate ^ k <=? n then candidate else acc)
  end.

Definition is_prime (p : Z) : bool :=
  forallb (λ d, negb (p mod d =? 0)) (seqZ 2 (p - 2)).

(** The first 64 primes: 2, 3, 5, ..., 311. *)
Definition primes : list Z := filter (λ p, is_prime p = true) (seqZ 2 310).

(** The round constants: the first 32 bits of the fractional parts of
    the cube roots of the first 64 primes. *)
Definition K : list Z := (λ p, root 3 (p * 2 ^ 96) 40 0 mod 2 ^ 32) <$> primes.

(** The initial hash value: the first 32 bits of the fractional parts
    of the square roots of the first 8 primes. *)
Definition H0 : list Z := (λ p, root 2 (p * 2 ^ 64) 40 0 mod 2 ^ 32) <$> take 8 primes.

(** The [n] low bytes of [x], most significant first. *)
Fixpoint big_endian (n : nat) (x : Z) : list Z :=
  match n with
  | O => []
  | S n' => (Z.shiftr x (8 * Z.of_nat n')) mod 256 :: big_endian n' x
  end.

(** The message, the byte [0x80], zero bytes up to 56 modulo 64, and the
    bit length of the message on eight bytes. *)
Definition pad (message : list Z) : list Z :=
  let len := Z.of_nat (length message) in
  let zeros := Z.to_nat ((55 - len) mod 64) in
  message ++ [0x80] ++ replicate zeros 0 ++ big_endian 8 (8 * len).

Fixpoint words (n : nat) (bytes : list Z) : list Z :=
  match n, bytes with
  | S n', b0 :: b1 :: b2 :: b3 :: bytes' =>
      (Z.shiftl b0 24 + Z.shiftl b1 16 + Z.shiftl b2 8 + b3) :: words n' bytes'
  | _, _ => []
  end.

(** The message schedule: [W] holds the words so far, oldest first. *)
Fixpoint schedule (n : nat) (W : list Z) : list Z :=
  match n with
  | O => W
  | S n' =>
      let t := length W in
      let w i := W !!! (t - i)%nat in
      schedule n' (W ++ [add32 (add32 (sigma1 (w 2%nat)) (w 7%nat))
                                (add32 (sigma0 (w 15%nat)) (w 16%nat))])
  end.

Definition round (state : list Z) (kw : Z * Z) : list Z :=
  match state with
  | [a; b; c; d; e; f; g; h] =>
      let T1 := add32 (add32 (add32 h (Sigma1 e)) (Ch e f g)) (add32 kw.1 kw.2) in
      let T2 := add32 (Sigma0 a) (Maj a b c) in
      [add32 T1 T2; a; b; c; add32 d T1; e; f; g]
  | _ => state
  end.

Definition compress (H : list Z) (block : list Z) : list Z :=
  let W := schedule 48 (words 16 block) in
  zip_with add32 H (foldl round H (zip K W)).

Fixpoint blocks (n : nat) (H : list Z) (bytes : list Z) : list Z :=
  match n with
  | O => H
  | S n' => blocks n' (compress H (take 64 bytes)) (drop 64 bytes)
  end.

Definition digest (message : list Byte.byte) : list Z :=
  let bytes := pad ((λ b, Z.of_N (Byte.to_N b)) <$> message) in
  blocks (length bytes / 64) H0 bytes.

Definition hex_digit (x : Z) : Ascii.ascii :=
  if x <? 10 then Ascii.ascii_of_N (Z.to_N (48 + x))
  else Ascii.ascii_of_N (Z.to_N (87 + x)).

Fixpoint hex (n : nat) (x : Z) (rest : string) : string :=
  match n with
  | O => rest
  | S n' => hex n' (Z.shiftr x 4) (String (hex_digit (x mod 16)) rest)
  end.

(** [hashlib.sha256(message).hexdigest()]: 64 lower-case hex digits. *)
Definition hexdigest (message : list Byte.byte) : string :=
  foldr (hex 8) "" (digest message).
End SHA256.

(** ** Definitions used by the statements *)

(** The number of entries with classification [t]. *)
Definition count_type (t : EntryType) (entries : list Entry) : nat :=
  length (filter (λ entry, detectem_type entry = t) entries).

(** An instance of [urljoin] for closed examples, to be used with
    absolute URLs: it has the two early exits of [urllib.parse.urljoin]
    ([if not base: return url] and [if not url: return base]), raises
    the [ValueError] of [urlsplit] for a [url] with an opening and no
    closing bracket, or the reverse, and joins any other [url] to
    itself. *)
Definition urljoin_absolute (base url : string) : Outcome string :=
  if bool_decide (base = "") then Return url
  else if bool_decide (url = "") then Return base
  else if xorb (str_in "[" url) (str_in "]" url)
       then Raise (ValueError "Invalid IPv6 URL")
  else Return url.

(** The one call of [urljoin] that [_mark_main_entry] makes on a har
    list returns: there is none for an empty list and for a first entry
    without Location header or with an empty Location value. *)
Definition location_resolves (urljoin : string → string → Outcome string)
    (har : list HarEntry) : Prop :=
  match har with
  | [] => True
  | main_entry :: _ =>
      match if_truthy (get_location main_entry) with
      | None => True
      | Some main_location =>
          ∃ main_url, urljoin (request_url main_entry) main_location = Return main_url
      end
  end.

(** The rounds of a loop over [xs] that are run when the body raises
    where [failure] says: those up to and including the first at which
    it raises, all of them when it raises at none; and the exception
    with which the loop ends, if any. *)
Fixpoint until_failure {A} (failure : A → option Exception) (xs : list A) : list A :=
  match xs with
  | [] => []
  | x :: xs' =>
      x :: match failure x with
           | Some _ => []
           | None => until_failure failure xs'
           end
  end.

Fixpoint first_failure {A} (failure : A → option Exception) (xs : list A)
  : option Exception :=
  match xs with
  | [] => None
  | x :: xs' =>
      match failure x with
      | Some e => Some e
      | None => first_failure failure xs'
      end
  end.

(** The world after [results] were added to [self._results] and
    [records] were logged. *)
Definition emit (results : list Result.t) (records : list LogRecord)
    (w : World) : World :=
  mkWorld (_results w ++ results) (logged w ++ records).

(** What one hint name contributes to the hints of a detected plugin:
    the HINT Result of the hinted plugin when the name is registered,
    nothing when it is not. *)
Definition hint_results {Sig} (self : Detector Sig) (hint_name : string)
  : list Result.t :=
  match PluginCollection.get (_plugins self) hint_name with
  | Some hint_plugin =>
      [Result.mk (Plugin.name hint_plugin) None (Plugin.homepage hint_plugin)
         (requested_url self) HINT_TYPE]
  | None => []
  end.

(** What [get_hints] logs for one hint name of [plugin]: a debug record
    for a registered name, an error record for an unknown one. *)
Definition hint_log {Sig} (self : Detector Sig) (plugin : Plugin.t Sig)
    (hint_name : string) : LogRecord :=
  match PluginCollection.get (_plugins self) hint_name with
  | Some hint_plugin =>
      logger_debug "%(pname)s & hint %(hname)s detected"
        (Plugin.name plugin) (Plugin.name hint_plugin)
  | None =>
      logger_error "%(pname)s hints an invalid plugin: %(hname)s"
        (Plugin.name plugin) hint_name
  end.

(** What one software reported by splash contributes when its name is
    registered: its VERSION Result, then the hints of its plugin. *)
Definition splash_results {Sig} (self : Detector Sig) (software : Software.t)
  : list Result.t :=
  match PluginCollection.get (_plugins self) (Software.name software) with
  | Some plugin =>
      Result.mk (Plugin.name plugin) (Some (Software.version software))
        (Plugin.homepage plugin) (requested_url self) VERSION_TYPE ::
      (Plugin.hints plugin ≫= hint_results self)
  | None => []
  end.

Definition splash_log {Sig} (self : Detector Sig) (software : Software.t)
  : list LogRecord :=
  match PluginCollection.get (_plugins self) (Software.name software) with
  | Some plugin => hint_log self plugin <$> Plugin.hints plugin
  | None => []
  end.

(** The versions [file_hashes] records for [url] and the digest [h], in
    iteration order: those of the pairs whose file occurs in [url], and
    of these the versions whose recorded hash is [h]. *)
Definition matching_versions (url h : string)
    (file_hashes : list (string * list (string * string))) : list string :=
  file_hashes ≫= λ item,
    if str_in item.1 url
    then (filter (λ version_hash, version_hash.2 = h) item.2).*1
    else [].

Section PassResults.
Context {Sig : Type}.
Variable MATCHERS : Kind.t → Matcher.t Sig.
Variable get_most_complete_version : list string → option string.
Variable sha256_hexdigest : list Byte.byte → string.

Implicit Types (self : Detector Sig) (plugin : Plugin.t Sig) (entry : Entry).

(** What the version pass adds for [plugin] on [entry]. *)
Definition version_results plugin entry : list Result.t :=
  match if_truthy (get_plugin_version MATCHERS get_most_complete_version plugin entry) with
  | Some version =>
      [Result.mk (get_plugin_name MATCHERS plugin entry) (Some version)
         (Plugin.homepage plugin) (get_url entry) VERSION_TYPE]
  | None => []
  end.

(** What the indicator pass adds for [plugin] on [entry]: for a plugin
    that is present the INDICATOR Result and then, when the file-hash
    lookup returns, the VERSION Result or the second INDICATOR Result;
    when the lookup raises, the first INDICATOR Result only. *)
Definition indicator_results plugin entry : list Result.t :=
  if check_indicator_presence MATCHERS plugin entry then
    Result.mk (get_plugin_name MATCHERS plugin entry) None
      (Plugin.homepage plugin) (get_url entry) INDICATOR_TYPE ::
    match get_version_via_file_hashes sha256_hexdigest plugin entry with
    | Return version =>
        [match if_truthy version with
         | Some version =>
             Result.mk (get_plugin_name MATCHERS plugin entry) (Some version)
               (Plugin.homepage plugin) (get_url entry) VERSION_TYPE
         | None =>
             Result.mk (get_plugin_name MATCHERS plugin entry) None
               (Plugin.homepage plugin) (get_url entry) INDICATOR_TYPE
         end]
    | Raise _ => []
    end
  else [].

(** The exception with which the indicator pass ends at [plugin] on
    [entry], if any: that of the file-hash lookup of a plugin that is
    present. *)
Definition indicator_failure plugin entry : option Exception :=
  if check_indicator_presence MATCHERS plugin entry then
    match get_version_via_file_hashes sha256_hexdigest plugin entry with
    | Return _ => None
    | Raise e => Some e
    end
  else None.

(** Whether the version pass, respectively the indicator pass, detects
    [plugin] on [entry]. *)
Definition version_detected plugin entry : bool :=
  bool_decide (is_Some (if_truthy
    (get_plugin_version MATCHERS get_most_complete_version plugin entry))).

Definition indicator_detected plugin entry : bool :=
  check_indicator_presence MATCHERS plugin entry.

(** The hints the passes queue on [entry], in discovery order, and what
    [get_hints] logs for them. *)
Definition entry_hints self entry : list Result.t :=
  (PluginCollection.with_version_matchers (_plugins self) ≫= λ plugin,
     if version_detected plugin entry
     then Plugin.hints plugin ≫= hint_results self else []) ++
  (PluginCollection.with_indicator_matchers (_plugins self) ≫= λ plugin,
     if indicator_detected plugin entry
     then Plugin.hints plugin ≫= hint_results self else []).

Definition entry_log self entry : list LogRecord :=
  (PluginCollection.with_version_matchers (_plugins self) ≫= λ plugin,
     if version_detected plugin entry
     then hint_log self plugin <$> Plugin.hints plugin else []) ++
  (PluginCollection.with_indicator_matchers (_plugins self) ≫= λ plugin,
     if indicator_detected plugin entry
     then hint_log self plugin <$> Plugin.hints plugin else []).

(** What the generic pass adds for [plugin] on [entry]; [None] when
    the record [get_information] returns has a [name] and no
    [homepage]. *)
Definition generic_results plugin entry : option (list Result.t) :=
  if check_indicator_presence MATCHERS plugin entry then
    match Plugin.get_information plugin entry !! "name",
          Plugin.get_information plugin entry !! "homepage" with
    | None, _ => Some []
    | Some name, Some homepage =>
        Some [Result.mk name None homepage (get_url entry) GENERIC_TYPE]
    | Some _, None => None
    end
  else Some [].

(** The exception with which the generic pass ends at [plugin] on
    [entry], if any. *)
Definition generic_failure plugin entry : option Exception :=
  match generic_results plugin entry with
  | Some _ => None
  | None => Some (KeyError "homepage")
  end.

(** What the three passes add on [entry] when none of them raises. *)
Definition entry_results self entry : list Result.t :=
  (PluginCollection.with_version_matchers (_plugins self) ≫= λ plugin,
     version_results plugin entry) ++
  (PluginCollection.with_indicator_matchers (_plugins self) ≫= λ plugin,
     indicator_results plugin entry) ++
  (PluginCollection.with_generic_matchers (_plugins self) ≫= λ plugin,
     default [] (generic_results plugin entry)).

(** The exception with which the passes on [entry] end, if any: that
    of the first indicator plugin at which the indicator pass raises,
    else that of the first generic plugin at which the generic pass
    raises (the version pass does not raise). *)
Definition entry_failure self entry : option Exception :=
  match first_failure (λ plugin, indicator_failure plugin entry)
          (PluginCollection.with_indicator_matchers (_plugins self)) with
  | Some e => Some e
  | None =>
      first_failure (λ plugin, generic_failure plugin entry)
        (PluginCollection.with_generic_matchers (_plugins self))
  end.

(** What the three passes add and log on [entry], up to the plugin at
    which a pass raises when one does: the Results of the version pass,
    those of the indicator plugins up to the one at which the lookup
    raises, which has added its INDICATOR Result, and, when the
    indicator pass returns, those of the generic plugins before the one
    at which the generic pass raises. *)
Definition entry_added self entry : list Result.t :=
  (PluginCollection.with_version_matchers (_plugins self) ≫= λ plugin,
     version_results plugin entry) ++
  (until_failure (λ plugin, indicator_failure plugin entry)
     (PluginCollection.with_indicator_matchers (_plugins self)) ≫= λ plugin,
     indicator_results plugin entry) ++
  match first_failure (λ plugin, indicator_failure plugin entry)
          (PluginCollection.with_indicator_matchers (_plugins self)) with
  | Some _ => []
  | None =>
      until_failure (λ plugin, generic_failure plugin entry)
        (PluginCollection.with_generic_matchers (_plugins self)) ≫= λ plugin,
        default [] (generic_results plugin entry)
  end.

Definition entry_logged self entry : list LogRecord :=
  (PluginCollection.with_version_matchers (_plugins self) ≫= λ plugin,
     if version_detected plugin entry
     then hint_log self plugin <$> Plugin.hints plugin else []) ++
  (until_failure (λ plugin, indicator_failure plugin entry)
     (PluginCollection.with_indicator_matchers (_plugins self)) ≫= λ plugin,
     if indicator_detected plugin entry
     then hint_log self plugin <$> Plugin.hints plugin else []).
End PassResults.

(** ** A small registry for the closed examples *)

Module Example.
(** A signature specification of the examples is a pair of a pattern
    and a value; a matcher looks for the first specification whose
    pattern occurs in the text it inspects. *)
Fixpoint first_match (text : string) (specs : list (string * string))
  : option string :=
  match specs with
  | [] => None
  | (pattern, value) :: specs' =>
      if str_in pattern text then Some value else first_match text specs'
  end.

Definition matcher (text : Entry → string) : Matcher.t (string * string) :=
  Matcher.mk
    (λ entry specs, first_match (text entry) specs)
    (λ entry specs, bool_decide (is_Some (first_match (text entry) specs)))
    (λ entry specs, first_match (text entry) specs).

Definition header_text (entry : Entry) : string :=
  foldr (λ header text, Header.name header +:+ ": " +:+ Header.value header
                        +:+ "; " +:+ text)
        "" (response_headers entry).

(** The url matcher reads the entry's URL, the body and the xpath
    matcher its body text, the header matcher its response headers. *)
Definition MATCHERS (key : Kind.t) : Matcher.t (string * string) :=
  match key with
  | Kind.url => matcher get_url
  | Kind.body => matcher get_response_body
  | Kind.header => matcher header_text
  | Kind.xpath => matcher get_response_body
  end.

(** The longest of the versions, the first of them among equals. *)
Definition get_most_complete_version (versions : list string) : option string :=
  foldl (λ best version,
           match best with
           | Some b => if String.length b <? String.length version
                       then Some version else best
           | None => Some version
           end)
        None versions.

Definition no_information (entry : Entry) : gmap string string := ∅.

(** A version plugin. *)
Definition jquery : Plugin.t (string * string) :=
  Plugin.mk "jquery" "https://jquery.com" false [] []
    (λ source,
       if bool_decide (source = "matchers")
       then [(Kind.url, [("jquery-3.2.1.min.js", "3.2.1")])] else [])
    no_information.

(** An indicator plugin with a file hash for [app.js] (the recorded
    hash is the SHA-256 of [abc]), one registered hint and one hint
    that is not registered. *)
Definition foo : Plugin.t (string * string) :=
  Plugin.mk "foo" "https://foo.example" false ["jquery"; "nowhere"]
    [("vendor.js", [("0.9", "e3b0c44298fc1c149afbf4c8996fb92427ae41e4649b934ca495991b7852b855")]);
     ("app.js", [("1.0", "ba7816bf8f01cfea414140de5dae2223b00361a396177a9cb410ff61f20015ad")])]
    (λ source,
       if bool_decide (source = "indicators")
       then [(Kind.url, [("app.js", "")]); (Kind.header, [("X-Foo", "")])] else [])
    no_information.

(** As [foo], with the empty string as the recorded version. *)
Definition foo_unversioned : Plugin.t (string * string) :=
  Plugin.mk "foo" "https://foo.example" false []
    [("app.js", [("", "ba7816bf8f01cfea414140de5dae2223b00361a396177a9cb410ff61f20015ad")])]
    (λ source,
       if bool_decide (source = "indicators")
       then [(Kind.url, [("app.js", "")])] else [])
    no_information.

(** A modular plugin: its module is read from a header, from the body
    or from the URL. *)
Definition angular : Plugin.t (string * string) :=
  Plugin.mk "angular" "https://angularjs.org" true [] []
    (λ source,
       if bool_decide (source = "matchers")
       then [(Kind.url, [("angular", "1.6.0")])]
       else if bool_decide (source = "modular_matchers")
       then [(Kind.header, [("X-Angular", "header")]);
             (Kind.body, [("ngAnimate", "animate"); ("angular.module", "")]);
             (Kind.url, [("angular-route", "route")])]
       else [])
    no_information.

(** A generic plugin that names what it found, with its homepage. *)
Definition wp_plugins : Plugin.t (string * string) :=
  Plugin.mk "wordpress-generic" "https://wordpress.org" false [] []
    (λ source,
       if bool_decide (source = "indicators")
       then [(Kind.url, [("/wp-content/plugins/", "")])] else [])
    (λ entry, {[ "name" := "akismet";
                 "homepage" := "https://wordpress.org/plugins/akismet" ]}).

(** A generic plugin whose record has a [name] and no [homepage]. *)
Definition wp_plugins_bare : Plugin.t (string * string) :=
  Plugin.mk "wordpress-generic" "https://wordpress.org" false [] []
    (λ source,
       if bool_decide (source = "indicators")
       then [(Kind.url, [("/wp-content/plugins/", "")])] else [])
    (λ entry, {[ "name" := "akismet" ]}).

(** A generic plugin whose record is empty. *)
Definition wp_plugins_silent : Plugin.t (string * string) :=
  Plugin.mk "wordpress-generic" "https://wordpress.org" false [] []
    (λ source,
       if bool_decide (source = "indicators")
       then [(Kind.url, [("/wp-content/plugins/", "")])] else [])
    no_information.

Definition plugins : PluginCollection.t (string * string) :=
  PluginCollection.mk
    (λ name, if bool_decide (name = "jquery") then Some jquery
             else if bool_decide (name = "foo") then Some foo
             else if bool_decide (name = "angular") then Some angular
             else None)
    [jquery; angular] [foo] [wp_plugins].

Definition main_page : Entry :=
  mkEntry (mkHarEntry "https://example.com/" "https://example.com/"
             [Header.mk "X-Foo" "1"] "<html></html>") MAIN_ENTRY.

Definition app_js : Entry :=
  mkEntry (mkHarEntry "https://example.com/static/app.js"
             "https://example.com/static/app.js" [] "abc") RESOURCE_ENTRY.

(** [app.js] with another body: its digest is not the recorded one. *)
Definition app_js_modified : Entry :=
  mkEntry (mkHarEntry "https://example.com/static/app.js"
             "https://example.com/static/app.js" [] "abd") RESOURCE_ENTRY.

Definition angular_route_js : Entry :=
  mkEntry (mkHarEntry "https://example.com/js/angular-route.min.js"
             "https://example.com/js/angular-route.min.js" []
             "angular.module('ngRoute', [])") RESOURCE_ENTRY.

(** A script whose body names the module [animate] and whose URL names
    the module [route]. *)
Definition angular_bundle_js : Entry :=
  mkEntry (mkHarEntry "https://example.com/js/angular-route+animate.js"
             "https://example.com/js/angular-route+animate.js" []
             "angular.module('ngAnimate', [])") RESOURCE_ENTRY.

Definition akismet_js : Entry :=
  mkEntry (mkHarEntry "https://example.com/wp-content/plugins/akismet/a.js"
             "https://example.com/wp-content/plugins/akismet/a.js" [] "")
          RESOURCE_ENTRY.

(** The bytes that stand for the surrogate code point U+D800. *)
Definition lone_surrogate : string :=
  String (Ascii.ascii_of_nat 237)
    (String (Ascii.ascii_of_nat 160) (String (Ascii.ascii_of_nat 128) "")).

(** [app.js] with a body that holds a surrogate. *)
Definition app_js_surrogate : Entry :=
  mkEntry (mkHarEntry "https://example.com/static/app.js"
             "https://example.com/static/app.js" []
             ("var s = '" +:+ lone_surrogate +:+ "';")) RESOURCE_ENTRY.

(** A script from another host with such a body: no file name of a
    plugin occurs in its URL. *)
Definition cdn_js_surrogate : Entry :=
  mkEntry (mkHarEntry "https://cdn.example.com/lib.js"
             "https://cdn.example.com/lib.js" []
             ("var s = '" +:+ lone_surrogate +:+ "';")) RESOURCE_ENTRY.

Definition detector (softwares : list Software.t) : Detector (string * string) :=
  mkDetector "https://example.com/" [main_page; app_js; angular_route_js; akismet_js]
    softwares plugins.

Definition w0 : World := mkWorld [] [].
End Example.

(** ** Definitions used by the further statements *)

(** [sep.join(parts)]. *)
Fixpoint join (sep : string) (parts : list string) : string :=
  match parts with
  | [] => ""
  | part :: parts' =>
      match parts' with
      | [] => part
      | _ => part +:+ sep +:+ join sep parts'
      end
  end.

(** How often the character [c] occurs in [s]. *)
Fixpoint count_char (c : Ascii.ascii) (s : string) : nat :=
  match s with
  | EmptyString => 0
  | String c' s' => (if bool_decide (c' = c) then 1 else 0) + count_char c s'
  end.

(** The kinds the router keeps for [entry]. *)
Definition eligible (entry : Entry) (key : Kind.t) : Prop :=
  if bool_decide (detectem_type entry = MAIN_ENTRY)
  then key = Kind.header ∨ key = Kind.xpath
  else key = Kind.url ∨ key = Kind.body.

#[global] Instance eligible_dec entry key : Decision (eligible entry key).
Proof. unfold eligible. destruct (bool_decide _); apply _. Defined.

Section FurtherStatements.
Context {Sig : Type}.
Variable MATCHERS : Kind.t → Matcher.t Sig.
Variable get_most_complete_version : list string → option string.
Variable sha256_hexdigest : list Byte.byte → string.

Implicit Types (self : Detector Sig) (plugin : Plugin.t Sig) (entry : Entry).

(** The body text of [entry] can be encoded. *)
Definition encodable entry : Prop :=
  ∃ body, encode_utf8 (get_response_body entry) = Return body.

(** The indicator pass returns on [entry]: the file-hash lookup, which
    is made for the indicator plugins present on it and encodes the
    body when the plugin has file hashes, does not raise. *)
Definition indicator_pass_returns self entry : Prop :=
  Forall (λ plugin,
            check_indicator_presence MATCHERS plugin entry = true →
            Plugin.file_hashes plugin ≠ [] → encodable entry)
         (PluginCollection.with_indicator_matchers (_plugins self)).

(** The generic pass returns on [entry]: no generic plugin present on
    it gives a record with a [name] and no [homepage]. *)
Definition generic_pass_returns self entry : Prop :=
  Forall (λ plugin, is_Some (generic_results MATCHERS plugin entry))
         (PluginCollection.with_generic_matchers (_plugins self)).

(** No pass raises on [entry] (the version pass never does). *)
Definition passes_return self entry : Prop :=
  indicator_pass_returns self entry ∧ generic_pass_returns self entry.

(** What the passes have added and logged on [entry] when the indicator
    pass has returned for the plugins [indicator_before] and raises at
    [plugin]: the results of the version pass and of the indicator
    plugins before, and the INDICATOR Result of [plugin], whose hints
    have been looked up. *)
Definition entry_results_until_indicator self entry
    (indicator_before : list (Plugin.t Sig)) plugin : list Result.t :=
  (PluginCollection.with_version_matchers (_plugins self) ≫= λ plugin,
     version_results MATCHERS get_most_complete_version plugin entry) ++
  (indicator_before ≫= λ plugin,
     indicator_results MATCHERS sha256_hexdigest plugin entry) ++
  [Result.mk (get_plugin_name MATCHERS plugin entry) None
     (Plugin.homepage plugin) (get_url entry) INDICATOR_TYPE].

Definition entry_log_until_indicator self entry
    (indicator_before : list (Plugin.t Sig)) plugin : list LogRecord :=
  (PluginCollection.with_version_matchers (_plugins self) ≫= λ plugin,
     if version_detected MATCHERS get_most_complete_version plugin entry
     then hint_log self plugin <$> Plugin.hints plugin else []) ++
  (indicator_before ≫= λ plugin,
     if indicator_detected MATCHERS plugin entry
     then hint_log self plugin <$> Plugin.hints plugin else []) ++
  (hint_log self plugin <$> Plugin.hints plugin).

(** What the three passes have added on [entry] when the indicator
    pass has returned, and the generic pass has returned for the
    plugins [generic_before] and raises at the next one. *)
Definition entry_results_until self entry (generic_before : list (Plugin.t Sig))
  : list Result.t :=
  (PluginCollection.with_version_matchers (_plugins self) ≫= λ plugin,
     version_results MATCHERS get_most_complete_version plugin entry) ++
  (PluginCollection.with_indicator_matchers (_plugins self) ≫= λ plugin,
     indicator_results MATCHERS sha256_hexdigest plugin entry) ++
  (generic_before ≫= λ plugin,
     default [] (generic_results MATCHERS plugin entry)).

(** The shape of a Result [process_har] adds: a VERSION Result has a
    non-empty version, every other Result has none; a HINT Result comes
    from the requested URL, every other Result from the URL of an entry
    of [self.har]. *)
Definition har_result_ok self (result : Result.t) : Prop :=
  (match Result.type result with
   | VERSION_TYPE => ∃ version, Result.version result = Some version ∧ version ≠ ""
   | _ => Result.version result = None
   end) ∧
  (match Result.type result with
   | HINT_TYPE => Result.from_url result = requested_url self
   | _ => ∃ entry, entry ∈ har self ∧ Result.from_url result = get_url entry
   end).
End FurtherStatements.

(** The shape of the record [get_results] builds for the result [rt]. *)
Definition record_ok (metadata : bool) (rt : Result.t)
    (rdict : list (string * Value)) : Prop :=
  NoDup rdict.*1 ∧
  ("name", Str (Result.name rt)) ∈ rdict ∧
  (∀ value, ("version", value) ∈ rdict ↔
            ∃ version, Result.version rt = Some version ∧ version ≠ "" ∧
                       value = Str version) ∧
  (if metadata
   then ("homepage", Str (Result.homepage rt)) ∈ rdict ∧
        ("type", TypeStr (Result.type rt)) ∈ rdict ∧
        ("from_url", Str (Result.from_url rt)) ∈ rdict
   else ("homepage" ∉ rdict.*1) ∧ ("type" ∉ rdict.*1) ∧ ("from_url" ∉ rdict.*1)) ∧
  (∀ key, key ∈ rdict.*1 →
          key ∈ ["name"; "version"; "homepage"; "type"; "from_url"]).

Module ExampleMore.
(** Matchers that agree with those of [Example] on the header and
    the xpath kind, and report a version, a presence and a module
    whatever the entry on the url and the body kind. *)
Definition loud : Matcher.t (string * string) :=
  Matcher.mk (λ _ _, Some "9.9.9") (λ _ _, true) (λ _ _, Some "loud").

Definition MATCHERS_loud (key : Kind.t) : Matcher.t (string * string) :=
  match key with
  | Kind.url | Kind.body => loud
  | _ => Example.MATCHERS key
  end.

(** The registry of [Example] with the generic plugin whose record has
    a [name] and no [homepage], between two well-behaved ones. *)
Definition plugins_bare : PluginCollection.t (string * string) :=
  PluginCollection.mk (PluginCollection.get Example.plugins)
    [Example.jquery; Example.angular] [Example.foo]
    [Example.wp_plugins; Example.wp_plugins_bare; Example.wp_plugins_silent].

Definition detector_bare (softwares : list Software.t)
  : Detector (string * string) :=
  mkDetector "https://example.com/"
    [Example.main_page; Example.app_js; Example.akismet_js; Example.angular_route_js]
    softwares plugins_bare.

(** The session of [detector_bare] with a second entry whose body
    holds a surrogate, on which the indicator plugin [foo], which has
    file hashes, is present. *)
Definition detector_surrogate (softwares : list Software.t)
  : Detector (string * string) :=
  mkDetector "https://example.com/"
    [Example.main_page; Example.app_js_surrogate; Example.akismet_js;
     Example.angular_route_js]
    softwares plugins_bare.

(** The parts of the collection view of the closed examples
    ([sorted_results] below).  [has_version]: the Result carries a true
    version.  [same_key]: two Results have the same name and the same
    version.  [superseded]: the Result has no version and a Result of
    the same name has one. *)
Definition has_version (result : Result.t) : bool :=
  bool_decide (is_Some (if_truthy (Result.version result))).

Definition same_key (result1 result2 : Result.t) : bool :=
  bool_decide (Result.name result1 = Result.name result2 ∧
               if_truthy (Result.version result1) = if_truthy (Result.version result2)).

Definition superseded (results : list Result.t) (result : Result.t) : bool :=
  negb (has_version result) &&
  existsb (λ other, bool_decide (Result.name other = Result.name result) &&
                    has_version other) results.

(** The Results of [results] whose key is not that of a Result of
    [seen] or of an earlier Result of [results]. *)
Fixpoint deduplicated (seen results : list Result.t) : list Result.t :=
  match results with
  | [] => []
  | result :: results' =>
      if existsb (same_key result) seen then deduplicated seen results'
      else result :: deduplicated (result :: seen) results'
  end.

(** [result1 < result2] by name, then by version, no version first. *)
Definition result_ltb (result1 result2 : Result.t) : bool :=
  String.ltb (Result.name result1) (Result.name result2) ||
  (String.eqb (Result.name result1) (Result.name result2) &&
   String.ltb (default "" (Result.version result1))
              (default "" (Result.version result2))).

Fixpoint insert_sorted (result : Result.t) (sorted : list Result.t)
  : list Result.t :=
  match sorted with
  | [] => [result]
  | first :: sorted' =>
      if result_ltb first result
      then first :: insert_sorted result sorted'
      else result :: sorted
  end.

(** Modelled from the spec: an instance of the deduplicated, sorted
    view of the [ResultCollection] for the closed examples (sort key:
    name, then version).  A Result with a version supersedes the
    Results without version of the same name; of the Results left with
    the same name and the same version the first that was added is
    kept. *)
Definition sorted_results (results : list Result.t) : list Result.t :=
  foldr insert_sorted []
    (deduplicated [] (filter (λ result, superseded results result = false) results)).

(** A version plugin with an url signature, and a body signature whose
    version is the empty string. *)
Definition react : Plugin.t (string * string) :=
  Plugin.mk "react" "https://react.dev" false [] []
    (λ source,
       if bool_decide (source = "matchers")
       then [(Kind.url, [("react-", "16.0")]); (Kind.body, [("abc", "")])]
       else [])
    Example.no_information.
End ExampleMore.

(** ** SHA-256: test vectors *)

(** The digests of the empty message and of [abc] (FIPS 180-4, B.1). *)
Example sha256_empty :
  SHA256.hexdigest [] =
  "e3b0c44298fc1c149afbf4c8996fb92427ae41e4649b934ca495991b7852b855".
Proof. vm_compute. reflexivity. Qed.

Example sha256_abc :
  SHA256.hexdigest (String.list_byte_of_string "abc") =
  "ba7816bf8f01cfea414140de5dae2223b00361a396177a9cb410ff61f20015ad".
Proof. vm_compute. reflexivity. Qed.

(** A message of 56 bytes, which takes two blocks (FIPS 180-4, B.2). *)
Example sha256_two_blocks :
  SHA256.hexdigest
    (String.list_byte_of_string
       "abcdbcdecdefdefgefghfghighijhijkijkljklmklmnlmnomnopnopq") =
  "248d6a61d20638b8e5c026930c3e6039a33ce45964ff2167f6ecedd419db06c1".
Proof. vm_compute. reflexivity. Qed.

Example sha256_constants :
  length SHA256.K = 64%nat ∧
  SHA256.K !! 0%nat = Some 0x428a2f98%Z ∧ SHA256.K !! 63%nat = Some 0xc67178f2%Z ∧
  SHA256.H0 !! 0%nat = Some 0x6a09e667%Z ∧ SHA256.H0 !! 7%nat = Some 0x5be0cd19%Z.
Proof. vm_compute. done. Qed.

(** ** Strings: proofs *)

Lemma prefix_spec needle hay :
  String.prefix needle hay = true ↔ ∃ after, hay = needle +:+ after.
Proof.
  revert hay. induction needle as [|a needle IH]; intros hay; simpl.
  - destruct hay; split; eauto.
  - destruct hay as [|b hay]; simpl.
    + split; [done|]. by intros [after [=]].
    + destruct (Ascii.ascii_dec a b) as [->|Hne].
      * rewrite IH. split; intros [after Hafter]; exists after.
        -- by rewrite Hafter.
        -- simpl in Hafter. by injection Hafter.
      * split; [done|]. intros [after Hafter]. simpl in Hafter.
        injection Hafter as Hab _. by destruct Hne.
Qed.

(** [str_in needle hay] holds exactly when [needle] occurs in [hay]. *)
Lemma str_in_spec needle hay :
  str_in needle hay = true ↔ ∃ before after, hay = before +:+ needle +:+ after.
Proof.
  induction hay as [|b hay IH].
  - change (str_in needle "") with (String.prefix needle "" || false).
    rewrite orb_false_r, prefix_spec. split.
    + intros [after Hafter]. by exists "", after.
    + intros (before & after & Hhay). destruct before as [|c before]; [|done].
      by exists after.
  - change (str_in needle (String b hay))
      with (String.prefix needle (String b hay) || str_in needle hay).
    rewrite orb_true_iff, prefix_spec, IH. split.
    + intros [[after Hafter]|(before & after & ->)].
      * by exists "", after.
      * by exists (String b before), after.
    + intros (before & after & Hhay). destruct before as [|c before].
      * left. by exists after.
      * right. simpl in Hhay. injection Hhay as -> ->. by exists before, after.
Qed.

(** ** The entry classifier: proofs *)

Lemma if_truthy_Some x s : if_truthy x = Some s ↔ x = Some s ∧ s ≠ "".
Proof.
  destruct x as [s'|]; simpl; [|naive_solver].
  case_bool_decide; naive_solver.
Qed.

Lemma if_truthy_None x : if_truthy x = None ↔ x = None ∨ x = Some "".
Proof.
  destruct x as [s'|]; simpl; [|naive_solver].
  case_bool_decide; naive_solver.
Qed.

Lemma count_type_cons t entry entries :
  count_type t (entry :: entries) =
  (if bool_decide (detectem_type entry = t) then 1 else 0) + count_type t entries.
Proof.
  unfold count_type. rewrite filter_cons. case_decide; case_bool_decide; naive_solver.
Qed.

Lemma count_type_app t entries1 entries2 :
  count_type t (entries1 ++ entries2) = count_type t entries1 + count_type t entries2.
Proof. unfold count_type. by rewrite filter_app, length_app. Qed.

Lemma count_type_tagged t t' (entries : list HarEntry) :
  t ≠ t' →
  count_type t ((λ entry, _set_entry_type entry t') <$> entries) = 0.
Proof.
  intros Hne. induction entries as [|entry entries IH]; [done|].
  rewrite fmap_cons, count_type_cons, IH; simpl. by case_bool_decide.
Qed.

(** The loop over [entries[1:]] leaves through [break] exactly at the
    first entry whose request URL is [main_url], and retags that entry
    only. *)
Lemma mark_first_match_Some main_url entries entries' :
  mark_first_match main_url entries = Some entries' ↔
  ∃ i (entry : Entry),
    entries !! i = Some entry ∧ request_url entry = main_url ∧
    (∀ j (entry' : Entry),
       j < i → entries !! j = Some entry' → request_url entry' ≠ main_url) ∧
    entries' = <[i := _set_entry_type entry MAIN_ENTRY]> entries.
Proof.
  revert entries'. induction entries as [|e entries IH]; intros entries'; simpl.
  { split; [done|]. by intros (i & entry & ? & _). }
  case_bool_decide as Hurl.
  - split.
    + intros [= <-]. exists 0, e. split_and!; [done..| |done]. lia.
    + intros (i & entry & Hi & Hentry & Hfirst & ->).
      destruct i as [|i]; [by simplify_eq/=|].
      exfalso. by apply (Hfirst 0 e); [lia|..].
  - rewrite fmap_Some. split.
    + intros (rest & Hrest & ->). apply IH in Hrest as (i & entry & ? & ? & Hfirst & ->).
      exists (S i), entry. split_and!; [done..| |done].
      intros [|j] entry' ? Hj; simplify_eq/=; [done|]. apply (Hfirst j); [lia|done].
    + intros (i & entry & Hi & Hentry & Hfirst & ->).
      destruct i as [|i]; [by simplify_eq/=|]. simpl in *.
      eexists; split; [|done]. apply IH. exists i, entry. split_and!; [done..| |done].
      intros j entry' ? Hj. apply (Hfirst (S j)); [lia|done].
Qed.

(** The loop runs to its end exactly when no entry has [main_url] as
    its request URL. *)
Lemma mark_first_match_None main_url entries :
  mark_first_match main_url entries = None ↔
  Forall (λ entry : Entry, request_url entry ≠ main_url) entries.
Proof.
  induction entries as [|e entries IH]; simpl; [by split|].
  rewrite Forall_cons. case_bool_decide; [naive_solver|].
  rewrite fmap_None. naive_solver.
Qed.

Lemma mark_first_match_count main_url entries entries' :
  count_type MAIN_ENTRY entries = 0 →
  mark_first_match main_url entries = Some entries' →
  count_type MAIN_ENTRY entries' = 1.
Proof.
  revert entries'. induction entries as [|e entries IH]; intros entries'; [done|].
  rewrite count_type_cons; simpl. intros Hcount.
  destruct (bool_decide_reflect (request_url e = main_url)).
  - intros [= <-]. rewrite count_type_cons; simpl. lia.
  - rewrite fmap_Some. intros (rest & Hrest & ->).
    rewrite count_type_cons. rewrite (IH rest); [|lia|done]. lia.
Qed.

Lemma mark_first_match_har_entry main_url entries entries' :
  mark_first_match main_url entries = Some entries' →
  har_entry <$> entries' = har_entry <$> entries.
Proof.
  revert entries'. induction entries as [|e entries IH]; intros entries'; [done|].
  simpl. case_bool_decide.
  - by intros [= <-].
  - rewrite fmap_Some. intros (rest & Hrest & ->). rewrite !fmap_cons. f_equal. by apply IH.
Qed.

(** [get_location] finds nothing exactly when no header is named
    [Location]. *)
Lemma get_location_None (entry : HarEntry) :
  get_location entry = None ↔
  Forall (λ header, Header.name header ≠ "Location") (response_headers entry).
Proof.
  unfold get_location. induction (response_headers entry) as [|h headers IH]; simpl.
  { by split. }
  rewrite Forall_cons. case_bool_decide; naive_solver.
Qed.

(** [get_location] returns the value of the first header named
    [Location]. *)
Lemma get_location_first (entry : HarEntry) before X after :
  response_headers entry = before ++ Header.mk "Location" X :: after →
  Forall (λ header, Header.name header ≠ "Location") before →
  get_location entry = Some X.
Proof.
  unfold get_location. intros -> Hbefore.
  induction Hbefore as [|h before Hh _ IH]; simpl; [done|].
  by rewrite bool_decide_eq_false_2.
Qed.

Lemma mark_main_entry_unfold urljoin (main_entry : HarEntry) (rest : list HarEntry) :
  _mark_main_entry urljoin (main_entry :: rest) =
  match if_truthy (get_location main_entry) with
  | None =>
      Return (_set_entry_type main_entry MAIN_ENTRY ::
              ((λ entry, _set_entry_type entry RESOURCE_ENTRY) <$> rest))
  | Some main_location =>
      match urljoin (request_url main_entry) main_location with
      | Raise e => Raise e
      | Return main_url =>
          match mark_first_match main_url
                  ((λ entry, _set_entry_type entry RESOURCE_ENTRY) <$> rest) with
          | Some rest' => Return (_set_entry_type main_entry RESOURCE_ENTRY :: rest')
          | None =>
              Return (_set_entry_type main_entry MAIN_ENTRY ::
                      ((λ entry, _set_entry_type entry RESOURCE_ENTRY) <$> rest))
          end
      end
  end.
Proof.
  unfold _mark_main_entry; simpl.
  destruct (if_truthy (get_location main_entry)) as [main_location|]; [|done].
  by destruct (urljoin (request_url main_entry) main_location).
Qed.

(** What [_mark_main_entry] returns on a non-empty list: the entries of
    the list, in order, exactly one of them MAIN and all the others
    RESOURCE. *)
Lemma mark_main_entry_returns urljoin (main_entry : HarEntry) (rest : list HarEntry)
    entries :
  _mark_main_entry urljoin (main_entry :: rest) = Return entries →
  har_entry <$> entries = main_entry :: rest ∧
  count_type MAIN_ENTRY entries = 1 ∧
  count_type INLINE_SCRIPT_ENTRY entries = 0.
Proof.
  rewrite mark_main_entry_unfold.
  set (tagged := (λ entry, _set_entry_type entry RESOURCE_ENTRY) <$> rest).
  assert (har_entry <$> tagged = rest) as Hhar.
  { unfold tagged. rewrite <-list_fmap_compose. apply list_fmap_id. }
  assert (count_type MAIN_ENTRY tagged = 0) as Hmain by by apply count_type_tagged.
  assert (count_type INLINE_SCRIPT_ENTRY tagged = 0) as Hinline
    by by apply count_type_tagged.
  destruct (if_truthy (get_location main_entry)) as [main_location|].
  - destruct (urljoin _ _) as [main_url|e]; [|done].
    destruct (mark_first_match _ tagged) as [rest'|] eqn:Hloop.
    + intros [= <-]. rewrite fmap_cons, !count_type_cons; simpl.
      rewrite (mark_first_match_har_entry _ _ _ Hloop), Hhar.
      rewrite (mark_first_match_count _ _ _ Hmain Hloop).
      split_and!; [done..|].
      apply mark_first_match_Some in Hloop as (i & entry & Hi & _ & _ & ->).
      assert (count_type INLINE_SCRIPT_ENTRY
                (<[i:=_set_entry_type entry MAIN_ENTRY]> tagged) = 0) as ->; [|done].
      clear -Hinline. revert i.
      induction tagged as [|e tagged IH]; intros [|i]; simpl; [done..| |].
      * rewrite count_type_cons in Hinline. rewrite count_type_cons; simpl. lia.
      * rewrite count_type_cons in Hinline. rewrite count_type_cons, IH; lia.
    + intros [= <-]. rewrite fmap_cons, !count_type_cons, Hhar; simpl.
      split_and!; [done|lia..].
  - intros [= <-]. rewrite fmap_cons, !count_type_cons, Hhar; simpl.
    split_and!; [done|lia..].
Qed.

(** [_mark_main_entry] raises on a non-empty list exactly when
    [urljoin] raises on the first entry's Location value, and it raises
    what [urljoin] raises. *)
Lemma mark_main_entry_raises urljoin (main_entry : HarEntry) (rest : list HarEntry) e :
  _mark_main_entry urljoin (main_entry :: rest) = Raise e ↔
  ∃ main_location,
    if_truthy (get_location main_entry) = Some main_location ∧
    urljoin (request_url main_entry) main_location = Raise e.
Proof.
  rewrite mark_main_entry_unfold.
  destruct (if_truthy (get_location main_entry)) as [main_location|];
    [|split; [done|by intros (? & [=] & _)]].
  destruct (urljoin (request_url main_entry) main_location) as [main_url|e'] eqn:Hjoin.
  - split; [by destruct (mark_first_match _ _)|].
    intros (? & [= <-] & Hraise). congruence.
  - split; [intros [= <-]; eauto|].
    intros (? & [= <-] & Hraise). congruence.
Qed.

(** The loop of [_prepare_har] over the scripts appends one entry per
    script, in order. *)
Lemma prepare_har_scripts_loop requested_url (har : list Entry) scripts :
  foldl (λ har script, har ++ [_script_to_har_entry requested_url script])
        har scripts =
  har ++ (_script_to_har_entry requested_url <$> scripts).
Proof.
  revert har. induction scripts as [|script scripts IH]; intros har; simpl.
  - by rewrite app_nil_r.
  - by rewrite IH, <-app_assoc.
Qed.

Lemma count_type_script_entries requested_url scripts t :
  count_type t (_script_to_har_entry requested_url <$> scripts) =
  if bool_decide (t = INLINE_SCRIPT_ENTRY) then length scripts else 0.
Proof.
  induction scripts as [|script scripts IH]; [by case_bool_decide|].
  rewrite fmap_cons, count_type_cons, IH; simpl.
  destruct t; by repeat case_bool_decide.
Qed.

(** What [_prepare_har] returns: the tagged har entries, then one
    entry per script. *)
Lemma prepare_har_shape urljoin requested_url response entries :
  _prepare_har urljoin requested_url response = Return entries →
  ∃ har_entries,
    entries =
      har_entries ++ (_script_to_har_entry requested_url <$> Response.scripts response) ∧
    har_entry <$> har_entries = Response.har response ∧
    count_type MAIN_ENTRY har_entries =
      (if bool_decide (Response.har response = []) then 0 else 1) ∧
    count_type INLINE_SCRIPT_ENTRY har_entries = 0.
Proof.
  unfold _prepare_har. destruct (Response.har response) as [|main_entry rest] eqn:Hhar.
  - simpl. intros [= <-]. exists []. by rewrite prepare_har_scripts_loop.
  - rewrite bool_decide_eq_true_2 by done.
    destruct (_mark_main_entry urljoin (main_entry :: rest)) as [har_entries|e] eqn:Hmark;
      [|done].
    apply mark_main_entry_returns in Hmark as (? & ? & ?).
    simpl. intros [= <-]. exists har_entries. by rewrite prepare_har_scripts_loop.
Qed.

Lemma prepare_har_raise urljoin requested_url response e :
  _prepare_har urljoin requested_url response = Raise e ↔
  ∃ main_entry rest main_location,
    Response.har response = main_entry :: rest ∧
    if_truthy (get_location main_entry) = Some main_location ∧
    urljoin (request_url main_entry) main_location = Raise e.
Proof.
  unfold _prepare_har. destruct (Response.har response) as [|main_entry rest] eqn:Hhar.
  - simpl. split; [done|]. by intros (? & ? & ? & [=] & _).
  - rewrite bool_decide_eq_true_2 by done.
    destruct (_mark_main_entry urljoin (main_entry :: rest)) as [har_entries|e'] eqn:Hmark;
      simpl.
    + split; [done|]. intros (? & ? & main_location & [= <- <-] & Hloc & Hjoin).
      assert (_mark_main_entry urljoin (main_entry :: rest) = Raise e) as Hraise
        by (apply mark_main_entry_raises; eauto).
      by rewrite Hmark in Hraise.
    + apply mark_main_entry_raises in Hmark as (main_location & Hloc & Hjoin).
      split.
      * intros [= <-]. by exists main_entry, rest, main_location.
      * intros (? & ? & main_location' & [= <- <-] & Hloc' & Hjoin').
        rewrite Hloc in Hloc'. injection Hloc' as <-.
        rewrite Hjoin in Hjoin'. by injection Hjoin' as <-.
Qed.

(** [_prepare_har] returns when the Location of the first har entry
    resolves, and only then. *)
Lemma prepare_har_return urljoin requested_url response :
  location_resolves urljoin (Response.har response) ↔
  ∃ entries, _prepare_har urljoin requested_url response = Return entries.
Proof.
  unfold location_resolves.
  destruct (_prepare_har urljoin requested_url response) as [entries|e] eqn:Hprepare.
  - split; [by eauto|]. intros _.
    destruct (Response.har response) as [|main_entry rest] eqn:Hhar; [done|].
    destruct (if_truthy (get_location main_entry)) as [main_location|] eqn:Hloc; [|done].
    destruct (urljoin (request_url main_entry) main_location) as [main_url|e] eqn:Hjoin;
      [by eauto|].
    assert (_prepare_har urljoin requested_url response = Raise e) as Hraise.
    { apply prepare_har_raise. by exists main_entry, rest, main_location. }
    by rewrite Hprepare in Hraise.
  - apply prepare_har_raise in Hprepare
      as (main_entry & rest & main_location & -> & -> & Hjoin).
    split; [|by intros (? & [=])]. intros (main_url & Hreturn).
    by rewrite Hjoin in Hreturn.
Qed.

(** C1 (as amended): the preparation returns when the Location of the
    first har entry resolves; in the sequence it returns exactly one
    entry is MAIN when the har list is non-empty, and none when it is
    empty, also when there are scripts. *)
Theorem prepare_har_main_count urljoin requested_url response :
  (location_resolves urljoin (Response.har response) →
   ∃ entries, _prepare_har urljoin requested_url response = Return entries) ∧
  (∀ entries,
     _prepare_har urljoin requested_url response = Return entries →
     count_type MAIN_ENTRY entries =
       if bool_decide (Response.har response = []) then 0 else 1).
Proof.
  split; [apply prepare_har_return|].
  intros entries Hprepare.
  apply prepare_har_shape in Hprepare as (har_entries & -> & _ & Hmain & _).
  rewrite count_type_app, Hmain, count_type_script_entries; simpl. lia.
Qed.

(** C1 at a redirect that the second entry answers, with one script:
    of the three prepared entries the second is the MAIN one. *)
Lemma prepare_har_main_count_witness :
  _prepare_har urljoin_absolute "http://example.com/"
    (Response.mk
       [mkHarEntry "http://example.com/" "http://example.com/"
          [Header.mk "Location" "https://example.com/"] "";
        mkHarEntry "https://example.com/" "https://example.com/" [] "<html></html>"]
       ["var a = 1;"] []) =
    Return
      [mkEntry (mkHarEntry "http://example.com/" "http://example.com/"
                  [Header.mk "Location" "https://example.com/"] "") RESOURCE_ENTRY;
       mkEntry (mkHarEntry "https://example.com/" "https://example.com/" []
                  "<html></html>") MAIN_ENTRY;
       _script_to_har_entry "http://example.com/" "var a = 1;"] ∧
  count_type MAIN_ENTRY
    [mkEntry (mkHarEntry "http://example.com/" "http://example.com/"
                [Header.mk "Location" "https://example.com/"] "") RESOURCE_ENTRY;
     mkEntry (mkHarEntry "https://example.com/" "https://example.com/" []
                "<html></html>") MAIN_ENTRY;
     _script_to_har_entry "http://example.com/" "var a = 1;"] = 1.
Proof.
  split; [reflexivity|].
  apply (proj2 (prepare_har_main_count urljoin_absolute "http://example.com/"
                  (Response.mk
                     [mkHarEntry "http://example.com/" "http://example.com/"
                        [Header.mk "Location" "https://example.com/"] "";
                      mkHarEntry "https://example.com/" "https://example.com/" []
                        "<html></html>"]
                     ["var a = 1;"] []))).
  reflexivity.
Defined.

(** C1, as stated, fails: a session with an empty har list and one
    inline script yields one entry, and that entry is INLINE_SCRIPT, not
    MAIN. *)
Lemma prepare_har_scripts_only_no_main :
  _prepare_har urljoin_absolute "http://example.com/"
    (Response.mk [] ["var a = 1;"] []) =
    Return [_script_to_har_entry "http://example.com/" "var a = 1;"] ∧
  count_type MAIN_ENTRY [_script_to_har_entry "http://example.com/" "var a = 1;"] = 0 ∧
  ¬ (∀ urljoin requested_url response entries,
       _prepare_har urljoin requested_url response = Return entries →
       entries ≠ [] → count_type MAIN_ENTRY entries = 1).
Proof.
  split_and!; [done..|]. intros Hclaim.
  by specialize (Hclaim urljoin_absolute "http://example.com/"
                   (Response.mk [] ["var a = 1;"] []) _ eq_refl ltac:(done)).
Qed.

(** C2 (as amended): for every non-empty har list, if the first entry
    has no Location response header, or the value of its (first)
    Location header is the empty string, the first entry is MAIN; if
    that value X is not the empty string and resolves against the first
    entry's request URL, then, when some later entry's request URL
    equals the resolution, the first such later entry is MAIN while the
    first entry stays RESOURCE, and when no later entry matches, the
    first entry is MAIN.  Every other entry is RESOURCE.  When [urljoin]
    raises on X, so does [_mark_main_entry]. *)
Theorem mark_main_entry_redirect urljoin (main_entry : HarEntry) (rest : list HarEntry) :
  (Forall (λ header, Header.name header ≠ "Location") (response_headers main_entry) →
   _mark_main_entry urljoin (main_entry :: rest) =
     Return (_set_entry_type main_entry MAIN_ENTRY ::
             ((λ entry, _set_entry_type entry RESOURCE_ENTRY) <$> rest))) ∧
  (∀ before after,
     response_headers main_entry = before ++ Header.mk "Location" "" :: after →
     Forall (λ header, Header.name header ≠ "Location") before →
     _mark_main_entry urljoin (main_entry :: rest) =
       Return (_set_entry_type main_entry MAIN_ENTRY ::
               ((λ entry, _set_entry_type entry RESOURCE_ENTRY) <$> rest))) ∧
  (∀ before X after main_url i (entry : HarEntry),
     response_headers main_entry = before ++ Header.mk "Location" X :: after →
     Forall (λ header, Header.name header ≠ "Location") before →
     X ≠ "" →
     urljoin (request_url main_entry) X = Return main_url →
     rest !! i = Some entry →
     request_url entry = main_url →
     (∀ j (entry' : HarEntry), j < i → rest !! j = Some entry' →
        request_url entry' ≠ main_url) →
     _mark_main_entry urljoin (main_entry :: rest) =
       Return (_set_entry_type main_entry RESOURCE_ENTRY ::
               <[i := _set_entry_type entry MAIN_ENTRY]>
                 ((λ entry, _set_entry_type entry RESOURCE_ENTRY) <$> rest))) ∧
  (∀ before X after main_url,
     response_headers main_entry = before ++ Header.mk "Location" X :: after →
     Forall (λ header, Header.name header ≠ "Location") before →
     X ≠ "" →
     urljoin (request_url main_entry) X = Return main_url →
     Forall (λ entry, request_url entry ≠ main_url) rest →
     _mark_main_entry urljoin (main_entry :: rest) =
       Return (_set_entry_type main_entry MAIN_ENTRY ::
               ((λ entry, _set_entry_type entry RESOURCE_ENTRY) <$> rest))) ∧
  (∀ before X after e,
     response_headers main_entry = before ++ Header.mk "Location" X :: after →
     Forall (λ header, Header.name header ≠ "Location") before →
     X ≠ "" →
     urljoin (request_url main_entry) X = Raise e →
     _mark_main_entry urljoin (main_entry :: rest) = Raise e).
Proof.
  rewrite mark_main_entry_unfold. split_and!.
  - intros Hnone. apply get_location_None in Hnone. by rewrite Hnone.
  - intros before after Hheaders Hbefore.
    by rewrite (get_location_first _ _ _ _ Hheaders Hbefore).
  - intros before X after main_url i entry Hheaders Hbefore HX Hjoin Hi Hurl Hfirst.
    rewrite (get_location_first _ _ _ _ Hheaders Hbefore); simpl.
    rewrite bool_decide_eq_false_2 by done. rewrite Hjoin.
    set (tagged := (λ entry, _set_entry_type entry RESOURCE_ENTRY) <$> rest).
    assert (mark_first_match main_url tagged =
            Some (<[i := _set_entry_type entry MAIN_ENTRY]> tagged)) as ->; [|done].
    apply mark_first_match_Some.
    exists i, (_set_entry_type entry RESOURCE_ENTRY). split_and!; [|done| |done].
    + unfold tagged. by rewrite list_lookup_fmap, Hi.
    + intros j entry' Hj. unfold tagged. rewrite list_lookup_fmap, fmap_Some.
      intros (e & He & ->). by apply (Hfirst j).
  - intros before X after main_url Hheaders Hbefore HX Hjoin Hrest.
    rewrite (get_location_first _ _ _ _ Hheaders Hbefore); simpl.
    rewrite bool_decide_eq_false_2 by done. rewrite Hjoin.
    assert (mark_first_match main_url
              ((λ entry, _set_entry_type entry RESOURCE_ENTRY) <$> rest) = None)
      as ->; [|done].
    apply mark_first_match_None. by rewrite Forall_fmap.
  - intros before X after e Hheaders Hbefore HX Hjoin.
    rewrite (get_location_first _ _ _ _ Hheaders Hbefore); simpl.
    rewrite bool_decide_eq_false_2 by done. by rewrite Hjoin.
Qed.

(** C2 at concrete sessions: a first entry without Location header; a
    first entry whose Location is empty, followed by an entry with the
    same request URL; a redirect [http://example.com/] to
    [https://example.com/] that the third entry answers; a redirect no
    later entry answers; a redirect to a URL that [urljoin] rejects. *)
Lemma mark_main_entry_redirect_witness :
  _mark_main_entry urljoin_absolute
    [mkHarEntry "http://example.com/" "http://example.com/"
       [Header.mk "Content-Type" "text/html"] "<html></html>";
     mkHarEntry "http://example.com/a.js" "http://example.com/a.js" [] "a()"] =
    Return [mkEntry (mkHarEntry "http://example.com/" "http://example.com/"
                       [Header.mk "Content-Type" "text/html"] "<html></html>")
              MAIN_ENTRY;
            mkEntry (mkHarEntry "http://example.com/a.js" "http://example.com/a.js"
                       [] "a()") RESOURCE_ENTRY] ∧
  _mark_main_entry urljoin_absolute
    [mkHarEntry "http://example.com/" "http://example.com/"
       [Header.mk "Location" ""] "";
     mkHarEntry "http://example.com/" "http://example.com/" [] "<html></html>"] =
    Return [mkEntry (mkHarEntry "http://example.com/" "http://example.com/"
                       [Header.mk "Location" ""] "") MAIN_ENTRY;
            mkEntry (mkHarEntry "http://example.com/" "http://example.com/"
                       [] "<html></html>") RESOURCE_ENTRY] ∧
  _mark_main_entry urljoin_absolute
    [mkHarEntry "http://example.com/" "http://example.com/"
       [Header.mk "Server" "nginx"; Header.mk "Location" "https://example.com/"] "";
     mkHarEntry "http://example.com/favicon.ico" "http://example.com/favicon.ico" [] "";
     mkHarEntry "https://example.com/" "https://example.com/" [] "<html></html>"] =
    Return [mkEntry (mkHarEntry "http://example.com/" "http://example.com/"
                       [Header.mk "Server" "nginx";
                        Header.mk "Location" "https://example.com/"] "")
              RESOURCE_ENTRY;
            mkEntry (mkHarEntry "http://example.com/favicon.ico"
                       "http://example.com/favicon.ico" [] "") RESOURCE_ENTRY;
            mkEntry (mkHarEntry "https://example.com/" "https://example.com/"
                       [] "<html></html>") MAIN_ENTRY] ∧
  _mark_main_entry urljoin_absolute
    [mkHarEntry "http://example.com/" "http://example.com/"
       [Header.mk "Location" "https://example.com/"] "";
     mkHarEntry "http://example.com/favicon.ico" "http://example.com/favicon.ico" [] ""] =
    Return [mkEntry (mkHarEntry "http://example.com/" "http://example.com/"
                       [Header.mk "Location" "https://example.com/"] "")
              MAIN_ENTRY;
            mkEntry (mkHarEntry "http://example.com/favicon.ico"
                       "http://example.com/favicon.ico" [] "") RESOURCE_ENTRY] ∧
  _mark_main_entry urljoin_absolute
    [mkHarEntry "http://example.com/" "http://example.com/"
       [Header.mk "Location" "http://[::1"] "";
     mkHarEntry "http://example.com/favicon.ico" "http://example.com/favicon.ico" [] ""] =
    Raise (ValueError "Invalid IPv6 URL").
Proof.
  split_and!.
  - apply (proj1 (mark_main_entry_redirect urljoin_absolute
             (mkHarEntry "http://example.com/" "http://example.com/"
                [Header.mk "Content-Type" "text/html"] "<html></html>")
             [mkHarEntry "http://example.com/a.js" "http://example.com/a.js" [] "a()"])).
    by repeat constructor.
  - apply (proj1 (proj2 (mark_main_entry_redirect urljoin_absolute
             (mkHarEntry "http://example.com/" "http://example.com/"
                [Header.mk "Location" ""] "")
             [mkHarEntry "http://example.com/" "http://example.com/" []
                "<html></html>"]))
             [] []).
    + reflexivity.
    + constructor.
  - apply (proj1 (proj2 (proj2 (mark_main_entry_redirect urljoin_absolute
             (mkHarEntry "http://example.com/" "http://example.com/"
                [Header.mk "Server" "nginx";
                 Header.mk "Location" "https://example.com/"] "")
             [mkHarEntry "http://example.com/favicon.ico"
                "http://example.com/favicon.ico" [] "";
              mkHarEntry "https://example.com/" "https://example.com/"
                [] "<html></html>"])))
             [Header.mk "Server" "nginx"] "https://example.com/" []
             "https://example.com/" 1
             (mkHarEntry "https://example.com/" "https://example.com/"
                [] "<html></html>")).
    + reflexivity.
    + by repeat constructor.
    + done.
    + reflexivity.
    + reflexivity.
    + reflexivity.
    + intros [|[|j]] entry' Hj; [|lia..]. by intros [= <-].
  - apply (proj1 (proj2 (proj2 (proj2 (mark_main_entry_redirect urljoin_absolute
             (mkHarEntry "http://example.com/" "http://example.com/"
                [Header.mk "Location" "https://example.com/"] "")
             [mkHarEntry "http://example.com/favicon.ico"
                "http://example.com/favicon.ico" [] ""]))))
             [] "https://example.com/" [] "https://example.com/").
    + reflexivity.
    + constructor.
    + done.
    + reflexivity.
    + by repeat constructor.
  - apply (proj2 (proj2 (proj2 (proj2 (mark_main_entry_redirect urljoin_absolute
             (mkHarEntry "http://example.com/" "http://example.com/"
                [Header.mk "Location" "http://[::1"] "")
             [mkHarEntry "http://example.com/favicon.ico"
                "http://example.com/favicon.ico" [] ""]))))
             [] "http://[::1" []).
    + reflexivity.
    + constructor.
    + done.
    + reflexivity.
Defined.

(** C2, as stated, fails when the Location header is present with an
    empty value: [if not main_location] treats it as absent, so the
    first entry is MAIN although the second entry's request URL is the
    resolution of the empty Location against the first entry's URL. *)
Lemma mark_main_entry_empty_location :
  get_location
    (mkHarEntry "http://example.com/" "http://example.com/"
       [Header.mk "Location" ""] "") = Some "" ∧
  Return
    (request_url
       (mkHarEntry "http://example.com/" "http://example.com/" [] "<html></html>")) =
    urljoin_absolute "http://example.com/" "" ∧
  _mark_main_entry urljoin_absolute
    [mkHarEntry "http://example.com/" "http://example.com/"
       [Header.mk "Location" ""] "";
     mkHarEntry "http://example.com/" "http://example.com/" [] "<html></html>"] =
    Return [mkEntry (mkHarEntry "http://example.com/" "http://example.com/"
                       [Header.mk "Location" ""] "") MAIN_ENTRY;
            mkEntry (mkHarEntry "http://example.com/" "http://example.com/"
                       [] "<html></html>") RESOURCE_ENTRY] ∧
  ¬ (∀ urljoin (main_entry : HarEntry) (rest : list HarEntry)
       before X after main_url i (entry : HarEntry),
       response_headers main_entry = before ++ Header.mk "Location" X :: after →
       Forall (λ header, Header.name header ≠ "Location") before →
       urljoin (request_url main_entry) X = Return main_url →
       rest !! i = Some entry →
       request_url entry = main_url →
       (∀ j (entry' : HarEntry), j < i → rest !! j = Some entry' →
          request_url entry' ≠ main_url) →
       _mark_main_entry urljoin (main_entry :: rest) =
         Return (_set_entry_type main_entry RESOURCE_ENTRY ::
                 <[i := _set_entry_type entry MAIN_ENTRY]>
                   ((λ entry, _set_entry_type entry RESOURCE_ENTRY) <$> rest))).
Proof.
  split_and!; [done..|]. intros Hclaim.
  specialize (Hclaim urljoin_absolute
    (mkHarEntry "http://example.com/" "http://example.com/" [Header.mk "Location" ""] "")
    [mkHarEntry "http://example.com/" "http://example.com/" [] "<html></html>"]
    [] "" [] "http://example.com/" 0
    (mkHarEntry "http://example.com/" "http://example.com/" [] "<html></html>")
    eq_refl ltac:(constructor) eq_refl eq_refl eq_refl ltac:(intros; lia)).
  discriminate Hclaim.
Qed.

(** C9: the preparation returns when the Location of the first har
    entry resolves, and for every session with N inline script strings
    the sequence it returns is the har-derived entries (none of them
    INLINE_SCRIPT) followed by exactly N entries classified
    INLINE_SCRIPT, one per script in the scripts' order; the request URL
    and the response URL of each are the requested URL and its body text
    is the script source. *)
Theorem prepare_har_inline_scripts urljoin requested_url response :
  (location_resolves urljoin (Response.har response) →
   ∃ entries, _prepare_har urljoin requested_url response = Return entries) ∧
  (∀ entries,
     _prepare_har urljoin requested_url response = Return entries →
     ∃ har_entries script_entries,
       entries = har_entries ++ script_entries ∧
       har_entry <$> har_entries = Response.har response ∧
       count_type INLINE_SCRIPT_ENTRY har_entries = 0 ∧
       count_type INLINE_SCRIPT_ENTRY entries = length (Response.scripts response) ∧
       Forall2 (λ (entry : Entry) script,
                  detectem_type entry = INLINE_SCRIPT_ENTRY ∧
                  request_url entry = requested_url ∧
                  response_url entry = requested_url ∧
                  response_content_text entry = script)
               script_entries (Response.scripts response)).
Proof.
  split; [apply prepare_har_return|].
  intros entries Hprepare.
  apply prepare_har_shape in Hprepare as (har_entries & -> & Hhar & _ & Hinline).
  exists har_entries, (_script_to_har_entry requested_url <$> Response.scripts response).
  split_and!; [done..| |].
  - rewrite count_type_app, Hinline, count_type_script_entries. by case_bool_decide.
  - apply Forall2_fmap_l, Forall_Forall2_diag, Forall_forall. by intros.
Qed.

(** C9 at a session with one har entry and two scripts. *)
Lemma prepare_har_inline_scripts_witness :
  _prepare_har urljoin_absolute "http://example.com/"
    (Response.mk
       [mkHarEntry "http://example.com/" "http://example.com/" [] "<html></html>"]
       ["var a = 1;"; "var b = 2;"] []) =
    Return
      [mkEntry (mkHarEntry "http://example.com/" "http://example.com/" []
                  "<html></html>") MAIN_ENTRY;
       _script_to_har_entry "http://example.com/" "var a = 1;";
       _script_to_har_entry "http://example.com/" "var b = 2;"] ∧
  ∃ har_entries script_entries,
    [mkEntry (mkHarEntry "http://example.com/" "http://example.com/" []
                "<html></html>") MAIN_ENTRY;
     _script_to_har_entry "http://example.com/" "var a = 1;";
     _script_to_har_entry "http://example.com/" "var b = 2;"] =
      har_entries ++ script_entries ∧
    har_entry <$> har_entries =
      [mkHarEntry "http://example.com/" "http://example.com/" [] "<html></html>"] ∧
    count_type INLINE_SCRIPT_ENTRY har_entries = 0 ∧
    count_type INLINE_SCRIPT_ENTRY
      [mkEntry (mkHarEntry "http://example.com/" "http://example.com/" []
                  "<html></html>") MAIN_ENTRY;
       _script_to_har_entry "http://example.com/" "var a = 1;";
       _script_to_har_entry "http://example.com/" "var b = 2;"] = 2 ∧
    Forall2 (λ (entry : Entry) script,
               detectem_type entry = INLINE_SCRIPT_ENTRY ∧
               request_url entry = "http://example.com/" ∧
               response_url entry = "http://example.com/" ∧
               response_content_text entry = script)
            script_entries ["var a = 1;"; "var b = 2;"].
Proof.
  split; [reflexivity|].
  apply (proj2 (prepare_har_inline_scripts urljoin_absolute "http://example.com/"
                  (Response.mk
                     [mkHarEntry "http://example.com/" "http://example.com/" []
                        "<html></html>"]
                     ["var a = 1;"; "var b = 2;"] []))).
  reflexivity.
Defined.

(** ** The state monad: proofs *)

Lemma emit_nil w : emit [] [] w = w.
Proof. destruct w. unfold emit; simpl. by rewrite !app_nil_r. Qed.

Lemma emit_emit results1 records1 results2 records2 w :
  emit results2 records2 (emit results1 records1 w) =
  emit (results1 ++ results2) (records1 ++ records2) w.
Proof. unfold emit; simpl. by rewrite !app_assoc. Qed.

Lemma add_result_emit result w :
  add_result result w = (Return (), emit [result] [] w).
Proof. unfold add_result, emit. by rewrite app_nil_r. Qed.

Lemma log_emit record w : log record w = (Return (), emit [] [record] w).
Proof. unfold log, emit. by rewrite app_nil_r. Qed.

Lemma bind_Return {A B} (m : M A) (f : A → M B) a w w' :
  m w = (Return a, w') → (m ≫= f) w = f a w'.
Proof. unfold mbind, M_bind. by intros ->. Qed.

Lemma bind_Raise {A B} (m : M A) (f : A → M B) e w w' :
  m w = (Raise e, w') → (m ≫= f) w = (Raise e, w').
Proof. unfold mbind, M_bind. by intros ->. Qed.

Lemma call_Return {A} (a : A) w : call (Return a) w = (Return a, w).
Proof. done. Qed.

Lemma call_Raise {A} e w : call (@Raise A e) w = (Raise e, w).
Proof. done. Qed.

(** The steps that return, for [run]. *)
Create HintDb run discriminated.
#[global] Hint Resolve add_result_emit log_emit : run.

(** Runs the first step of a sequence that returns. *)
Ltac run := erewrite bind_Return by solve [eauto with run nocore].

Lemma bind_const_nil {A B} (xs : list A) : xs ≫= (λ _, @nil B) = [].
Proof. induction xs as [|x xs IH]; [done|exact IH]. Qed.

(** A loop whose body extends the carried list and the world. *)
Lemma for_each_emits {A B} (xs : list A) (body : list B → A → M (list B))
    (f : A → list B) (results : A → list Result.t) (records : A → list LogRecord)
    acc w :
  (∀ acc x w, x ∈ xs →
     body acc x w = (Return (acc ++ f x), emit (results x) (records x) w)) →
  for_each xs acc body w =
    (Return (acc ++ (xs ≫= f)), emit (xs ≫= results) (xs ≫= records) w).
Proof.
  revert acc w. induction xs as [|x xs IH]; intros acc w Hbody; simpl.
  - by rewrite app_nil_r, emit_nil.
  - erewrite bind_Return by (apply Hbody; left).
    rewrite IH, emit_emit, <-app_assoc; [done|].
    intros acc' y w' Hy. apply Hbody. by right.
Qed.

(** A loop that carries nothing and whose body extends the world. *)
Lemma for_each_unit_emits {A} (xs : list A) (body : () → A → M ())
    (results : A → list Result.t) (records : A → list LogRecord) w :
  (∀ x w, x ∈ xs → body () x w = (Return (), emit (results x) (records x) w)) →
  for_each xs () body w =
    (Return (), emit (xs ≫= results) (xs ≫= records) w).
Proof.
  revert w. induction xs as [|x xs IH]; intros w Hbody; simpl.
  - by rewrite emit_nil.
  - erewrite bind_Return by (apply Hbody; left).
    rewrite IH, emit_emit; [done|].
    intros y w' Hy. apply Hbody. by right.
Qed.

(** A loop whose body raises at [x], after the rounds before [x]
    returned: the loop raises there, and the rounds after [x] do not
    run. *)
Lemma for_each_unit_raises {A} (before : list A) x after (body : () → A → M ())
    (results : A → list Result.t) (records : A → list LogRecord) e w :
  (∀ y w, y ∈ before → body () y w = (Return (), emit (results y) (records y) w)) →
  (∀ w, body () x w = (Raise e, w)) →
  for_each (before ++ x :: after) () body w =
    (Raise e, emit (before ≫= results) (before ≫= records) w).
Proof.
  intros Hbefore Hx. revert w.
  induction before as [|y before IH]; intros w; simpl.
  - erewrite bind_Raise by apply Hx. by rewrite emit_nil.
  - erewrite bind_Return by (apply Hbefore; left).
    rewrite IH, emit_emit; [done|]. intros z w' Hz. apply Hbefore. by right.
Qed.

(** *** Loops whose body may raise *)

Lemma first_failure_None {A} (failure : A → option Exception) xs :
  first_failure failure xs = None ↔ Forall (λ x, failure x = None) xs.
Proof.
  induction xs as [|x xs IH]; simpl; [by split|].
  rewrite Forall_cons. destruct (failure x); naive_solver.
Qed.

Lemma first_failure_Some {A} (failure : A → option Exception) xs e :
  first_failure failure xs = Some e ↔
  ∃ before x after,
    xs = before ++ x :: after ∧
    Forall (λ x, failure x = None) before ∧ failure x = Some e.
Proof.
  induction xs as [|x xs IH]; simpl.
  { split; [done|]. intros ([|??] & ? & ? & [=] & _). }
  destruct (failure x) as [e'|] eqn:Hx.
  - split.
    + intros [= <-]. by exists [], x, xs.
    + intros ([|y before] & z & after & [= <- ->] & Hbefore & Hz); [congruence|].
      apply Forall_cons in Hbefore as [Hy _]. congruence.
  - rewrite IH. split.
    + intros (before & z & after & -> & Hbefore & Hz).
      exists (x :: before), z, after. split_and!; [done| |done]. by constructor.
    + intros ([|y before] & z & after & [= <- ->] & Hbefore & Hz); [congruence|].
      apply Forall_cons in Hbefore as [_ Hbefore]. by exists before, z, after.
Qed.

Lemma until_failure_all {A} (failure : A → option Exception) xs :
  first_failure failure xs = None → until_failure failure xs = xs.
Proof.
  induction xs as [|x xs IH]; simpl; [done|].
  destruct (failure x); [done|]. intros Hxs. by rewrite IH.
Qed.

Lemma until_failure_at {A} (failure : A → option Exception) before x after e :
  Forall (λ x, failure x = None) before → failure x = Some e →
  until_failure failure (before ++ x :: after) = before ++ [x].
Proof.
  intros Hbefore Hx. induction Hbefore as [|y before Hy _ IH]; simpl.
  - by rewrite Hx.
  - by rewrite Hy, IH.
Qed.

Lemma until_failure_elem_of {A} (failure : A → option Exception) xs x :
  x ∈ until_failure failure xs → x ∈ xs.
Proof.
  induction xs as [|y xs IH]; simpl; [done|].
  rewrite !elem_of_cons. intros [->|Hx]; [by left|].
  destruct (failure y); [by apply elem_of_nil in Hx|]. right. by apply IH.
Qed.

(** A loop whose body extends the carried list and the world, and
    raises where [failure] says after having extended the world: the
    loop runs the rounds up to the first failure. *)
Lemma for_each_run {A B} (xs : list A) (body : list B → A → M (list B))
    (f : A → list B) (failure : A → option Exception)
    (results : A → list Result.t) (records : A → list LogRecord) acc w :
  (∀ acc x w, x ∈ xs →
     body acc x w =
       (match failure x with
        | None => Return (acc ++ f x)
        | Some e => Raise e
        end, emit (results x) (records x) w)) →
  for_each xs acc body w =
    (match first_failure failure xs with
     | None => Return (acc ++ (xs ≫= f))
     | Some e => Raise e
     end,
     emit (until_failure failure xs ≫= results)
          (until_failure failure xs ≫= records) w).
Proof.
  revert acc w. induction xs as [|x xs IH]; intros acc w Hbody.
  - simpl. by rewrite app_nil_r, emit_nil.
  - pose proof (Hbody acc x w ltac:(left)) as Hx.
    change (for_each (x :: xs) acc body)
      with (body acc x ≫= λ acc', for_each xs acc' body).
    simpl. destruct (failure x) as [e|].
    + erewrite bind_Raise by exact Hx. simpl. by rewrite !app_nil_r.
    + erewrite bind_Return by exact Hx.
      rewrite IH by (intros acc' y w' Hy; apply Hbody; by right).
      rewrite emit_emit.
      destruct (first_failure failure xs); [done|]. by rewrite <-app_assoc.
Qed.

(** The same for a loop that carries nothing. *)
Lemma for_each_unit_run {A} (xs : list A) (body : () → A → M ())
    (failure : A → option Exception)
    (results : A → list Result.t) (records : A → list LogRecord) w :
  (∀ x w, x ∈ xs →
     body () x w =
       (match failure x with
        | None => Return ()
        | Some e => Raise e
        end, emit (results x) (records x) w)) →
  for_each xs () body w =
    (match first_failure failure xs with
     | None => Return ()
     | Some e => Raise e
     end,
     emit (until_failure failure xs ≫= results)
          (until_failure failure xs ≫= records) w).
Proof.
  revert w. induction xs as [|x xs IH]; intros w Hbody.
  - simpl. by rewrite emit_nil.
  - pose proof (Hbody x w ltac:(left)) as Hx.
    change (for_each (x :: xs) () body)
      with (body () x ≫= λ acc', for_each xs acc' body).
    simpl. destruct (failure x) as [e|].
    + erewrite bind_Raise by exact Hx. simpl. by rewrite !app_nil_r.
    + erewrite bind_Return by exact Hx.
      rewrite IH by (intros y w' Hy; apply Hbody; by right).
      by rewrite emit_emit.
Qed.

(** The flush loop [for hint in hints: self._results.add_result(hint)]. *)
Lemma add_results_emit (hints : list Result.t) w :
  for_each hints () (λ _ hint, add_result hint) w = (Return (), emit hints [] w).
Proof.
  rewrite (for_each_unit_emits hints _ (λ hint, [hint]) (λ _, [])).
  - f_equal. f_equal.
    + induction hints as [|hint hints IH]; [done|]. simpl. f_equal. exact IH.
    + induction hints as [|hint hints IH]; [done|]. exact IH.
  - intros hint w' _. apply add_result_emit.
Qed.

(** ** Hints: proofs *)

Section HintFacts.
Context {Sig : Type}.
Implicit Types (self : Detector Sig) (plugin : Plugin.t Sig).

Lemma get_hints_loop_emit self plugin hint_names hints w :
  get_hints_loop self plugin hint_names hints w =
    (Return (hints ++ (hint_names ≫= hint_results self)),
     emit [] (hint_log self plugin <$> hint_names) w).
Proof.
  revert hints w. induction hint_names as [|hint_name hint_names IH]; intros hints w.
  - simpl. by rewrite app_nil_r, emit_nil.
  - simpl. unfold hint_results at 1, hint_log at 1.
    destruct (PluginCollection.get (_plugins self) hint_name) as [hint_plugin|].
    + run. rewrite IH, emit_emit. unfold hint_result; simpl. by rewrite <-app_assoc.
    + run. by rewrite IH, emit_emit.
Qed.

Lemma get_hints_emit self plugin w :
  get_hints self plugin w =
    (Return (Plugin.hints plugin ≫= hint_results self),
     emit [] (hint_log self plugin <$> Plugin.hints plugin) w).
Proof. unfold get_hints. by rewrite get_hints_loop_emit. Qed.

#[local] Hint Resolve get_hints_emit : run.

(** X17: each call of [get_hints] returns, for each hint name of the
    plugin's hints list in order, exactly one HINT Result when the name
    is registered (with the hinted plugin's own name and homepage and
    the requested URL as from_url) and no Result when it is not; it
    never raises, an unknown name does not stop the loop, it adds
    nothing to the collection itself and logs one record per hint
    name. *)
Theorem get_hints_registered self plugin w :
  get_hints self plugin w =
    (Return (Plugin.hints plugin ≫= λ hint_name,
               match PluginCollection.get (_plugins self) hint_name with
               | Some hint_plugin =>
                   [Result.mk (Plugin.name hint_plugin) None
                      (Plugin.homepage hint_plugin) (requested_url self) HINT_TYPE]
               | None => []
               end),
     emit [] (hint_log self plugin <$> Plugin.hints plugin) w).
Proof. apply get_hints_emit. Qed.

(** ** Splash: proofs *)

Lemma process_from_splash_software_emit self software w :
  is_Some (PluginCollection.get (_plugins self) (Software.name software)) →
  process_from_splash_software self software w =
    (Return (), emit (splash_results self software) (splash_log self software) w).
Proof.
  unfold process_from_splash_software, splash_results, splash_log.
  intros [plugin ->]. do 2 run.
  rewrite add_results_emit, !emit_emit; simpl. by rewrite app_nil_r.
Qed.

Lemma process_from_splash_software_raise self software w :
  PluginCollection.get (_plugins self) (Software.name software) = None →
  process_from_splash_software self software w = (Raise (AttributeError "name"), w).
Proof. unfold process_from_splash_software. by intros ->. Qed.

(** C10: [process_from_splash] uses the registry lookup unguarded.  At
    the first reported software whose name has no registered plugin it
    raises [AttributeError] (the results of the softwares before it
    stay added, those after it are not processed).  When every reported
    name is registered it returns, and for each reported software, in
    order, it has added exactly one VERSION Result (the plugin's name and
    homepage, the reported version, the requested URL as from_url)
    followed at once by the HINT Results of that plugin's hints. *)
Theorem process_from_splash_registered self w :
  (∀ registered software rest,
     _softwares_from_splash self = registered ++ software :: rest →
     Forall (λ software,
               is_Some (PluginCollection.get (_plugins self) (Software.name software)))
            registered →
     PluginCollection.get (_plugins self) (Software.name software) = None →
     process_from_splash self w =
       (Raise (AttributeError "name"),
        emit (registered ≫= splash_results self) (registered ≫= splash_log self) w)) ∧
  (Forall (λ software,
             is_Some (PluginCollection.get (_plugins self) (Software.name software)))
          (_softwares_from_splash self) →
   process_from_splash self w =
     (Return (),
      emit (_softwares_from_splash self ≫= λ software,
              match PluginCollection.get (_plugins self) (Software.name software) with
              | Some plugin =>
                  Result.mk (Plugin.name plugin) (Some (Software.version software))
                    (Plugin.homepage plugin) (requested_url self) VERSION_TYPE ::
                  (Plugin.hints plugin ≫= hint_results self)
              | None => []
              end)
           (_softwares_from_splash self ≫= splash_log self) w)).
Proof.
  unfold process_from_splash. split.
  - intros registered software rest -> Hregistered Hunknown.
    apply for_each_unit_raises.
    + intros y w' Hy. apply process_from_splash_software_emit.
      by apply (proj1 (Forall_forall _ _) Hregistered).
    + intros w'. by apply process_from_splash_software_raise.
  - intros Hregistered. apply for_each_unit_emits.
    intros software w' Hin. apply process_from_splash_software_emit.
    by apply (proj1 (Forall_forall _ _) Hregistered).
Qed.
End HintFacts.

(** ** The matcher group router and the matcher loops: proofs *)

(** A loop that appends to its accumulator in each round. *)
Lemma foldl_append {A B} (f : A → list B) (g : list B → A → list B) acc xs :
  (∀ acc x, g acc x = acc ++ f x) →
  foldl g acc xs = acc ++ (xs ≫= f).
Proof.
  intros Hg. revert acc. induction xs as [|x xs IH]; intros acc; simpl.
  - by rewrite app_nil_r.
  - by rewrite IH, Hg, <-app_assoc.
Qed.

Lemma remove_group_filter {Sig} group (grouped_matchers : list (Kind.t * list Sig))
    (P : Kind.t * list Sig → Prop)
    `{∀ item, Decision (P item)} :
  remove_group group (filter P grouped_matchers) =
  filter (λ item, item.1 ≠ group ∧ P item) grouped_matchers.
Proof.
  unfold remove_group. induction grouped_matchers as [|item l IH]; [done|].
  destruct (decide (P item)) as [HP|HP].
  - rewrite (filter_cons_True P) by done.
    destruct (decide (item.1 ≠ group)) as [Hgroup|Hgroup].
    + rewrite !filter_cons_True by done. by rewrite IH.
    + rewrite !filter_cons_False by tauto. by rewrite IH.
  - rewrite (filter_cons_False P) by done.
    rewrite filter_cons_False by tauto. by rewrite IH.
Qed.

Lemma filter_ext_kind {Sig} (grouped_matchers : list (Kind.t * list Sig))
    (P Q : Kind.t * list Sig → Prop)
    `{∀ item, Decision (P item)} `{∀ item, Decision (Q item)} :
  (∀ item, P item ↔ Q item) →
  filter P grouped_matchers = filter Q grouped_matchers.
Proof.
  intros HPQ. induction grouped_matchers as [|item l IH]; [done|].
  destruct (decide (P item)) as [HP|HP].
  - rewrite !filter_cons_True by (done || by apply HPQ). by rewrite IH.
  - rewrite !filter_cons_False by (done || by rewrite <-HPQ). by rewrite IH.
Qed.

Section DetectorFacts.
Context {Sig : Type}.
Variable MATCHERS : Kind.t → Matcher.t Sig.
Variable get_most_complete_version : list string → option string.
Variable sha256_hexdigest : list Byte.byte → string.

Implicit Types (self : Detector Sig) (plugin : Plugin.t Sig) (entry : Entry).
Implicit Types (grouped_matchers : list (Kind.t * list Sig)).

#[local] Hint Resolve get_hints_emit : run.

(** The two [remove_group] calls of the router, as one filter of the
    plugin's table. *)
Lemma get_matchers_for_entry_filter source plugin entry :
  _get_matchers_for_entry source plugin entry =
  if bool_decide (detectem_type entry = MAIN_ENTRY)
  then filter (λ item, item.1 = Kind.header ∨ item.1 = Kind.xpath)
         (Plugin.get_grouped_matchers plugin source)
  else filter (λ item, item.1 = Kind.url ∨ item.1 = Kind.body)
         (Plugin.get_grouped_matchers plugin source).
Proof.
  unfold _get_matchers_for_entry, _get_entry_type.
  case_bool_decide; unfold remove_group at 2; rewrite remove_group_filter;
    apply filter_ext_kind; intros [[] ?]; simpl; naive_solver.
Qed.

(** C3: for every plugin, signature source and entry, the table the
    router returns for a MAIN entry is the plugin's table without its
    [body] and [url] kinds (the [header] and [xpath] kinds survive, in
    order); for a RESOURCE or INLINE_SCRIPT entry it is the plugin's
    table without its [header] and [xpath] kinds (the [url] and [body]
    kinds survive). *)
Theorem get_matchers_for_entry_kinds source plugin entry :
  (detectem_type entry = MAIN_ENTRY →
   Forall (λ item, item.1 ≠ Kind.body ∧ item.1 ≠ Kind.url)
          (_get_matchers_for_entry source plugin entry) ∧
   _get_matchers_for_entry source plugin entry =
     filter (λ item, item.1 = Kind.header ∨ item.1 = Kind.xpath)
            (Plugin.get_grouped_matchers plugin source)) ∧
  (detectem_type entry = RESOURCE_ENTRY ∨ detectem_type entry = INLINE_SCRIPT_ENTRY →
   Forall (λ item, item.1 ≠ Kind.header ∧ item.1 ≠ Kind.xpath)
          (_get_matchers_for_entry source plugin entry) ∧
   _get_matchers_for_entry source plugin entry =
     filter (λ item, item.1 = Kind.url ∨ item.1 = Kind.body)
            (Plugin.get_grouped_matchers plugin source)).
Proof.
  rewrite get_matchers_for_entry_filter. split.
  - intros ->. rewrite bool_decide_eq_true_2 by done. split; [|done].
    apply Forall_forall. intros item [? _]%list_elem_of_filter.
    intuition congruence.
  - intros Htype. rewrite bool_decide_eq_false_2 by (destruct Htype; congruence).
    split; [|done].
    apply Forall_forall. intros item [? _]%list_elem_of_filter.
    intuition congruence.
Qed.

Lemma any_true (xs : list bool) : any xs = true ↔ true ∈ xs.
Proof.
  induction xs as [|x xs IH]; simpl.
  - split; [done|]. by intros ?%elem_of_nil.
  - rewrite elem_of_cons, orb_true_iff, IH. naive_solver.
Qed.

(** The list [presences] of [check_indicator_presence]: one
    [check_presence] result per kind of the routed table. *)
Lemma check_indicator_presence_unfold plugin entry :
  check_indicator_presence MATCHERS plugin entry =
  any ((λ item, Matcher.check_presence (MATCHERS item.1) entry item.2)
         <$> _get_matchers_for_entry "indicators" plugin entry).
Proof.
  unfold check_indicator_presence.
  rewrite (foldl_append
             (λ item, [Matcher.check_presence (MATCHERS item.1) entry item.2])).
  - reflexivity.
  - by intros acc [key matchers].
Qed.

(** C4: for every plugin and entry, [check_indicator_presence] returns
    true if and only if the [check_presence] of at least one eligible
    signature kind (a kind of the routed [indicators] table) returns
    true; it returns false when every eligible kind returns false, and
    when no kind is eligible. *)
Theorem check_indicator_presence_or plugin entry :
  (check_indicator_presence MATCHERS plugin entry = true ↔
   ∃ key matchers,
     (key, matchers) ∈ _get_matchers_for_entry "indicators" plugin entry ∧
     Matcher.check_presence (MATCHERS key) entry matchers = true) ∧
  (Forall (λ item, Matcher.check_presence (MATCHERS item.1) entry item.2 = false)
          (_get_matchers_for_entry "indicators" plugin entry) →
   check_indicator_presence MATCHERS plugin entry = false) ∧
  (_get_matchers_for_entry "indicators" plugin entry = [] →
   check_indicator_presence MATCHERS plugin entry = false).
Proof.
  rewrite check_indicator_presence_unfold.
  assert (any ((λ item, Matcher.check_presence (MATCHERS item.1) entry item.2)
                 <$> _get_matchers_for_entry "indicators" plugin entry) = true ↔
          ∃ key matchers,
            (key, matchers) ∈ _get_matchers_for_entry "indicators" plugin entry ∧
            Matcher.check_presence (MATCHERS key) entry matchers = true) as Hiff.
  { rewrite any_true, list_elem_of_fmap. split.
    - intros ([key matchers] & ? & ?). by exists key, matchers.
    - intros (key & matchers & ? & ?). by exists (key, matchers). }
  split_and!; [done| |].
  - intros Hall. apply not_true_is_false. rewrite Hiff.
    intros (key & matchers & Hin & Htrue).
    rewrite Forall_forall in Hall. apply Hall in Hin. simpl in Hin. congruence.
  - by intros ->.
Qed.

(** ** Plugin names: proofs *)

(** The loop of [get_plugin_name] leaves at the first kind whose module
    name is true and returns that name, whatever the kinds after it. *)
Lemma module_name_loop_first entry before key matchers after module_name module_name0 :
  Forall (λ item, if_truthy (Matcher.get_module_name (MATCHERS item.1) entry item.2) = None)
         before →
  if_truthy (Matcher.get_module_name (MATCHERS key) entry matchers) = Some module_name →
  if_truthy (module_name_loop MATCHERS entry (before ++ (key, matchers) :: after)
               module_name0) = Some module_name.
Proof.
  intros Hbefore Hhit. revert module_name0.
  induction Hbefore as [|[key' matchers'] before Hitem _ IH]; intros module_name0; simpl.
  - by rewrite Hhit.
  - simpl in Hitem. rewrite Hitem. apply IH.
Qed.

(** The loop ends with a false [module_name] when no kind has a true
    one. *)
Lemma module_name_loop_none entry grouped_matchers module_name0 :
  Forall (λ item, if_truthy (Matcher.get_module_name (MATCHERS item.1) entry item.2) = None)
         grouped_matchers →
  if_truthy module_name0 = None →
  if_truthy (module_name_loop MATCHERS entry grouped_matchers module_name0) = None.
Proof.
  intros Hall. revert module_name0.
  induction Hall as [|[key matchers] l Hitem _ IH]; intros module_name0 H0; simpl.
  - done.
  - simpl in Hitem. rewrite Hitem. by apply IH.
Qed.

(** C7: a plugin that is not modular gets its plain name.  For a
    modular plugin the name is [plugin.name], ["-"] and the module name,
    where the module name is the first non-empty [get_module_name]
    result across the kinds of the routed [modular_matchers] table (the
    kinds after it have no influence); when no eligible kind yields a
    non-empty module name, the name is the plain plugin name.  A
    detected version is emitted under that name. *)
Theorem get_plugin_name_modular self plugin entry :
  (Plugin.is_modular plugin = false →
   get_plugin_name MATCHERS plugin entry = Plugin.name plugin) ∧
  (∀ before key matchers after module_name,
     Plugin.is_modular plugin = true →
     _get_matchers_for_entry "modular_matchers" plugin entry =
       before ++ (key, matchers) :: after →
     Forall (λ item,
               if_truthy (Matcher.get_module_name (MATCHERS item.1) entry item.2) = None)
            before →
     Matcher.get_module_name (MATCHERS key) entry matchers = Some module_name →
     module_name ≠ "" →
     get_plugin_name MATCHERS plugin entry =
       Plugin.name plugin +:+ "-" +:+ module_name) ∧
  (Plugin.is_modular plugin = true →
   Forall (λ item,
             if_truthy (Matcher.get_module_name (MATCHERS item.1) entry item.2) = None)
          (_get_matchers_for_entry "modular_matchers" plugin entry) →
   get_plugin_name MATCHERS plugin entry = Plugin.name plugin) ∧
  (∀ version hints w,
     if_truthy (get_plugin_version MATCHERS get_most_complete_version plugin entry) =
       Some version →
     ∃ queued w',
       process_har_version_plugin MATCHERS get_most_complete_version
         self entry hints plugin w = (Return queued, w') ∧
       _results w' =
         _results w ++
         [Result.mk (get_plugin_name MATCHERS plugin entry) (Some version)
            (Plugin.homepage plugin) (get_url entry) VERSION_TYPE]).
Proof.
  unfold get_plugin_name. split_and!.
  - by intros ->.
  - intros before key matchers after module_name -> -> Hbefore Hname Hne. simpl.
    by rewrite (module_name_loop_first entry before key matchers after module_name None)
      by (done || by apply if_truthy_Some).
  - intros -> Hall. simpl. by rewrite module_name_loop_none.
  - intros version hints w Hversion. unfold process_har_version_plugin.
    rewrite Hversion.
    do 2 run. eexists _, _. split; [done|]. simpl. by rewrite app_nil_r.
Qed.

(** ** The passes of [process_har]: proofs *)

Lemma process_har_version_plugin_emit self entry hints plugin w :
  process_har_version_plugin MATCHERS get_most_complete_version
    self entry hints plugin w =
    (Return (hints ++
             if version_detected MATCHERS get_most_complete_version plugin entry
             then Plugin.hints plugin ≫= hint_results self else []),
     emit (version_results MATCHERS get_most_complete_version plugin entry)
          (if version_detected MATCHERS get_most_complete_version plugin entry
           then hint_log self plugin <$> Plugin.hints plugin else [])
          w).
Proof.
  unfold process_har_version_plugin, version_detected, version_results.
  destruct (if_truthy _) as [version|].
  - do 2 run. rewrite bool_decide_eq_true_2 by done. by rewrite emit_emit.
  - rewrite bool_decide_eq_false_2 by by intros [? [=]].
    by rewrite app_nil_r, emit_nil.
Qed.

Lemma process_har_indicator_plugin_run self entry hints plugin w :
  process_har_indicator_plugin MATCHERS sha256_hexdigest self entry hints plugin w =
    (match indicator_failure MATCHERS sha256_hexdigest plugin entry with
     | None =>
         Return (hints ++
                 if indicator_detected MATCHERS plugin entry
                 then Plugin.hints plugin ≫= hint_results self else [])
     | Some e => Raise e
     end,
     emit (indicator_results MATCHERS sha256_hexdigest plugin entry)
          (if indicator_detected MATCHERS plugin entry
           then hint_log self plugin <$> Plugin.hints plugin else [])
          w).
Proof.
  unfold process_har_indicator_plugin, indicator_detected, indicator_results,
    indicator_failure.
  destruct (check_indicator_presence MATCHERS plugin entry).
  - do 2 run.
    destruct (get_version_via_file_hashes sha256_hexdigest plugin entry) as [version|e].
    + erewrite bind_Return by apply call_Return.
      destruct (if_truthy version); run; rewrite !emit_emit; simpl; by rewrite app_nil_r.
    + erewrite bind_Raise by apply call_Raise. rewrite emit_emit; simpl. done.
  - by rewrite app_nil_r, emit_nil.
Qed.

Lemma process_har_generic_plugin_emit entry plugin results w :
  generic_results MATCHERS plugin entry = Some results →
  process_har_generic_plugin MATCHERS entry plugin w = (Return (), emit results [] w).
Proof.
  unfold process_har_generic_plugin, generic_results, getitem.
  destruct (check_indicator_presence MATCHERS plugin entry);
    [|intros [= <-]; by rewrite emit_nil].
  destruct (Plugin.get_information plugin entry !! "name") as [name|] eqn:Hname.
  - rewrite bool_decide_eq_true_2 by done.
    destruct (Plugin.get_information plugin entry !! "homepage") as [homepage|];
      [|done].
    intros [= <-]. apply add_result_emit.
  - rewrite bool_decide_eq_false_2 by by intros [? [=]].
    intros [= <-]. by rewrite emit_nil.
Qed.

Lemma process_har_generic_plugin_raise entry plugin w :
  generic_results MATCHERS plugin entry = None →
  process_har_generic_plugin MATCHERS entry plugin w = (Raise (KeyError "homepage"), w).
Proof.
  unfold process_har_generic_plugin, generic_results, getitem.
  destruct (check_indicator_presence MATCHERS plugin entry); [|done].
  destruct (Plugin.get_information plugin entry !! "name") as [name|] eqn:Hname;
    [|done].
  rewrite bool_decide_eq_true_2 by done.
  by destruct (Plugin.get_information plugin entry !! "homepage").
Qed.

Lemma process_har_generic_plugin_run entry plugin w :
  process_har_generic_plugin MATCHERS entry plugin w =
    (match generic_failure MATCHERS plugin entry with
     | None => Return ()
     | Some e => Raise e
     end,
     emit (default [] (generic_results MATCHERS plugin entry)) [] w).
Proof.
  unfold generic_failure.
  destruct (generic_results MATCHERS plugin entry) as [results|] eqn:Hresults; simpl.
  - by apply process_har_generic_plugin_emit.
  - rewrite emit_nil. by apply process_har_generic_plugin_raise.
Qed.

(** *** File hashes *)

Lemma find_version_hash_head h hash_dict :
  find_version_hash h hash_dict =
  head (filter (λ version_hash, version_hash.2 = h) hash_dict).*1.
Proof.
  induction hash_dict as [|[version version_hash] hash_dict IH]; [done|].
  simpl. rewrite filter_cons; simpl.
  case_bool_decide; case_decide; simplify_eq/=; done.
Qed.

Lemma head_app_r {A} (l1 l2 : list A) : head (l1 ++ l2) = from_option Some (head l2) (head l1).
Proof. by destruct l1. Qed.

Lemma file_hashes_loop_head url body file_hashes :
  file_hashes_loop sha256_hexdigest url body file_hashes =
  head (matching_versions url (sha256_hexdigest body) file_hashes).
Proof.
  induction file_hashes as [|[file hash_dict] file_hashes IH]; [done|].
  unfold matching_versions in *. simpl.
  destruct (str_in file url); simpl; [|done].
  rewrite head_app_r, find_version_hash_head, IH.
  by destruct (head _).
Qed.

(** The three ways the file-hash lookup ends. *)
Lemma get_version_via_file_hashes_unfold plugin entry :
  get_version_via_file_hashes sha256_hexdigest plugin entry =
  if bool_decide (Plugin.file_hashes plugin = []) then Return None
  else
    match encode_utf8 (get_response_body entry) with
    | Return body =>
        Return (head (matching_versions (get_url entry) (sha256_hexdigest body)
                        (Plugin.file_hashes plugin)))
    | Raise e => Raise e
    end.
Proof.
  unfold get_version_via_file_hashes. case_bool_decide; [done|].
  destruct (encode_utf8 _) as [body|e]; simpl; [|done].
  by rewrite file_hashes_loop_head.
Qed.

(** C5 (as amended): for a plugin without file hashes the lookup
    returns no version.  When the body text is encoded to the bytes
    [body], the lookup returns the first version, in the iteration
    order of [file_hashes] and of its hash tables, among the pairs
    whose URL substring occurs in the entry's URL and whose recorded
    hash is the SHA-256 hex digest of [body].  For an indicator plugin
    present on an entry: when the lookup returns a non-empty version,
    the pass adds an INDICATOR Result and a VERSION Result for that
    name on that entry; when it returns no version, or the empty string
    as version, the pass adds the INDICATOR Result twice and no VERSION
    Result; when it raises, the pass raises after the first INDICATOR
    Result. *)
Theorem indicator_file_hash_version self plugin entry hints w :
  (Plugin.file_hashes plugin = [] →
   get_version_via_file_hashes sha256_hexdigest plugin entry = Return None) ∧
  (∀ body,
     encode_utf8 (get_response_body entry) = Return body →
     get_version_via_file_hashes sha256_hexdigest plugin entry =
       Return (head (matching_versions (get_url entry) (sha256_hexdigest body)
                       (Plugin.file_hashes plugin)))) ∧
  (check_indicator_presence MATCHERS plugin entry = true →
   (∀ version,
      get_version_via_file_hashes sha256_hexdigest plugin entry = Return (Some version) →
      version ≠ "" →
      process_har_indicator_plugin MATCHERS sha256_hexdigest self entry hints plugin w =
        (Return (hints ++ (Plugin.hints plugin ≫= hint_results self)),
         emit [Result.mk (get_plugin_name MATCHERS plugin entry) None
                 (Plugin.homepage plugin) (get_url entry) INDICATOR_TYPE;
               Result.mk (get_plugin_name MATCHERS plugin entry) (Some version)
                 (Plugin.homepage plugin) (get_url entry) VERSION_TYPE]
              (hint_log self plugin <$> Plugin.hints plugin) w)) ∧
   (get_version_via_file_hashes sha256_hexdigest plugin entry = Return None ∨
    get_version_via_file_hashes sha256_hexdigest plugin entry = Return (Some "") →
    process_har_indicator_plugin MATCHERS sha256_hexdigest self entry hints plugin w =
      (Return (hints ++ (Plugin.hints plugin ≫= hint_results self)),
       emit [Result.mk (get_plugin_name MATCHERS plugin entry) None
               (Plugin.homepage plugin) (get_url entry) INDICATOR_TYPE;
             Result.mk (get_plugin_name MATCHERS plugin entry) None
               (Plugin.homepage plugin) (get_url entry) INDICATOR_TYPE]
            (hint_log self plugin <$> Plugin.hints plugin) w)) ∧
   (∀ e,
      get_version_via_file_hashes sha256_hexdigest plugin entry = Raise e →
      process_har_indicator_plugin MATCHERS sha256_hexdigest self entry hints plugin w =
        (Raise e,
         emit [Result.mk (get_plugin_name MATCHERS plugin entry) None
                 (Plugin.homepage plugin) (get_url entry) INDICATOR_TYPE]
              (hint_log self plugin <$> Plugin.hints plugin) w))).
Proof.
  split_and!.
  - intros Hempty. rewrite get_version_via_file_hashes_unfold.
    by rewrite bool_decide_eq_true_2.
  - intros body Hbody. rewrite get_version_via_file_hashes_unfold, Hbody.
    case_bool_decide as Hempty; [by rewrite Hempty|done].
  - intros Hpresent.
    rewrite process_har_indicator_plugin_run.
    unfold indicator_detected, indicator_results, indicator_failure.
    rewrite Hpresent. split_and!.
    + intros version -> Hne. by rewrite (proj2 (if_truthy_Some _ version)).
    + intros [-> | ->]; by rewrite (proj2 (if_truthy_None _)); eauto.
    + by intros e ->.
Qed.

(** X16: the generic pass for one plugin on one entry.  For a generic
    plugin whose indicator presence holds on the entry,
    [get_information(entry)] is read and, when the returned record has
    a [name] and a [homepage] field, one GENERIC Result is added whose
    name and homepage are those of the record and whose from_url is the
    entry's URL; when the record has no [name] field nothing is added;
    when it has a [name] and no [homepage] field the pass raises
    [KeyError] and adds nothing. *)
Theorem generic_plugin_information plugin entry w :
  check_indicator_presence MATCHERS plugin entry = true →
  (∀ name homepage,
     Plugin.get_information plugin entry !! "name" = Some name →
     Plugin.get_information plugin entry !! "homepage" = Some homepage →
     process_har_generic_plugin MATCHERS entry plugin w =
       (Return (),
        emit [Result.mk name None homepage (get_url entry) GENERIC_TYPE] [] w)) ∧
  (Plugin.get_information plugin entry !! "name" = None →
   process_har_generic_plugin MATCHERS entry plugin w = (Return (), w)) ∧
  (is_Some (Plugin.get_information plugin entry !! "name") →
   Plugin.get_information plugin entry !! "homepage" = None →
   process_har_generic_plugin MATCHERS entry plugin w =
     (Raise (KeyError "homepage"), w)).
Proof.
  intros Hpresent. split_and!.
  - intros name homepage Hname Hhomepage. apply process_har_generic_plugin_emit.
    unfold generic_results. by rewrite Hpresent, Hname, Hhomepage.
  - intros Hname. rewrite <-(emit_nil w) at 2. apply process_har_generic_plugin_emit.
    unfold generic_results. by rewrite Hpresent, Hname.
  - intros [name Hname] Hhomepage. apply process_har_generic_plugin_raise.
    unfold generic_results. by rewrite Hpresent, Hname, Hhomepage.
Qed.

(** ** [process_har]: proofs *)

Lemma encode_utf8_Raise s e :
  encode_utf8 s = Raise e →
  e = UnicodeEncodeError "surrogates not allowed".
Proof. unfold encode_utf8. destruct (has_surrogate s); by intros [=]. Qed.

(** *** Where the passes raise *)

Lemma indicator_failure_None plugin entry :
  indicator_failure MATCHERS sha256_hexdigest plugin entry = None ↔
  (check_indicator_presence MATCHERS plugin entry = true →
   Plugin.file_hashes plugin ≠ [] → encodable entry).
Proof.
  unfold indicator_failure, encodable. rewrite get_version_via_file_hashes_unfold.
  destruct (check_indicator_presence MATCHERS plugin entry); [|by split].
  case_bool_decide as Hempty; [by split|].
  destruct (encode_utf8 (get_response_body entry)) as [body|e].
  - split; [by eauto|done].
  - split; [done|]. intros Hencodable. by destruct Hencodable as [? [=]].
Qed.

Lemma indicator_failure_Some plugin entry e :
  indicator_failure MATCHERS sha256_hexdigest plugin entry = Some e ↔
  check_indicator_presence MATCHERS plugin entry = true ∧
  Plugin.file_hashes plugin ≠ [] ∧
  encode_utf8 (get_response_body entry) = Raise e.
Proof.
  unfold indicator_failure. rewrite get_version_via_file_hashes_unfold.
  destruct (check_indicator_presence MATCHERS plugin entry); [|naive_solver].
  case_bool_decide as Hempty; [naive_solver|].
  destruct (encode_utf8 (get_response_body entry)) as [body|e']; naive_solver.
Qed.

Lemma generic_failure_None plugin entry :
  generic_failure MATCHERS plugin entry = None ↔
  is_Some (generic_results MATCHERS plugin entry).
Proof.
  unfold generic_failure.
  destruct (generic_results MATCHERS plugin entry); [by split; eauto|].
  split; [done|]. by intros [? [=]].
Qed.

Lemma generic_failure_Some plugin entry e :
  generic_failure MATCHERS plugin entry = Some e ↔
  generic_results MATCHERS plugin entry = None ∧ e = KeyError "homepage".
Proof.
  unfold generic_failure. destruct (generic_results MATCHERS plugin entry); naive_solver.
Qed.

Lemma entry_failure_None self entry :
  entry_failure MATCHERS sha256_hexdigest self entry = None ↔
  passes_return MATCHERS self entry.
Proof.
  unfold entry_failure, passes_return, indicator_pass_returns, generic_pass_returns.
  destruct (first_failure (λ plugin, indicator_failure _ _ plugin entry) _) as [e|]
    eqn:Hindicator.
  - split; [done|]. intros [Hreturns _].
    assert (first_failure
              (λ plugin, indicator_failure MATCHERS sha256_hexdigest plugin entry)
              (PluginCollection.with_indicator_matchers (_plugins self)) = None)
      as Hnone; [|by rewrite Hnone in Hindicator].
    apply first_failure_None. eapply Forall_impl; [exact Hreturns|].
    intros plugin. apply indicator_failure_None.
  - apply first_failure_None in Hindicator. rewrite first_failure_None. split.
    + intros Hgeneric. split.
      * eapply Forall_impl; [exact Hindicator|].
        intros plugin. apply indicator_failure_None.
      * eapply Forall_impl; [exact Hgeneric|].
        intros plugin. apply generic_failure_None.
    + intros [_ Hgeneric]. eapply Forall_impl; [exact Hgeneric|].
      intros plugin. apply generic_failure_None.
Qed.

(** Whether a pass raises on the entries of a list can be computed. *)
Lemma passes_return_all self (entries : list Entry) :
  first_failure (entry_failure MATCHERS sha256_hexdigest self) entries = None ↔
  Forall (passes_return MATCHERS self) entries.
Proof.
  rewrite first_failure_None. split; intros Hall;
    (eapply Forall_impl; [exact Hall|]); intros entry; apply entry_failure_None.
Qed.

(** On an entry on which no pass raises, the passes add and log what
    they add and log in full. *)
Lemma entry_added_returns self entry :
  entry_failure MATCHERS sha256_hexdigest self entry = None →
  entry_added MATCHERS get_most_complete_version sha256_hexdigest self entry =
    entry_results MATCHERS get_most_complete_version sha256_hexdigest self entry ∧
  entry_logged MATCHERS get_most_complete_version sha256_hexdigest self entry =
    entry_log MATCHERS get_most_complete_version self entry.
Proof.
  unfold entry_failure, entry_added, entry_logged, entry_results, entry_log.
  destruct (first_failure (λ plugin, indicator_failure _ _ plugin entry) _) as [e|]
    eqn:Hindicator; [done|].
  intros Hgeneric. by rewrite !until_failure_all.
Qed.

(** *** The passes on an entry, and the entries *)

Lemma process_har_entry_run self hints entry w :
  process_har_entry MATCHERS get_most_complete_version sha256_hexdigest
    self hints entry w =
    (match entry_failure MATCHERS sha256_hexdigest self entry with
     | None => Return (hints ++ entry_hints MATCHERS get_most_complete_version self entry)
     | Some e => Raise e
     end,
     emit (entry_added MATCHERS get_most_complete_version sha256_hexdigest self entry)
          (entry_logged MATCHERS get_most_complete_version sha256_hexdigest self entry)
          w).
Proof.
  unfold process_har_entry, entry_failure, entry_added, entry_logged, entry_hints.
  erewrite bind_Return; last first.
  { apply (for_each_emits _ _
             (λ plugin, if version_detected MATCHERS get_most_complete_version plugin entry
                        then Plugin.hints plugin ≫= hint_results self else [])).
    intros acc plugin w' _. apply process_har_version_plugin_emit. }
  pose proof (for_each_run
                (PluginCollection.with_indicator_matchers (_plugins self))
                (process_har_indicator_plugin MATCHERS sha256_hexdigest self entry)
                (λ plugin, if indicator_detected MATCHERS plugin entry
                           then Plugin.hints plugin ≫= hint_results self else [])
                (λ plugin, indicator_failure MATCHERS sha256_hexdigest plugin entry)
                (λ plugin, indicator_results MATCHERS sha256_hexdigest plugin entry)
                (λ plugin, if indicator_detected MATCHERS plugin entry
                           then hint_log self plugin <$> Plugin.hints plugin else []))
    as Hindicator.
  destruct (first_failure (λ plugin, indicator_failure _ _ plugin entry) _) as [e|].
  - erewrite bind_Raise; last first.
    { apply Hindicator. intros acc plugin w' _.
      apply process_har_indicator_plugin_run. }
    by rewrite emit_emit, app_nil_r.
  - erewrite bind_Return; last first.
    { apply Hindicator. intros acc plugin w' _.
      apply process_har_indicator_plugin_run. }
    pose proof (for_each_unit_run
                  (PluginCollection.with_generic_matchers (_plugins self))
                  (λ _ plugin, process_har_generic_plugin MATCHERS entry plugin)
                  (λ plugin, generic_failure MATCHERS plugin entry)
                  (λ plugin, default [] (generic_results MATCHERS plugin entry))
                  (λ _, [])) as Hgeneric.
    destruct (first_failure (λ plugin, generic_failure _ plugin entry) _) as [e|].
    + erewrite bind_Raise; last first.
      { apply Hgeneric. intros plugin w' _. apply process_har_generic_plugin_run. }
      by rewrite !emit_emit, <-?app_assoc, bind_const_nil, ?app_nil_r.
    + erewrite bind_Return; last first.
      { apply Hgeneric. intros plugin w' _. apply process_har_generic_plugin_run. }
      unfold mret, M_ret.
      by rewrite !emit_emit, <-?app_assoc, bind_const_nil, ?app_nil_r.
Qed.

(** [process_har] in closed form: it runs the entries up to the first
    one on which a pass raises, and flushes the hints when there is
    none. *)
Lemma process_har_run self w :
  process_har MATCHERS get_most_complete_version sha256_hexdigest self w =
    (match first_failure (entry_failure MATCHERS sha256_hexdigest self) (har self) with
     | None => Return ()
     | Some e => Raise e
     end,
     emit ((until_failure (entry_failure MATCHERS sha256_hexdigest self) (har self) ≫=
              entry_added MATCHERS get_most_complete_version sha256_hexdigest self) ++
           match first_failure (entry_failure MATCHERS sha256_hexdigest self)
                   (har self) with
           | None => har self ≫= entry_hints MATCHERS get_most_complete_version self
           | Some _ => []
           end)
          (until_failure (entry_failure MATCHERS sha256_hexdigest self) (har self) ≫=
             entry_logged MATCHERS get_most_complete_version sha256_hexdigest self) w).
Proof.
  unfold process_har.
  pose proof (for_each_run (har self)
                (process_har_entry MATCHERS get_most_complete_version
                   sha256_hexdigest self)
                (entry_hints MATCHERS get_most_complete_version self)
                (entry_failure MATCHERS sha256_hexdigest self)
                (entry_added MATCHERS get_most_complete_version sha256_hexdigest self)
                (entry_logged MATCHERS get_most_complete_version sha256_hexdigest self)
                [] w) as Hentries.
  destruct (first_failure (entry_failure MATCHERS sha256_hexdigest self) (har self))
    as [e|].
  - erewrite bind_Raise; last first.
    { apply Hentries. intros acc entry w' _. apply process_har_entry_run. }
    by rewrite app_nil_r.
  - erewrite bind_Return; last first.
    { apply Hentries. intros acc entry w' _. apply process_har_entry_run. }
    rewrite add_results_emit, emit_emit; simpl. by rewrite app_nil_r.
Qed.

(** The entries on which no pass raises contribute what the passes add
    in full. *)
Lemma entries_added_return self (entries : list Entry) :
  Forall (passes_return MATCHERS self) entries →
  entries ≫= entry_added MATCHERS get_most_complete_version sha256_hexdigest self =
    entries ≫= entry_results MATCHERS get_most_complete_version sha256_hexdigest self ∧
  entries ≫= entry_logged MATCHERS get_most_complete_version sha256_hexdigest self =
    entries ≫= entry_log MATCHERS get_most_complete_version self.
Proof.
  induction 1 as [|entry entries Hentry _ [IH1 IH2]]; [done|].
  apply entry_failure_None, (entry_added_returns self) in Hentry as [Hadded Hlogged].
  change ((entry :: entries) ≫= ?f) with (f entry ++ (entries ≫= f)).
  by rewrite Hadded, Hlogged, IH1, IH2.
Qed.

(** [process_har] when no pass raises. *)
Lemma process_har_emit_all self w :
  Forall (passes_return MATCHERS self) (har self) →
  process_har MATCHERS get_most_complete_version sha256_hexdigest self w =
    (Return (),
     emit ((har self ≫=
              entry_results MATCHERS get_most_complete_version sha256_hexdigest self) ++
           (har self ≫= entry_hints MATCHERS get_most_complete_version self))
          (har self ≫= entry_log MATCHERS get_most_complete_version self) w).
Proof.
  intros Hreturn. rewrite process_har_run.
  assert (first_failure (entry_failure MATCHERS sha256_hexdigest self) (har self) = None)
    as Hnone.
  { apply first_failure_None. eapply Forall_impl; [exact Hreturn|].
    intros entry. apply entry_failure_None. }
  rewrite Hnone, (until_failure_all _ _ Hnone).
  by destruct (entries_added_return self (har self) Hreturn) as [-> ->].
Qed.

(** X1: [process_har], when no pass raises on an entry, returns, and
    it has added, entry by entry in the order of [self.har], what the
    version, the indicator and the generic pass add for the plugins in
    registry order, and after the last entry all the hints queued by
    the version and the indicator pass, in discovery order. *)
Theorem process_har_emit self w :
  Forall (passes_return MATCHERS self) (har self) →
  process_har MATCHERS get_most_complete_version sha256_hexdigest self w =
    (Return (),
     emit ((har self ≫=
              entry_results MATCHERS get_most_complete_version sha256_hexdigest self) ++
           (har self ≫= entry_hints MATCHERS get_most_complete_version self))
          (har self ≫= entry_log MATCHERS get_most_complete_version self) w).
Proof.
  intros Hreturn. rewrite process_har_run.
  assert (first_failure (entry_failure MATCHERS sha256_hexdigest self) (har self) = None)
    as Hnone.
  { apply first_failure_None. eapply Forall_impl; [exact Hreturn|].
    intros entry. apply entry_failure_None. }
  rewrite Hnone, (until_failure_all _ _ Hnone).
  by destruct (entries_added_return self (har self) Hreturn) as [-> ->].
Qed.

(** ** The router and the matcher loops: further proofs *)

Lemma get_matchers_for_entry_eligible source plugin entry :
  _get_matchers_for_entry source plugin entry =
  filter (λ item, eligible entry item.1) (Plugin.get_grouped_matchers plugin source).
Proof.
  rewrite get_matchers_for_entry_filter.
  destruct (decide (detectem_type entry = MAIN_ENTRY)) as [Hmain|Hmain].
  - rewrite bool_decide_eq_true_2 by done. apply filter_ext_kind.
    intros [key matchers]. unfold eligible. by rewrite bool_decide_eq_true_2.
  - rewrite bool_decide_eq_false_2 by done. apply filter_ext_kind.
    intros [key matchers]. unfold eligible. by rewrite bool_decide_eq_false_2.
Qed.

Lemma filter_length_complement {A} (P Q : A → Prop)
    `{∀ x, Decision (P x)} `{∀ x, Decision (Q x)} (l : list A) :
  (∀ x, x ∈ l → (P x ↔ ¬ Q x)) →
  length (filter P l) + length (filter Q l) = length l.
Proof.
  induction l as [|x l IH]; intros HPQ; [done|].
  assert (length (filter P l) + length (filter Q l) = length l) as IH'.
  { apply IH. intros y Hy. apply HPQ. by right. }
  destruct (decide (Q x)) as [HQ|HQ].
  - rewrite (filter_cons_True Q), (filter_cons_False P); simpl; [lia|..|done].
    intros HP. by apply (HPQ x) in HP; [|left].
  - rewrite (filter_cons_False Q), (filter_cons_True P); simpl; [lia|..|done].
    apply HPQ; [left|done].
Qed.

(** X5: the router splits a plugin's table between the MAIN entry and
    the other entries: every item of the table is routed to exactly one
    of the two, so a signature kind never applies to both, and none is
    lost. *)
Theorem get_matchers_for_entry_partition source plugin (main_entry other_entry : Entry) :
  detectem_type main_entry = MAIN_ENTRY →
  detectem_type other_entry ≠ MAIN_ENTRY →
  (∀ item,
     item ∈ Plugin.get_grouped_matchers plugin source ↔
     item ∈ _get_matchers_for_entry source plugin main_entry ∨
     item ∈ _get_matchers_for_entry source plugin other_entry) ∧
  (∀ item,
     ¬ (item ∈ _get_matchers_for_entry source plugin main_entry ∧
        item ∈ _get_matchers_for_entry source plugin other_entry)) ∧
  length (_get_matchers_for_entry source plugin main_entry) +
  length (_get_matchers_for_entry source plugin other_entry) =
    length (Plugin.get_grouped_matchers plugin source).
Proof.
  intros Hmain Hother. rewrite !get_matchers_for_entry_filter.
  rewrite (bool_decide_eq_true_2 _ Hmain), (bool_decide_eq_false_2 _ Hother).
  split_and!.
  - intros [[] matchers]; rewrite !list_elem_of_filter; simpl; naive_solver.
  - intros [[] matchers]; rewrite !list_elem_of_filter; simpl;
      intros [[[?|?] _] [[?|?] _]]; congruence.
  - apply filter_length_complement. intros [[] matchers] _; simpl;
      split; intros; intuition congruence.
Qed.

Lemma foldl_ext_in {A B} (f g : B → A → B) (b : B) (l : list A) :
  (∀ b x, x ∈ l → f b x = g b x) → foldl f b l = foldl g b l.
Proof.
  revert b. induction l as [|x l IH]; intros b Hfg; [done|]. simpl.
  rewrite Hfg by left. apply IH. intros b' y Hy. apply Hfg. by right.
Qed.

Lemma module_name_loop_ext (MATCHERS' : Kind.t → Matcher.t Sig) entry
    grouped_matchers module_name :
  (∀ item, item ∈ grouped_matchers → MATCHERS item.1 = MATCHERS' item.1) →
  module_name_loop MATCHERS entry grouped_matchers module_name =
  module_name_loop MATCHERS' entry grouped_matchers module_name.
Proof.
  revert module_name.
  induction grouped_matchers as [|[key matchers] l IH]; intros module_name Hagree;
    [done|]. simpl.
  pose proof (Hagree (key, matchers) ltac:(left)) as Hkey. simpl in Hkey.
  rewrite <-Hkey.
  destruct (if_truthy _); [done|]. apply IH. intros item Hitem. apply Hagree. by right.
Qed.

(** X6: what is looked up for an entry depends only on the matchers of
    the kinds eligible for it.  Two matcher tables that agree on the
    header and the xpath kind give, on a MAIN entry, the same version,
    the same presence and the same name; the url and the body matcher
    are not asked.  The same holds on the other entries with the roles
    of the kinds exchanged. *)
Theorem eligible_matchers_only (MATCHERS' : Kind.t → Matcher.t Sig) plugin entry :
  (∀ key, eligible entry key → MATCHERS key = MATCHERS' key) →
  get_plugin_version MATCHERS get_most_complete_version plugin entry =
    get_plugin_version MATCHERS' get_most_complete_version plugin entry ∧
  check_indicator_presence MATCHERS plugin entry =
    check_indicator_presence MATCHERS' plugin entry ∧
  get_plugin_name MATCHERS plugin entry = get_plugin_name MATCHERS' plugin entry.
Proof.
  intros Hagree.
  assert (∀ source item,
            item ∈ _get_matchers_for_entry source plugin entry →
            MATCHERS item.1 = MATCHERS' item.1) as Hrouted.
  { intros source item. rewrite get_matchers_for_entry_eligible.
    intros [? _]%list_elem_of_filter. by apply Hagree. }
  split_and!.
  - unfold get_plugin_version. f_equal. apply foldl_ext_in.
    intros versions [key matchers] Hitem.
    apply Hrouted in Hitem. simpl in Hitem. by rewrite Hitem.
  - unfold check_indicator_presence. f_equal. apply foldl_ext_in.
    intros presences [key matchers] Hitem.
    apply Hrouted in Hitem. simpl in Hitem. by rewrite Hitem.
  - unfold get_plugin_name. destruct (Plugin.is_modular plugin); [|done]. simpl.
    by rewrite (module_name_loop_ext MATCHERS') by apply Hrouted.
Qed.

(** The loop of [get_plugin_name] ends with a true module name only if
    a kind of the table returned it. *)
Lemma module_name_loop_Some entry grouped_matchers module_name0 module_name :
  if_truthy (module_name_loop MATCHERS entry grouped_matchers module_name0) =
    Some module_name →
  (grouped_matchers = [] ∧ if_truthy module_name0 = Some module_name) ∨
  ∃ key matchers,
    (key, matchers) ∈ grouped_matchers ∧
    if_truthy (Matcher.get_module_name (MATCHERS key) entry matchers) =
      Some module_name.
Proof.
  revert module_name0.
  induction grouped_matchers as [|[key matchers] l IH]; intros module_name0; simpl.
  { by left. }
  destruct (if_truthy (Matcher.get_module_name (MATCHERS key) entry matchers))
    as [found|] eqn:Hfound.
  - rewrite Hfound. intros [= <-]. right. exists key, matchers. split; [left|done].
  - intros Hloop. right. apply IH in Hloop as [[-> Hinit]|(key' & matchers' & ? & ?)].
    + rewrite Hfound in Hinit. done.
    + exists key', matchers'. split; [by right|done].
Qed.

(** X10: the name under which a plugin is reported always starts with
    the plugin's name.  It is the plugin's name itself, or, for a
    modular plugin only, the plugin's name, a dash and a non-empty
    module name that the matcher of a kind eligible for the entry
    returned for the plugin's [modular_matchers]. *)
Theorem get_plugin_name_shape plugin entry :
  get_plugin_name MATCHERS plugin entry = Plugin.name plugin ∨
  ∃ key matchers module_name,
    Plugin.is_modular plugin = true ∧
    (key, matchers) ∈ Plugin.get_grouped_matchers plugin "modular_matchers" ∧
    eligible entry key ∧
    Matcher.get_module_name (MATCHERS key) entry matchers = Some module_name ∧
    module_name ≠ "" ∧
    get_plugin_name MATCHERS plugin entry =
      Plugin.name plugin +:+ "-" +:+ module_name.
Proof.
  unfold get_plugin_name. destruct (Plugin.is_modular plugin); [|by left]. simpl.
  destruct (if_truthy (module_name_loop _ _ _ _)) as [module_name|] eqn:Hloop;
    [|by left].
  right. apply module_name_loop_Some in Hloop as [[_ [=]]|(key & matchers & Hin & Hname)].
  rewrite get_matchers_for_entry_eligible in Hin.
  apply list_elem_of_filter in Hin as [Heligible Hin].
  apply if_truthy_Some in Hname as [Hname Hne].
  by exists key, matchers, module_name.
Qed.

Lemma bind_option_list {A B} (f : A → option B) (l : list A) :
  l ≫= (λ x, option_list (f x)) = omap f l.
Proof.
  induction l as [|x l IH]; [done|].
  change ((x :: l) ≫= (λ x, option_list (f x)))
    with (option_list (f x) ++ (l ≫= (λ x, option_list (f x)))).
  change (omap f (x :: l))
    with (match f x with Some y => y :: omap f l | None => omap f l end).
  rewrite IH. by destruct (f x).
Qed.

(** The list [versions] of [get_plugin_version]: the true versions the
    eligible kinds return, in table order. *)
Lemma get_plugin_version_unfold plugin entry :
  get_plugin_version MATCHERS get_most_complete_version plugin entry =
  get_most_complete_version
    (omap (λ item, if_truthy (Matcher.get_version (MATCHERS item.1) entry item.2))
          (_get_matchers_for_entry "matchers" plugin entry)).
Proof.
  unfold get_plugin_version. f_equal.
  rewrite (foldl_append
             (λ item, option_list
                (if_truthy (Matcher.get_version (MATCHERS item.1) entry item.2)))).
  - simpl. apply bind_option_list.
  - intros acc [key matchers]; simpl. destruct (if_truthy _); [done|].
    by rewrite app_nil_r.
Qed.

(** X9: the version resolver is handed the non-empty versions that the
    eligible kinds of the [matchers] table return, in table order, and
    never an empty string.  With a resolver that gives no version for
    the empty list, a plugin none of whose eligible kinds yields a
    non-empty version is not detected: the version pass adds no Result
    and queues no hint for it. *)
Theorem get_plugin_version_resolver self plugin entry hints w :
  (∃ versions,
     get_plugin_version MATCHERS get_most_complete_version plugin entry =
       get_most_complete_version versions ∧
     Forall (λ version, version ≠ "") versions ∧
     versions =
       omap (λ item, if_truthy (Matcher.get_version (MATCHERS item.1) entry item.2))
            (filter (λ item, eligible entry item.1)
                    (Plugin.get_grouped_matchers plugin "matchers"))) ∧
  (get_most_complete_version [] = None →
   (∀ key matchers,
      (key, matchers) ∈ Plugin.get_grouped_matchers plugin "matchers" →
      eligible entry key →
      Matcher.get_version (MATCHERS key) entry matchers = None ∨
      Matcher.get_version (MATCHERS key) entry matchers = Some "") →
   process_har_version_plugin MATCHERS get_most_complete_version
     self entry hints plugin w = (Return hints, w)).
Proof.
  rewrite get_plugin_version_unfold, get_matchers_for_entry_eligible. split.
  - eexists; split_and!; [done| |done].
    apply Forall_forall. intros version.
    rewrite list_elem_of_omap. intros (item & _ & Hitem).
    by apply if_truthy_Some in Hitem as [_ ?].
  - intros Hempty Hnone. unfold process_har_version_plugin.
    rewrite get_plugin_version_unfold, get_matchers_for_entry_eligible.
    assert (omap (λ item, if_truthy (Matcher.get_version (MATCHERS item.1) entry item.2))
              (filter (λ item, eligible entry item.1)
                 (Plugin.get_grouped_matchers plugin "matchers")) = []) as ->.
    { induction (Plugin.get_grouped_matchers plugin "matchers")
        as [|[key matchers] l IH]; [done|].
      assert (omap (λ item, if_truthy
                      (Matcher.get_version (MATCHERS item.1) entry item.2))
                (filter (λ item, eligible entry item.1) l) = []) as IH'.
      { apply IH. intros key' matchers' Hin. apply Hnone. by right. }
      destruct (decide (eligible entry key)) as [Hkey|Hkey].
      - rewrite filter_cons_True by done. simpl.
        rewrite (proj2 (if_truthy_None _)) by (apply Hnone; [left|done]).
        exact IH'.
      - by rewrite filter_cons_False. }
    by rewrite Hempty.
Qed.

(** Which versions [matching_versions] lists. *)
Lemma elem_of_matching_versions version url h file_hashes :
  version ∈ matching_versions url h file_hashes ↔
  ∃ file hash_dict,
    (file, hash_dict) ∈ file_hashes ∧ str_in file url = true ∧
    (version, h) ∈ hash_dict.
Proof.
  unfold matching_versions. rewrite list_elem_of_bind. split.
  - intros ([file hash_dict] & Hversion & Hin). simpl in Hversion.
    destruct (str_in file url) eqn:Hfile; [|by apply elem_of_nil in Hversion].
    apply list_elem_of_fmap in Hversion as ([version' hash] & -> & Hfilter).
    apply list_elem_of_filter in Hfilter as [Hhash Hin']. simpl in *. subst.
    by exists file, hash_dict.
  - intros (file & hash_dict & Hin & Hfile & Hhash).
    exists (file, hash_dict). split; [|done]. simpl. rewrite Hfile.
    apply list_elem_of_fmap. exists (version, h). split; [done|].
    by apply list_elem_of_filter.
Qed.

(** X7: [get_version_via_file_hashes] returns no version for a plugin
    without file hashes, whatever the body.  For a plugin with file
    hashes it encodes the body before it looks at a file name, and
    raises what [encode] raises, also when no file name occurs in the
    URL.  When the body is encoded, it returns only a version that
    [file_hashes] records, under a file name occurring in the entry's
    URL, with the SHA-256 hex digest of the encoded body; and it
    returns no version exactly when no such record exists. *)
Theorem get_version_via_file_hashes_recorded plugin entry :
  (Plugin.file_hashes plugin = [] →
   get_version_via_file_hashes sha256_hexdigest plugin entry = Return None) ∧
  (∀ e, Plugin.file_hashes plugin ≠ [] →
        encode_utf8 (get_response_body entry) = Raise e →
        get_version_via_file_hashes sha256_hexdigest plugin entry = Raise e) ∧
  (∀ body,
     encode_utf8 (get_response_body entry) = Return body →
     (∀ version,
        get_version_via_file_hashes sha256_hexdigest plugin entry =
          Return (Some version) →
        ∃ file hash_dict before after,
          (file, hash_dict) ∈ Plugin.file_hashes plugin ∧
          get_url entry = before +:+ file +:+ after ∧
          (version, sha256_hexdigest body) ∈ hash_dict) ∧
     (get_version_via_file_hashes sha256_hexdigest plugin entry = Return None ↔
      ∀ file hash_dict version before after,
        (file, hash_dict) ∈ Plugin.file_hashes plugin →
        get_url entry = before +:+ file +:+ after →
        (version, sha256_hexdigest body) ∉ hash_dict)).
Proof.
  rewrite get_version_via_file_hashes_unfold. split_and!.
  - intros Hempty. by rewrite bool_decide_eq_true_2.
  - intros e Hfiles Hencode. by rewrite bool_decide_eq_false_2, Hencode.
  - intros body Hencode. rewrite Hencode.
    assert ((if bool_decide (Plugin.file_hashes plugin = [])
             then Return None
             else Return (head (matching_versions (get_url entry)
                                  (sha256_hexdigest body)
                                  (Plugin.file_hashes plugin)))) =
            Return (head (matching_versions (get_url entry) (sha256_hexdigest body)
                            (Plugin.file_hashes plugin)))) as ->.
    { case_bool_decide as Hempty; [by rewrite Hempty|done]. }
    split.
    + intros version [= Hhead].
      assert (version ∈ matching_versions (get_url entry) (sha256_hexdigest body)
                (Plugin.file_hashes plugin)) as Hin.
      { destruct (matching_versions _ _ _) as [|v l]; [done|].
        injection Hhead as ->. left. }
      apply elem_of_matching_versions in Hin as (file & hash_dict & ? & Hfile & ?).
      apply str_in_spec in Hfile as (before & after & ?).
      by exists file, hash_dict, before, after.
    + split.
      * intros [= Hnil]. apply head_None in Hnil.
        intros file hash_dict version before after Hin Hurl Hhash.
        assert (version ∈ matching_versions (get_url entry) (sha256_hexdigest body)
                  (Plugin.file_hashes plugin)) as Hversion.
        { apply elem_of_matching_versions. exists file, hash_dict.
          split_and!; [done| |done]. apply str_in_spec. by exists before, after. }
        rewrite Hnil in Hversion. by apply elem_of_nil in Hversion.
      * intros Hnone.
        destruct (matching_versions _ _ _) as [|version l] eqn:Hlist; [done|].
        assert (version ∈ matching_versions (get_url entry) (sha256_hexdigest body)
                  (Plugin.file_hashes plugin)) as Hversion
          by (rewrite Hlist; left).
        apply elem_of_matching_versions in Hversion
          as (file & hash_dict & ? & Hfile & ?).
        apply str_in_spec in Hfile as (before & after & ?).
        by destruct (Hnone file hash_dict version before after).
Qed.

(** ** The outcomes of [process_har]: proofs *)

Lemma bind_snoc {A B} (f : A → list B) (xs : list A) x :
  (xs ++ [x]) ≫= f = (xs ≫= f) ++ f x.
Proof.
  rewrite bind_app.
  change ([x] ≫= f) with (f x ++ []). by rewrite app_nil_r.
Qed.

Lemma entry_failure_cases self entry e :
  entry_failure MATCHERS sha256_hexdigest self entry = Some e →
  e = UnicodeEncodeError "surrogates not allowed" ∨ e = KeyError "homepage".
Proof.
  unfold entry_failure.
  destruct (first_failure (λ plugin, indicator_failure _ _ plugin entry) _) as [e'|]
    eqn:Hindicator.
  - intros [= <-].
    apply first_failure_Some in Hindicator as (_ & plugin & _ & _ & _ & Hplugin).
    apply indicator_failure_Some in Hplugin as (_ & _ & Hencode).
    left. by eapply encode_utf8_Raise.
  - intros Hgeneric.
    apply first_failure_Some in Hgeneric as (_ & plugin & _ & _ & _ & Hplugin).
    apply generic_failure_Some in Hplugin as [_ ->]. by right.
Qed.

(** [process_har] at the first entry on which a pass raises. *)
Lemma process_har_raise_at self w before entry after e :
  har self = before ++ entry :: after →
  Forall (passes_return MATCHERS self) before →
  entry_failure MATCHERS sha256_hexdigest self entry = Some e →
  process_har MATCHERS get_most_complete_version sha256_hexdigest self w =
    (Raise e,
     emit ((before ≫=
              entry_results MATCHERS get_most_complete_version sha256_hexdigest self) ++
           entry_added MATCHERS get_most_complete_version sha256_hexdigest self entry)
          ((before ≫= entry_log MATCHERS get_most_complete_version self) ++
           entry_logged MATCHERS get_most_complete_version sha256_hexdigest self entry)
          w).
Proof.
  intros Hhar Hbefore Hentry. rewrite process_har_run, Hhar.
  assert (Forall (λ entry, entry_failure MATCHERS sha256_hexdigest self entry = None)
                 before) as Hnone.
  { eapply Forall_impl; [exact Hbefore|]. intros x. apply entry_failure_None. }
  assert (first_failure (entry_failure MATCHERS sha256_hexdigest self)
            (before ++ entry :: after) = Some e) as ->.
  { apply first_failure_Some. by exists before, entry, after. }
  rewrite (until_failure_at _ _ _ _ _ Hnone Hentry), !bind_snoc, app_nil_r.
  by destruct (entries_added_return self before Hbefore) as [-> ->].
Qed.

(** The passes on an entry at which the indicator pass raises. *)
Lemma entry_added_at_indicator self entry indicator_before plugin indicator_after e :
  PluginCollection.with_indicator_matchers (_plugins self) =
    indicator_before ++ plugin :: indicator_after →
  Forall (λ plugin, check_indicator_presence MATCHERS plugin entry = false ∨
                    Plugin.file_hashes plugin = []) indicator_before →
  check_indicator_presence MATCHERS plugin entry = true →
  Plugin.file_hashes plugin ≠ [] →
  encode_utf8 (get_response_body entry) = Raise e →
  entry_failure MATCHERS sha256_hexdigest self entry = Some e ∧
  entry_added MATCHERS get_most_complete_version sha256_hexdigest self entry =
    entry_results_until_indicator MATCHERS get_most_complete_version sha256_hexdigest
      self entry indicator_before plugin ∧
  entry_logged MATCHERS get_most_complete_version sha256_hexdigest self entry =
    entry_log_until_indicator MATCHERS get_most_complete_version
      self entry indicator_before plugin.
Proof.
  intros Hplugins Hbefore Hpresent Hfiles Hencode.
  assert (Forall (λ plugin, indicator_failure MATCHERS sha256_hexdigest plugin entry = None)
                 indicator_before) as Hnone.
  { eapply Forall_impl; [exact Hbefore|]. intros p Hp.
    apply indicator_failure_None. intros Hpresent' Hfiles'.
    destruct Hp as [Hp|Hp]; congruence. }
  assert (indicator_failure MATCHERS sha256_hexdigest plugin entry = Some e) as Hplugin
    by by apply indicator_failure_Some.
  assert (indicator_results MATCHERS sha256_hexdigest plugin entry =
          [Result.mk (get_plugin_name MATCHERS plugin entry) None
             (Plugin.homepage plugin) (get_url entry) INDICATOR_TYPE]) as Hresults.
  { unfold indicator_results.
    rewrite Hpresent, get_version_via_file_hashes_unfold, Hencode.
    by rewrite bool_decide_eq_false_2. }
  unfold entry_failure, entry_added, entry_logged,
    entry_results_until_indicator, entry_log_until_indicator.
  rewrite Hplugins.
  assert (first_failure
            (λ plugin, indicator_failure MATCHERS sha256_hexdigest plugin entry)
            (indicator_before ++ plugin :: indicator_after) = Some e) as ->.
  { apply first_failure_Some. by exists indicator_before, plugin, indicator_after. }
  rewrite (until_failure_at _ _ _ _ _ Hnone Hplugin), !bind_snoc, Hresults, app_nil_r.
  unfold indicator_detected. by rewrite Hpresent.
Qed.

(** The passes on an entry at which the generic pass raises. *)
Lemma entry_added_at_generic self entry generic_before plugin generic_after :
  indicator_pass_returns MATCHERS self entry →
  PluginCollection.with_generic_matchers (_plugins self) =
    generic_before ++ plugin :: generic_after →
  Forall (λ plugin, is_Some (generic_results MATCHERS plugin entry)) generic_before →
  generic_results MATCHERS plugin entry = None →
  entry_failure MATCHERS sha256_hexdigest self entry = Some (KeyError "homepage") ∧
  entry_added MATCHERS get_most_complete_version sha256_hexdigest self entry =
    entry_results_until MATCHERS get_most_complete_version sha256_hexdigest
      self entry generic_before ∧
  entry_logged MATCHERS get_most_complete_version sha256_hexdigest self entry =
    entry_log MATCHERS get_most_complete_version self entry.
Proof.
  intros Hindicator Hplugins Hbefore Hplugin.
  assert (first_failure
            (λ plugin, indicator_failure MATCHERS sha256_hexdigest plugin entry)
            (PluginCollection.with_indicator_matchers (_plugins self)) = None)
    as Hreturns.
  { apply first_failure_None. eapply Forall_impl; [exact Hindicator|].
    intros p. apply indicator_failure_None. }
  assert (Forall (λ plugin, generic_failure MATCHERS plugin entry = None) generic_before)
    as Hnone.
  { eapply Forall_impl; [exact Hbefore|]. intros p. apply generic_failure_None. }
  assert (generic_failure MATCHERS plugin entry = Some (KeyError "homepage")) as Hfails
    by by apply generic_failure_Some.
  unfold entry_failure, entry_added, entry_logged, entry_results_until, entry_log.
  rewrite Hreturns, (until_failure_all _ _ Hreturns), Hplugins.
  assert (first_failure (λ plugin, generic_failure MATCHERS plugin entry)
            (generic_before ++ plugin :: generic_after) = Some (KeyError "homepage"))
    as ->.
  { apply first_failure_Some. by exists generic_before, plugin, generic_after. }
  rewrite (until_failure_at _ _ _ _ _ Hnone Hfails), bind_snoc, Hplugin; simpl.
  by rewrite app_nil_r.
Qed.

(** X2: [process_har] at the first entry on which a pass raises.  When
    the body of the entry cannot be encoded, the indicator pass raises
    what [encode] raises at the first indicator plugin that is present
    on the entry and has file hashes, after its INDICATOR Result was
    added.  When the indicator pass returns and a generic plugin gives
    a record with a [name] and no [homepage], the generic pass raises
    [KeyError] at the first such plugin.  In both cases what the passes
    added before stays added (the results of the entries before, and on
    this entry those of the plugins before the failing one); the
    entries after it are not processed, and the hints queued so far are
    never added. *)
Theorem process_har_raise self w before entry after :
  har self = before ++ entry :: after →
  Forall (passes_return MATCHERS self) before →
  (∀ indicator_before plugin indicator_after e,
     PluginCollection.with_indicator_matchers (_plugins self) =
       indicator_before ++ plugin :: indicator_after →
     Forall (λ plugin, check_indicator_presence MATCHERS plugin entry = false ∨
                       Plugin.file_hashes plugin = []) indicator_before →
     check_indicator_presence MATCHERS plugin entry = true →
     Plugin.file_hashes plugin ≠ [] →
     encode_utf8 (get_response_body entry) = Raise e →
     process_har MATCHERS get_most_complete_version sha256_hexdigest self w =
       (Raise e,
        emit ((before ≫=
                 entry_results MATCHERS get_most_complete_version sha256_hexdigest
                   self) ++
              entry_results_until_indicator MATCHERS get_most_complete_version
                sha256_hexdigest self entry indicator_before plugin)
             ((before ≫= entry_log MATCHERS get_most_complete_version self) ++
              entry_log_until_indicator MATCHERS get_most_complete_version
                self entry indicator_before plugin) w)) ∧
  (∀ generic_before plugin generic_after,
     indicator_pass_returns MATCHERS self entry →
     PluginCollection.with_generic_matchers (_plugins self) =
       generic_before ++ plugin :: generic_after →
     Forall (λ plugin, is_Some (generic_results MATCHERS plugin entry)) generic_before →
     generic_results MATCHERS plugin entry = None →
     process_har MATCHERS get_most_complete_version sha256_hexdigest self w =
       (Raise (KeyError "homepage"),
        emit ((before ≫=
                 entry_results MATCHERS get_most_complete_version sha256_hexdigest
                   self) ++
              entry_results_until MATCHERS get_most_complete_version sha256_hexdigest
                self entry generic_before)
             ((before ≫= entry_log MATCHERS get_most_complete_version self) ++
              entry_log MATCHERS get_most_complete_version self entry) w)).
Proof.
  intros Hhar Hbefore. split.
  - intros indicator_before plugin indicator_after e Hplugins Hnone Hpresent Hfiles Hencode.
    destruct (entry_added_at_indicator self entry indicator_before plugin
                indicator_after e) as (Hentry & <- & <-); [done..|].
    by apply (process_har_raise_at self w before entry after).
  - intros generic_before plugin generic_after Hindicator Hplugins Hsome Hplugin.
    destruct (entry_added_at_generic self entry generic_before plugin generic_after)
      as (Hentry & <- & <-); [done..|].
    by apply (process_har_raise_at self w before entry after).
Qed.

(** The two ways [process_har] can end. *)
Lemma process_har_outcomes self w :
  (Forall (passes_return MATCHERS self) (har self) ∧
   process_har MATCHERS get_most_complete_version sha256_hexdigest self w =
     (Return (),
      emit ((har self ≫=
               entry_results MATCHERS get_most_complete_version sha256_hexdigest self) ++
            (har self ≫= entry_hints MATCHERS get_most_complete_version self))
           (har self ≫= entry_log MATCHERS get_most_complete_version self) w)) ∨
  (¬ Forall (passes_return MATCHERS self) (har self) ∧
   ∃ e w',
     process_har MATCHERS get_most_complete_version sha256_hexdigest self w =
       (Raise e, w') ∧
     (e = UnicodeEncodeError "surrogates not allowed" ∨ e = KeyError "homepage")).
Proof.
  destruct (first_failure (entry_failure MATCHERS sha256_hexdigest self) (har self))
    as [e|] eqn:Hfirst.
  - right. rewrite process_har_run, Hfirst.
    apply first_failure_Some in Hfirst
      as (before & entry & after & Hhar & _ & Hentry).
    split; [|by eauto using entry_failure_cases].
    intros Hall.
    assert (passes_return MATCHERS self entry) as Hreturn.
    { apply (proj1 (Forall_forall _ _) Hall).
      rewrite Hhar. apply elem_of_app. right. left. }
    apply entry_failure_None in Hreturn. by rewrite Hreturn in Hentry.
  - left. apply first_failure_None in Hfirst.
    assert (Forall (passes_return MATCHERS self) (har self)) as Hall.
    { eapply Forall_impl; [exact Hfirst|]. intros entry. apply entry_failure_None. }
    split; [done|]. by apply process_har_emit_all.
Qed.

(** The Results of the passes on an entry of [self.har] are well
    formed, and none of them is a HINT Result. *)
Lemma version_results_ok self plugin entry :
  entry ∈ har self →
  Forall (λ result, har_result_ok self result ∧ Result.type result ≠ HINT_TYPE)
         (version_results MATCHERS get_most_complete_version plugin entry).
Proof.
  intros Hentry. unfold version_results.
  destruct (if_truthy (get_plugin_version MATCHERS get_most_complete_version
                         plugin entry)) as [version|] eqn:Hversion; [|done].
  apply if_truthy_Some in Hversion as [_ Hne].
  repeat constructor; simpl; eauto.
Qed.

Lemma indicator_results_ok self plugin entry :
  entry ∈ har self →
  Forall (λ result, har_result_ok self result ∧ Result.type result ≠ HINT_TYPE)
         (indicator_results MATCHERS sha256_hexdigest plugin entry).
Proof.
  intros Hentry. unfold indicator_results.
  destruct (check_indicator_presence _ _ _); [|done].
  destruct (get_version_via_file_hashes sha256_hexdigest plugin entry) as [version|e].
  - destruct (if_truthy version) as [version'|] eqn:Hversion.
    + apply if_truthy_Some in Hversion as [_ Hne].
      repeat constructor; simpl; eauto.
    + repeat constructor; simpl; eauto.
  - repeat constructor; simpl; eauto.
Qed.

Lemma generic_results_ok self plugin entry :
  entry ∈ har self →
  Forall (λ result, har_result_ok self result ∧ Result.type result ≠ HINT_TYPE)
         (default [] (generic_results MATCHERS plugin entry)).
Proof.
  intros Hentry. unfold generic_results.
  destruct (check_indicator_presence _ _ _); [|done].
  destruct (_ !! "name"); [|done]. destruct (_ !! "homepage"); [|done].
  repeat constructor; simpl; eauto.
Qed.

Lemma entry_added_ok self entry :
  entry ∈ har self →
  Forall (λ result, har_result_ok self result ∧ Result.type result ≠ HINT_TYPE)
         (entry_added MATCHERS get_most_complete_version sha256_hexdigest self entry).
Proof.
  intros Hentry. unfold entry_added.
  rewrite !Forall_app, !Forall_bind. split_and!.
  - apply Forall_forall. intros plugin _. by apply version_results_ok.
  - apply Forall_forall. intros plugin _. by apply indicator_results_ok.
  - destruct (first_failure _ _); [done|].
    rewrite Forall_bind. apply Forall_forall. intros plugin _.
    by apply generic_results_ok.
Qed.

Lemma entries_added_ok self :
  Forall (λ result, har_result_ok self result ∧ Result.type result ≠ HINT_TYPE)
         (until_failure (entry_failure MATCHERS sha256_hexdigest self) (har self) ≫=
            entry_added MATCHERS get_most_complete_version sha256_hexdigest self).
Proof.
  rewrite Forall_bind. apply Forall_forall. intros entry Hentry.
  apply entry_added_ok. by eapply until_failure_elem_of.
Qed.

Lemma hint_results_ok self hint_name :
  Forall (λ result, har_result_ok self result ∧ Result.type result = HINT_TYPE)
         (hint_results self hint_name).
Proof.
  unfold hint_results. destruct (PluginCollection.get _ _); [|done].
  by repeat constructor.
Qed.

Lemma entry_hints_ok self entry :
  Forall (har_result_ok self)
         (entry_hints MATCHERS get_most_complete_version self entry).
Proof.
  unfold entry_hints. rewrite Forall_app, !Forall_bind.
  split; apply Forall_forall; intros plugin _; simpl.
  - destruct (version_detected _ _ _ _); [|done].
    rewrite Forall_bind. apply Forall_forall. intros hint_name _. simpl.
    eapply Forall_impl; [apply hint_results_ok|]. by intros ? [? _].
  - destruct (indicator_detected _ _ _); [|done].
    rewrite Forall_bind. apply Forall_forall. intros hint_name _. simpl.
    eapply Forall_impl; [apply hint_results_ok|]. by intros ? [? _].
Qed.

(** X3: however [process_har] ends, every Result it has added is well
    formed: a VERSION Result carries a non-empty version and every other
    Result none; a HINT Result has the requested URL as [from_url],
    every other Result the URL of an entry of [self.har]. *)
Theorem process_har_results_ok self w :
  ∃ outcome results records,
    process_har MATCHERS get_most_complete_version sha256_hexdigest self w =
      (outcome, emit results records w) ∧
    Forall (har_result_ok self) results.
Proof.
  rewrite process_har_run. eexists _, _, _. split; [done|].
  rewrite Forall_app. split.
  - eapply Forall_impl; [apply entries_added_ok|]. by intros ? [? _].
  - destruct (first_failure _ _); [done|].
    rewrite Forall_bind. apply Forall_forall. intros entry _. apply entry_hints_ok.
Qed.

(** X4: [process_har] raises exactly when a pass raises on some entry
    of [self.har]: the body of the entry cannot be encoded and an
    indicator plugin with file hashes is present on it, or a generic
    plugin present on it gives a record with a [name] and no
    [homepage].  The exception is [UnicodeEncodeError] or [KeyError]
    for [homepage], and no HINT Result has been added: the hints of the
    plugins detected so far are lost. *)
Theorem process_har_raises self w :
  ((∃ e w', process_har MATCHERS get_most_complete_version sha256_hexdigest self w =
              (Raise e, w')) ↔
   ¬ Forall (passes_return MATCHERS self) (har self)) ∧
  (∀ e w',
     process_har MATCHERS get_most_complete_version sha256_hexdigest self w =
       (Raise e, w') →
     (e = UnicodeEncodeError "surrogates not allowed" ∨ e = KeyError "homepage") ∧
     ∃ results records,
       w' = emit results records w ∧
       Forall (λ result, Result.type result ≠ HINT_TYPE) results).
Proof.
  rewrite process_har_run.
  destruct (first_failure (entry_failure MATCHERS sha256_hexdigest self) (har self))
    as [e|] eqn:Hfirst.
  - apply first_failure_Some in Hfirst
      as (before & entry & after & Hhar & _ & Hentry).
    split.
    + split; [|by eauto]. intros _ Hall.
      assert (passes_return MATCHERS self entry) as Hreturn.
      { apply (proj1 (Forall_forall _ _) Hall).
        rewrite Hhar. apply elem_of_app. right. left. }
      apply entry_failure_None in Hreturn. by rewrite Hreturn in Hentry.
    + intros e' w' [= <- <-]. split; [by eapply entry_failure_cases|].
      eexists _, _. split; [done|]. rewrite app_nil_r.
      eapply Forall_impl; [apply entries_added_ok|]. by intros ? [_ ?].
  - split; [|by intros ?? [=]].
    split; [by intros (? & ? & [=])|]. intros Hnot. destruct Hnot.
    apply first_failure_None in Hfirst.
    eapply Forall_impl; [exact Hfirst|]. intros entry. apply entry_failure_None.
Qed.

End DetectorFacts.

(** X15: [_prepare_har] changes the response it is given.  Preparing
    the same response object once more (a response with a [har] list),
    the entries of the first preparation, script entries included, are
    taken for har entries: all of them are tagged anew, none of them is
    INLINE_SCRIPT any longer, one of them is MAIN as soon as there is
    one, and the scripts are appended a second time. *)
Theorem prepare_har_again urljoin requested_url response entries :
  _prepare_har urljoin requested_url response = Return entries →
  ∃ old_entries,
    _prepare_har urljoin requested_url
      (response_after_prepare_har true response entries) =
      Return (old_entries ++
              (_script_to_har_entry requested_url <$> Response.scripts response)) ∧
    har_entry <$> old_entries = har_entry <$> entries ∧
    length old_entries =
      length (Response.har response) + length (Response.scripts response) ∧
    count_type INLINE_SCRIPT_ENTRY old_entries = 0 ∧
    count_type MAIN_ENTRY old_entries = (if bool_decide (entries = []) then 0 else 1).
Proof.
  intros Hfirst.
  assert (location_resolves urljoin (Response.har response)) as Hresolves
    by (apply (prepare_har_return urljoin requested_url); eauto).
  apply prepare_har_shape in Hfirst as (har_entries & -> & Hhar & _ & _).
  set (entries :=
         har_entries ++ (_script_to_har_entry requested_url <$> Response.scripts response)).
  assert (location_resolves urljoin (har_entry <$> entries)) as Hagain.
  { unfold entries. rewrite fmap_app, Hhar.
    destruct (Response.har response) as [|main_entry rest]; [|done].
    simpl. by destruct (Response.scripts response). }
  apply (prepare_har_return urljoin requested_url
           (response_after_prepare_har true response entries))
    in Hagain as [entries' Hsecond].
  pose proof Hsecond as Hshape.
  apply prepare_har_shape in Hshape as (old_entries & -> & Hold & Hmain & Hinline).
  simpl in Hold, Hmain, Hsecond.
  exists old_entries. split_and!; [done..| |done|].
  - rewrite <-(length_fmap har_entry old_entries), Hold, length_fmap.
    unfold entries. rewrite length_app.
    by rewrite !length_fmap, <-Hhar, length_fmap.
  - rewrite Hmain. unfold entries.
    destruct (har_entries ++ _) as [|e l]; by repeat case_bool_decide.
Qed.

(** ** The entry classifier: further proofs *)

Lemma count_type_total (entries : list Entry) :
  count_type MAIN_ENTRY entries + count_type RESOURCE_ENTRY entries +
  count_type INLINE_SCRIPT_ENTRY entries = length entries.
Proof.
  induction entries as [|entry entries IH]; [done|].
  rewrite !count_type_cons. simpl. rewrite <-IH.
  destruct (detectem_type entry); repeat case_bool_decide; try done; lia.
Qed.

(** X8: [_prepare_har] keeps every har entry and every script.  It
    returns when the Location of the first har entry resolves, and the
    sequence it returns has as many entries as the har list and the
    scripts together, its first entries carry the data of the har
    entries, unchanged and in order, and all har entries but one are
    classified RESOURCE. *)
Theorem prepare_har_census urljoin requested_url response :
  (location_resolves urljoin (Response.har response) →
   ∃ entries, _prepare_har urljoin requested_url response = Return entries) ∧
  (∀ entries,
     _prepare_har urljoin requested_url response = Return entries →
     length entries =
       length (Response.har response) + length (Response.scripts response) ∧
     har_entry <$> take (length (Response.har response)) entries =
       Response.har response ∧
     count_type RESOURCE_ENTRY entries = pred (length (Response.har response))).
Proof.
  split; [apply prepare_har_return|].
  intros entries Hprepare.
  apply prepare_har_shape in Hprepare as (har_entries & -> & Hhar & Hmain & Hinline).
  assert (length har_entries = length (Response.har response)) as Hlength
    by by rewrite <-Hhar, length_fmap.
  split_and!.
  - by rewrite length_app, length_fmap, Hlength.
  - by rewrite <-Hlength, take_app_length.
  - rewrite count_type_app, count_type_script_entries; simpl.
    pose proof (count_type_total har_entries) as Htotal.
    rewrite Hmain, Hinline, Hlength in Htotal.
    destruct (Response.har response); simpl in *; lia.
Qed.

(** X18: the constructor raises exactly when the har list is not empty,
    the value of the first Location header of its first entry is not
    the empty string, and [urljoin] raises on it; it raises what
    [urljoin] raises (a [ValueError] for a value that [urlsplit]
    rejects).  No detector is built then, whatever the other entries
    and the scripts. *)
Theorem prepare_har_raises {Sig} urljoin requested_url response
    (plugins : PluginCollection.t Sig) e :
  (_prepare_har urljoin requested_url response = Raise e ↔
   ∃ main_entry rest main_location,
     Response.har response = main_entry :: rest ∧
     get_location main_entry = Some main_location ∧
     main_location ≠ "" ∧
     urljoin (request_url main_entry) main_location = Raise e) ∧
  (__init__ urljoin response plugins requested_url = Raise e ↔
   _prepare_har urljoin requested_url response = Raise e).
Proof.
  split.
  - rewrite prepare_har_raise. split.
    + intros (main_entry & rest & main_location & Hhar & Hloc & Hjoin).
      apply if_truthy_Some in Hloc as [Hloc Hne].
      by exists main_entry, rest, main_location.
    + intros (main_entry & rest & main_location & Hhar & Hloc & Hne & Hjoin).
      exists main_entry, rest, main_location. split_and!; [done| |done].
      by apply if_truthy_Some.
  - unfold __init__.
    destruct (_prepare_har urljoin requested_url response) as [entries|e']; simpl;
      split; intros [=]; by subst.
Qed.

(** ** [get_results]: proofs *)

Lemma result_record_ok metadata rt : record_ok metadata rt (result_record metadata rt).
Proof.
  unfold record_ok, result_record.
  destruct (if_truthy (Result.version rt)) as [version|] eqn:Hversion;
    [apply if_truthy_Some in Hversion as [Hversion Hne]
    |apply if_truthy_None in Hversion];
    destruct metadata; simpl; split_and!;
    try by compute_done.
  all: try set_solver.
  all: try (intros value; rewrite !elem_of_cons, elem_of_nil; naive_solver).
  all: intros key; rewrite !elem_of_cons, elem_of_nil; naive_solver.
Qed.

(** A list satisfies a decidable property throughout, or has a first
    element that does not. *)
Lemma Forall_or_first {A} (P : A → Prop) `{∀ x, Decision (P x)} (l : list A) :
  Forall P l ∨ ∃ l1 x l2, l = l1 ++ x :: l2 ∧ Forall P l1 ∧ ¬ P x.
Proof.
  induction l as [|x l IH]; [by left|].
  destruct (decide (P x)) as [HP|HP].
  - destruct IH as [Hall|(l1 & y & l2 & -> & Hl1 & Hy)].
    + left. by constructor.
    + right. exists (x :: l1), y, l2. split_and!; [done| |done]. by constructor.
  - right. by exists [], x, l.
Qed.

Section ResultsFacts.
Context {Sig : Type}.
Variable MATCHERS : Kind.t → Matcher.t Sig.
Variable get_most_complete_version : list string → option string.
Variable sha256_hexdigest : list Byte.byte → string.
Variable sorted_results : list Result.t → list Result.t.

Implicit Types (self : Detector Sig) (plugin : Plugin.t Sig) (entry : Entry).

(** [get_results] runs the two passes in turn and then builds one
    record per Result of the sorted view. *)
Lemma get_results_run self metadata w :
  get_results MATCHERS get_most_complete_version sha256_hexdigest sorted_results
    self metadata w =
  match process_har MATCHERS get_most_complete_version sha256_hexdigest self w with
  | (Raise e, w1) => (Raise e, w1)
  | (Return _, w1) =>
      match process_from_splash self w1 with
      | (Raise e, w2) => (Raise e, w2)
      | (Return _, w2) =>
          (Return (result_record metadata <$> sorted_results (_results w2)), w2)
      end
  end.
Proof.
  unfold get_results, mbind, M_bind.
  destruct (process_har _ _ _ _ w) as [[[]|e] w1]; [|done].
  destruct (process_from_splash self w1) as [[[]|e] w2]; [|done].
  unfold sorted_get_results, mret, M_ret. f_equal. f_equal.
  rewrite (foldl_append (λ rt, [result_record metadata rt])); [|done].
  reflexivity.
Qed.

Lemma process_from_splash_emit self w :
  Forall (λ software,
            is_Some (PluginCollection.get (_plugins self) (Software.name software)))
         (_softwares_from_splash self) →
  process_from_splash self w =
    (Return (),
     emit (_softwares_from_splash self ≫= splash_results self)
          (_softwares_from_splash self ≫= splash_log self) w).
Proof.
  intros Hregistered. apply for_each_unit_emits.
  intros software w' Hin. apply process_from_splash_software_emit.
  by apply (proj1 (Forall_forall _ _) Hregistered).
Qed.

Lemma process_from_splash_raise_at self w registered software rest :
  _softwares_from_splash self = registered ++ software :: rest →
  Forall (λ software,
            is_Some (PluginCollection.get (_plugins self) (Software.name software)))
         registered →
  PluginCollection.get (_plugins self) (Software.name software) = None →
  process_from_splash self w =
    (Raise (AttributeError "name"),
     emit (registered ≫= splash_results self) (registered ≫= splash_log self) w).
Proof.
  intros Hsoftwares Hregistered Hunknown. unfold process_from_splash.
  rewrite Hsoftwares. apply for_each_unit_raises.
  - intros y w' Hy. apply process_from_splash_software_emit.
    by apply (proj1 (Forall_forall _ _) Hregistered).
  - intros w'. by apply process_from_splash_software_raise.
Qed.

(** X11: when no pass raises on an entry and every software that
    splash reports is registered, [get_results] returns one record per
    Result of the sorted view of the collection, in the order of that
    view; the collection has been given, in this order, the Results of
    the three passes entry by entry, the queued hints, and for each
    reported software its VERSION Result followed by its hints. *)
Theorem get_results_records self metadata w :
  Forall (passes_return MATCHERS self) (har self) →
  Forall (λ software,
            is_Some (PluginCollection.get (_plugins self) (Software.name software)))
         (_softwares_from_splash self) →
  get_results MATCHERS get_most_complete_version sha256_hexdigest sorted_results
    self metadata w =
    (Return
       (result_record metadata <$>
        sorted_results
          (_results w ++
           (har self ≫=
              entry_results MATCHERS get_most_complete_version sha256_hexdigest self) ++
           (har self ≫= entry_hints MATCHERS get_most_complete_version self) ++
           (_softwares_from_splash self ≫= splash_results self))),
     emit ((har self ≫=
              entry_results MATCHERS get_most_complete_version sha256_hexdigest self) ++
           (har self ≫= entry_hints MATCHERS get_most_complete_version self) ++
           (_softwares_from_splash self ≫= splash_results self))
          ((har self ≫= entry_log MATCHERS get_most_complete_version self) ++
           (_softwares_from_splash self ≫= splash_log self)) w).
Proof.
  intros Hreturn Hregistered. rewrite get_results_run.
  rewrite (process_har_emit_all MATCHERS get_most_complete_version sha256_hexdigest
             self w Hreturn).
  rewrite process_from_splash_emit by done.
  rewrite emit_emit, <-!app_assoc. done.
Qed.

(** X12: whenever [get_results] returns, its records are those of the
    Results of the sorted view, one by one.  Each record has the
    result's [name]; it has a [version] exactly when the result's
    version is a non-empty string; without metadata it has no
    [homepage], [type] or [from_url], with metadata it has all three,
    with the result's values; it has no other key and no key twice. *)
Theorem get_results_record_shape self metadata w records w' :
  get_results MATCHERS get_most_complete_version sha256_hexdigest sorted_results
    self metadata w = (Return records, w') →
  Forall2 (record_ok metadata) (sorted_results (_results w')) records.
Proof.
  rewrite get_results_run.
  destruct (process_har _ _ _ _ w) as [[[]|e] w1]; [|done].
  destruct (process_from_splash self w1) as [[[]|e] w2]; [|done].
  intros [= <- <-]. apply Forall2_fmap_r, Forall_Forall2_diag, Forall_forall.
  intros rt _. apply result_record_ok.
Qed.

(** X13: [get_results] returns exactly when [process_har] and
    [process_from_splash] both return.  When a pass of [process_har]
    raises on an entry, it raises the same exception
    ([UnicodeEncodeError], or [KeyError] for [homepage]) in the state
    in which [process_har] raised: the splash pass is not run and no
    record is built.  When [process_har] returns and a reported
    software is not registered, it raises [AttributeError]. *)
Theorem get_results_returns self metadata w :
  ((∃ records w',
      get_results MATCHERS get_most_complete_version sha256_hexdigest sorted_results
        self metadata w = (Return records, w')) ↔
   Forall (passes_return MATCHERS self) (har self) ∧
   Forall (λ software,
             is_Some (PluginCollection.get (_plugins self) (Software.name software)))
          (_softwares_from_splash self)) ∧
  (¬ Forall (passes_return MATCHERS self) (har self) →
   ∃ e w',
     (e = UnicodeEncodeError "surrogates not allowed" ∨ e = KeyError "homepage") ∧
     process_har MATCHERS get_most_complete_version sha256_hexdigest self w =
       (Raise e, w') ∧
     get_results MATCHERS get_most_complete_version sha256_hexdigest sorted_results
       self metadata w = (Raise e, w')) ∧
  (Forall (passes_return MATCHERS self) (har self) →
   ¬ Forall (λ software,
               is_Some (PluginCollection.get (_plugins self) (Software.name software)))
            (_softwares_from_splash self) →
   ∃ w',
     get_results MATCHERS get_most_complete_version sha256_hexdigest sorted_results
       self metadata w = (Raise (AttributeError "name"), w')).
Proof.
  rewrite get_results_run.
  destruct (process_har_outcomes MATCHERS get_most_complete_version sha256_hexdigest
              self w)
    as [[Hreturn ->]|(Hnot & e & w' & -> & He)].
  - destruct (Forall_or_first
                (λ software,
                   is_Some (PluginCollection.get (_plugins self)
                              (Software.name software)))
                (_softwares_from_splash self))
      as [Hall|(registered & software & rest & Hsoftwares & Hregistered & Hunknown)].
    + rewrite process_from_splash_emit by done. split_and!; [|done..].
      split; [done|]. intros _. eauto.
    + assert (¬ Forall (λ software,
                   is_Some (PluginCollection.get (_plugins self)
                              (Software.name software)))
                (_softwares_from_splash self)) as Hnot.
      { intros Hall. apply Hunknown, (proj1 (Forall_forall _ _) Hall).
        rewrite Hsoftwares. apply elem_of_app. right. left. }
      erewrite process_from_splash_raise_at; [|done..|]; last first.
      { destruct (PluginCollection.get _ _) eqn:?; [|done]. by destruct Hunknown. }
      split_and!; [|done|by eauto].
      split; [by intros (? & ? & [=])|]. by intros [_ ?].
  - split_and!; [|by eauto|done].
    split; [by intros (? & ? & [=])|]. by intros [? _].
Qed.
End ResultsFacts.

(** ** [settings.py]: proofs *)

Lemma split_cons sep c s :
  settings.split sep (String c s) =
  if bool_decide (c = sep) then "" :: settings.split sep s
  else match settings.split sep s with
       | part :: parts => String c part :: parts
       | [] => [String c ""]
       end.
Proof. reflexivity. Qed.

Lemma split_length sep s :
  length (settings.split sep s) = S (count_char sep s).
Proof.
  induction s as [|c s IH]; [done|].
  rewrite split_cons. simpl. case_bool_decide; simpl; [by rewrite IH|].
  destruct (settings.split sep s); simpl in *; lia.
Qed.

Lemma split_no_separator sep s :
  Forall (λ part, count_char sep part = 0) (settings.split sep s).
Proof.
  induction s as [|c s IH]; [by repeat constructor|].
  rewrite split_cons. case_bool_decide as Hc.
  - by constructor.
  - destruct (settings.split sep s) as [|part parts].
    + repeat constructor. simpl. by rewrite bool_decide_eq_false_2.
    + apply Forall_cons in IH as [Hpart Hparts]. constructor; [|done].
      simpl. by rewrite bool_decide_eq_false_2.
Qed.

Lemma join_split sep s :
  join (String sep "") (settings.split sep s) = s.
Proof.
  induction s as [|c s IH]; [done|].
  rewrite split_cons. case_bool_decide as Hc.
  - subst. pose proof (split_length sep s) as Hlength.
    destruct (settings.split sep s) as [|part parts]; [done|].
    change (join (String sep "") ("" :: part :: parts))
      with (String sep (join (String sep "") (part :: parts))).
    by rewrite IH.
  - pose proof (split_length sep s) as Hlength.
    destruct (settings.split sep s) as [|part parts]; [done|].
    destruct parts as [|part' parts].
    + simpl in *. by rewrite IH.
    + change (join (String sep "") (String c part :: part' :: parts))
        with (String c (join (String sep "") (part :: part' :: parts))).
      by rewrite IH.
Qed.

(** X14: [PLUGIN_PACKAGES] is the configured value cut at its commas:
    it has one more element than the value has commas, so it is never
    empty; no element contains a comma; and joined with commas the
    elements give the value back.  With [DET_PLUGIN_PACKAGES] unset it
    is the single package [detectem.plugins]; with the variable set to
    the empty string it is one empty package name, not the empty
    list. *)
Theorem PLUGIN_PACKAGES_split environ :
  length (settings.PLUGIN_PACKAGES environ) =
    S (count_char settings.comma
         (settings.environ_get environ "DET_PLUGIN_PACKAGES" "detectem.plugins")) ∧
  Forall (λ package, count_char settings.comma package = 0)
         (settings.PLUGIN_PACKAGES environ) ∧
  join "," (settings.PLUGIN_PACKAGES environ) =
    settings.environ_get environ "DET_PLUGIN_PACKAGES" "detectem.plugins" ∧
  (environ !! "DET_PLUGIN_PACKAGES" = None →
   settings.PLUGIN_PACKAGES environ = ["detectem.plugins"]) ∧
  (environ !! "DET_PLUGIN_PACKAGES" = Some "" →
   settings.PLUGIN_PACKAGES environ = [""]).
Proof.
  unfold settings.PLUGIN_PACKAGES. split_and!.
  - apply split_length.
  - apply split_no_separator.
  - apply (join_split settings.comma).
  - unfold settings.environ_get. by intros ->.
  - unfold settings.environ_get. by intros ->.
Qed.

(** ** The theorems at concrete sessions *)

(** C3 at the indicator table of [foo], which has a [url] and a
    [header] kind: the MAIN page keeps the header kind, the resource
    [app.js] keeps the url kind. *)
Lemma get_matchers_for_entry_kinds_witness :
  (Forall (λ item, item.1 ≠ Kind.body ∧ item.1 ≠ Kind.url)
     (_get_matchers_for_entry "indicators" Example.foo Example.main_page) ∧
   _get_matchers_for_entry "indicators" Example.foo Example.main_page =
     [(Kind.header, [("X-Foo", "")])]) ∧
  (Forall (λ item, item.1 ≠ Kind.header ∧ item.1 ≠ Kind.xpath)
     (_get_matchers_for_entry "indicators" Example.foo Example.app_js) ∧
   _get_matchers_for_entry "indicators" Example.foo Example.app_js =
     [(Kind.url, [("app.js", "")])]).
Proof.
  split.
  - apply (proj1 (get_matchers_for_entry_kinds
                    "indicators" Example.foo Example.main_page)).
    reflexivity.
  - apply (proj2 (get_matchers_for_entry_kinds
                    "indicators" Example.foo Example.app_js)).
    left. reflexivity.
Defined.

(** C4: [foo] is present on [app.js] through its url kind, absent on an
    entry where its one eligible kind reports false, and [jquery], which
    has no indicators, is absent. *)
Lemma check_indicator_presence_or_witness :
  check_indicator_presence Example.MATCHERS Example.foo Example.app_js = true ∧
  check_indicator_presence Example.MATCHERS Example.foo Example.angular_route_js = false ∧
  check_indicator_presence Example.MATCHERS Example.jquery Example.app_js = false.
Proof.
  split_and!.
  - apply (proj1 (check_indicator_presence_or
                    Example.MATCHERS Example.foo Example.app_js)).
    exists Kind.url, [("app.js", "")]. split; [|reflexivity].
    vm_compute. left.
  - apply (proj1 (proj2 (check_indicator_presence_or
                           Example.MATCHERS Example.foo Example.angular_route_js))).
    vm_compute. repeat constructor.
  - apply (proj2 (proj2 (check_indicator_presence_or
                           Example.MATCHERS Example.jquery Example.app_js))).
    reflexivity.
Defined.

(** C5: [app.js] with body [abc], whose digest is the hash recorded for
    version 1.0, yields an INDICATOR and a VERSION Result for [foo] (and
    queues the hint for [jquery]); the same file with another body
    yields the INDICATOR Result twice; [jquery], which has no file
    hashes, gets no version; on [app.js] with a body that cannot be
    encoded the pass raises after the INDICATOR Result. *)
Lemma indicator_file_hash_version_witness :
  get_version_via_file_hashes SHA256.hexdigest Example.foo Example.app_js =
    Return (Some "1.0") ∧
  process_har_indicator_plugin Example.MATCHERS SHA256.hexdigest
    (Example.detector []) Example.app_js [] Example.foo Example.w0 =
    (Return [Result.mk "jquery" None "https://jquery.com" "https://example.com/" HINT_TYPE],
     mkWorld
       [Result.mk "foo" None "https://foo.example"
          "https://example.com/static/app.js" INDICATOR_TYPE;
        Result.mk "foo" (Some "1.0") "https://foo.example"
          "https://example.com/static/app.js" VERSION_TYPE]
       [logger_debug "%(pname)s & hint %(hname)s detected" "foo" "jquery";
        logger_error "%(pname)s hints an invalid plugin: %(hname)s" "foo" "nowhere"]) ∧
  get_version_via_file_hashes SHA256.hexdigest Example.foo Example.app_js_modified =
    Return None ∧
  process_har_indicator_plugin Example.MATCHERS SHA256.hexdigest
    (Example.detector []) Example.app_js_modified [] Example.foo Example.w0 =
    (Return [Result.mk "jquery" None "https://jquery.com" "https://example.com/" HINT_TYPE],
     mkWorld
       [Result.mk "foo" None "https://foo.example"
          "https://example.com/static/app.js" INDICATOR_TYPE;
        Result.mk "foo" None "https://foo.example"
          "https://example.com/static/app.js" INDICATOR_TYPE]
       [logger_debug "%(pname)s & hint %(hname)s detected" "foo" "jquery";
        logger_error "%(pname)s hints an invalid plugin: %(hname)s" "foo" "nowhere"]) ∧
  get_version_via_file_hashes SHA256.hexdigest Example.jquery Example.app_js =
    Return None ∧
  process_har_indicator_plugin Example.MATCHERS SHA256.hexdigest
    (Example.detector []) Example.app_js_surrogate [] Example.foo Example.w0 =
    (Raise (UnicodeEncodeError "surrogates not allowed"),
     mkWorld
       [Result.mk "foo" None "https://foo.example"
          "https://example.com/static/app.js" INDICATOR_TYPE]
       [logger_debug "%(pname)s & hint %(hname)s detected" "foo" "jquery";
        logger_error "%(pname)s hints an invalid plugin: %(hname)s" "foo" "nowhere"]).
Proof.
  assert (check_indicator_presence Example.MATCHERS Example.foo Example.app_js = true)
    as Hpresent by (vm_compute; reflexivity).
  assert (check_indicator_presence Example.MATCHERS Example.foo
            Example.app_js_modified = true)
    as Hpresent' by (vm_compute; reflexivity).
  split_and!.
  - eapply eq_trans.
    + apply (proj1 (proj2 (indicator_file_hash_version Example.MATCHERS
                             SHA256.hexdigest (Example.detector []) Example.foo
                             Example.app_js [] Example.w0))
               (String.list_byte_of_string "abc")).
      vm_compute. reflexivity.
    + vm_compute. reflexivity.
  - eapply eq_trans.
    + apply (proj1 (proj2 (proj2 (indicator_file_hash_version Example.MATCHERS
                                    SHA256.hexdigest (Example.detector []) Example.foo
                                    Example.app_js [] Example.w0)) Hpresent) "1.0").
      * vm_compute. reflexivity.
      * discriminate.
    + vm_compute. reflexivity.
  - eapply eq_trans.
    + apply (proj1 (proj2 (indicator_file_hash_version Example.MATCHERS
                             SHA256.hexdigest (Example.detector []) Example.foo
                             Example.app_js_modified [] Example.w0))
               (String.list_byte_of_string "abd")).
      vm_compute. reflexivity.
    + vm_compute. reflexivity.
  - eapply eq_trans.
    + apply (proj1 (proj2 (proj2 (proj2 (indicator_file_hash_version Example.MATCHERS
                                    SHA256.hexdigest (Example.detector []) Example.foo
                                    Example.app_js_modified [] Example.w0)) Hpresent'))).
      left. vm_compute. reflexivity.
    + vm_compute. reflexivity.
  - apply (proj1 (indicator_file_hash_version Example.MATCHERS
                    SHA256.hexdigest (Example.detector []) Example.jquery
                    Example.app_js [] Example.w0)).
    reflexivity.
  - eapply eq_trans.
    + apply (proj2 (proj2 (proj2 (proj2 (indicator_file_hash_version Example.MATCHERS
                                    SHA256.hexdigest (Example.detector []) Example.foo
                                    Example.app_js_surrogate [] Example.w0))
                             ltac:(vm_compute; reflexivity)))
               (UnicodeEncodeError "surrogates not allowed")).
      vm_compute. reflexivity.
    + vm_compute. reflexivity.
Defined.

(** C5, as stated, fails when the version recorded for the matching
    hash is the empty string: the lookup returns it, [if version] takes
    it for no version, and the pass adds the INDICATOR Result twice and
    no VERSION Result. *)
Lemma indicator_file_hash_empty_version :
  check_indicator_presence Example.MATCHERS Example.foo_unversioned Example.app_js = true ∧
  get_version_via_file_hashes SHA256.hexdigest Example.foo_unversioned Example.app_js =
    Return (Some "") ∧
  process_har_indicator_plugin Example.MATCHERS SHA256.hexdigest
    (Example.detector []) Example.app_js [] Example.foo_unversioned Example.w0 =
    (Return [],
     mkWorld
       [Result.mk "foo" None "https://foo.example"
          "https://example.com/static/app.js" INDICATOR_TYPE;
        Result.mk "foo" None "https://foo.example"
          "https://example.com/static/app.js" INDICATOR_TYPE]
       []) ∧
  ¬ (∀ Sig (MATCHERS : Kind.t → Matcher.t Sig) sha256_hexdigest
       (self : Detector Sig) (plugin : Plugin.t Sig) (entry : Entry) hints w version,
       check_indicator_presence MATCHERS plugin entry = true →
       get_version_via_file_hashes sha256_hexdigest plugin entry =
         Return (Some version) →
       ∃ queued w',
         process_har_indicator_plugin MATCHERS sha256_hexdigest
           self entry hints plugin w = (Return queued, w') ∧
         _results w' =
           _results w ++
           [Result.mk (get_plugin_name MATCHERS plugin entry) None
              (Plugin.homepage plugin) (get_url entry) INDICATOR_TYPE;
            Result.mk (get_plugin_name MATCHERS plugin entry) (Some version)
              (Plugin.homepage plugin) (get_url entry) VERSION_TYPE]).
Proof.
  split_and!; [vm_compute; reflexivity..|].
  intros Hclaim.
  destruct (Hclaim _ Example.MATCHERS SHA256.hexdigest (Example.detector [])
              Example.foo_unversioned Example.app_js [] Example.w0 "")
    as (queued & w' & Hrun & Hresults); [vm_compute; reflexivity..|].
  vm_compute in Hrun. injection Hrun as _ <-. vm_compute in Hresults.
  discriminate Hresults.
Qed.

(** C7: [jquery] is not modular; [angular] on [angular-route.min.js]
    is named after the module the url kind finds, the body kind before
    it yielding the empty string; on the bundle it is named after the
    module the body kind finds, and the url kind after it has no say;
    on [app.js] no kind yields a module; the version found on
    [angular-route.min.js] is emitted under the module's name. *)
Lemma get_plugin_name_modular_witness :
  get_plugin_name Example.MATCHERS Example.jquery Example.app_js = "jquery" ∧
  get_plugin_name Example.MATCHERS Example.angular Example.angular_route_js =
    "angular-route" ∧
  get_plugin_name Example.MATCHERS Example.angular Example.angular_bundle_js =
    "angular-animate" ∧
  get_plugin_name Example.MATCHERS Example.angular Example.app_js = "angular" ∧
  ∃ queued w',
    process_har_version_plugin Example.MATCHERS Example.get_most_complete_version
      (Example.detector []) Example.angular_route_js [] Example.angular Example.w0 =
      (Return queued, w') ∧
    _results w' =
      [Result.mk "angular-route" (Some "1.6.0") "https://angularjs.org"
         "https://example.com/js/angular-route.min.js" VERSION_TYPE].
Proof.
  split_and!.
  - apply (proj1 (get_plugin_name_modular Example.MATCHERS
                    Example.get_most_complete_version
                    (Example.detector []) Example.jquery Example.app_js)).
    reflexivity.
  - apply (proj1 (proj2 (get_plugin_name_modular Example.MATCHERS
                           Example.get_most_complete_version
                           (Example.detector []) Example.angular
                           Example.angular_route_js))
             [(Kind.body, [("ngAnimate", "animate"); ("angular.module", "")])]
             Kind.url [("angular-route", "route")] [] "route").
    + reflexivity.
    + vm_compute. reflexivity.
    + repeat constructor.
    + vm_compute. reflexivity.
    + discriminate.
  - apply (proj1 (proj2 (get_plugin_name_modular Example.MATCHERS
                           Example.get_most_complete_version
                           (Example.detector []) Example.angular
                           Example.angular_bundle_js))
             [] Kind.body [("ngAnimate", "animate"); ("angular.module", "")]
             [(Kind.url, [("angular-route", "route")])] "animate").
    + reflexivity.
    + vm_compute. reflexivity.
    + constructor.
    + vm_compute. reflexivity.
    + discriminate.
  - apply (proj1 (proj2 (proj2 (get_plugin_name_modular Example.MATCHERS
                                  Example.get_most_complete_version
                                  (Example.detector []) Example.angular
                                  Example.app_js)))).
    + reflexivity.
    + vm_compute. repeat constructor.
  - destruct (proj2 (proj2 (proj2 (get_plugin_name_modular Example.MATCHERS
                                     Example.get_most_complete_version
                                     (Example.detector []) Example.angular
                                     Example.angular_route_js)))
                "1.6.0" [] Example.w0) as (queued & w' & Hrun & Hresults).
    + vm_compute. reflexivity.
    + exists queued, w'. split; [exact Hrun|].
      eapply eq_trans; [exact Hresults|]. vm_compute. reflexivity.
Defined.

(** X16 at three generic plugins: a record with [name] and [homepage]
    gives one GENERIC Result; an empty record gives none; a record with
    a [name] only raises. *)
Lemma generic_plugin_information_witness :
  process_har_generic_plugin Example.MATCHERS Example.akismet_js
    Example.wp_plugins Example.w0 =
    (Return (),
     mkWorld [Result.mk "akismet" None "https://wordpress.org/plugins/akismet"
                "https://example.com/wp-content/plugins/akismet/a.js" GENERIC_TYPE]
             []) ∧
  process_har_generic_plugin Example.MATCHERS Example.akismet_js
    Example.wp_plugins_silent Example.w0 = (Return (), Example.w0) ∧
  process_har_generic_plugin Example.MATCHERS Example.akismet_js
    Example.wp_plugins_bare Example.w0 = (Raise (KeyError "homepage"), Example.w0).
Proof.
  assert (∀ plugin,
            Plugin.get_grouped_matchers plugin "indicators" =
              [(Kind.url, [("/wp-content/plugins/", "")])] →
            check_indicator_presence Example.MATCHERS plugin Example.akismet_js = true)
    as Hpresent.
  { intros plugin Htable. unfold check_indicator_presence, _get_matchers_for_entry.
    rewrite Htable. vm_compute. reflexivity. }
  split_and!.
  - eapply eq_trans.
    + apply (proj1 (generic_plugin_information Example.MATCHERS Example.wp_plugins
                      Example.akismet_js Example.w0
                      (Hpresent Example.wp_plugins eq_refl))
               "akismet" "https://wordpress.org/plugins/akismet").
      * vm_compute. reflexivity.
      * vm_compute. reflexivity.
    + reflexivity.
  - apply (proj1 (proj2 (generic_plugin_information Example.MATCHERS
                           Example.wp_plugins_silent Example.akismet_js Example.w0
                           (Hpresent Example.wp_plugins_silent eq_refl)))).
    vm_compute. reflexivity.
  - apply (proj2 (proj2 (generic_plugin_information Example.MATCHERS
                           Example.wp_plugins_bare Example.akismet_js Example.w0
                           (Hpresent Example.wp_plugins_bare eq_refl)))).
    + exists "akismet". vm_compute. reflexivity.
    + vm_compute. reflexivity.
Defined.

(** C8 at the input on which the code fails: for a record that has a
    [name] and no [homepage], [plugin_data['homepage']] raises
    [KeyError] and no Result is added, although the record has a
    [name]. *)
Lemma generic_plugin_name_without_homepage :
  check_indicator_presence Example.MATCHERS Example.wp_plugins_bare
    Example.akismet_js = true ∧
  Plugin.get_information Example.wp_plugins_bare Example.akismet_js !! "name" =
    Some "akismet" ∧
  process_har_generic_plugin Example.MATCHERS Example.akismet_js
    Example.wp_plugins_bare Example.w0 = (Raise (KeyError "homepage"), Example.w0) ∧
  ¬ (∀ Sig (MATCHERS : Kind.t → Matcher.t Sig)
       (plugin : Plugin.t Sig) (entry : Entry) w name,
       check_indicator_presence MATCHERS plugin entry = true →
       Plugin.get_information plugin entry !! "name" = Some name →
       ∃ result,
         process_har_generic_plugin MATCHERS entry plugin w =
           (Return (), emit [result] [] w) ∧
         Result.name result = name ∧
         Result.type result = GENERIC_TYPE ∧
         Result.from_url result = get_url entry).
Proof.
  split_and!; [vm_compute; reflexivity..|].
  intros Hclaim.
  destruct (Hclaim _ Example.MATCHERS Example.wp_plugins_bare Example.akismet_js
              Example.w0 "akismet")
    as (result & Hrun & _); [vm_compute; reflexivity..|].
  vm_compute in Hrun. discriminate Hrun.
Qed.

(** C10: with [jquery] and [foo] registered, the pass adds one VERSION
    Result per reported software, each followed by the hints of its
    plugin; with the unregistered [react] reported second it raises
    after the Result of the first. *)
Lemma process_from_splash_registered_witness :
  process_from_splash
    (Example.detector [Software.mk "jquery" "2.1.0"; Software.mk "foo" "1.0"])
    Example.w0 =
    (Return (),
     mkWorld
       [Result.mk "jquery" (Some "2.1.0") "https://jquery.com"
          "https://example.com/" VERSION_TYPE;
        Result.mk "foo" (Some "1.0") "https://foo.example"
          "https://example.com/" VERSION_TYPE;
        Result.mk "jquery" None "https://jquery.com" "https://example.com/" HINT_TYPE]
       [logger_debug "%(pname)s & hint %(hname)s detected" "foo" "jquery";
        logger_error "%(pname)s hints an invalid plugin: %(hname)s" "foo" "nowhere"]) ∧
  process_from_splash
    (Example.detector [Software.mk "jquery" "2.1.0"; Software.mk "react" "16.0";
                       Software.mk "foo" "1.0"])
    Example.w0 =
    (Raise (AttributeError "name"),
     mkWorld
       [Result.mk "jquery" (Some "2.1.0") "https://jquery.com"
          "https://example.com/" VERSION_TYPE]
       []).
Proof.
  split.
  - eapply eq_trans.
    + apply (process_from_splash_registered
               (Example.detector [Software.mk "jquery" "2.1.0"; Software.mk "foo" "1.0"])
               Example.w0).
      repeat constructor; by eexists.
    + vm_compute. reflexivity.
  - eapply eq_trans.
    + apply (proj1 (process_from_splash_registered
               (Example.detector [Software.mk "jquery" "2.1.0";
                                  Software.mk "react" "16.0"; Software.mk "foo" "1.0"])
               Example.w0)
               [Software.mk "jquery" "2.1.0"] (Software.mk "react" "16.0")
               [Software.mk "foo" "1.0"]).
      * reflexivity.
      * repeat constructor; by eexists.
      * reflexivity.
    + vm_compute. reflexivity.
Defined.

(** X1 on the example session: the results of the passes entry by
    entry, then the two queued hints. *)
Lemma process_har_emit_witness :
  process_har Example.MATCHERS Example.get_most_complete_version SHA256.hexdigest
    (Example.detector []) Example.w0 =
    (Return (),
     mkWorld
       [Result.mk "foo" None "https://foo.example" "https://example.com/"
          INDICATOR_TYPE;
        Result.mk "foo" None "https://foo.example" "https://example.com/"
          INDICATOR_TYPE;
        Result.mk "foo" None "https://foo.example"
          "https://example.com/static/app.js" INDICATOR_TYPE;
        Result.mk "foo" (Some "1.0") "https://foo.example"
          "https://example.com/static/app.js" VERSION_TYPE;
        Result.mk "angular-route" (Some "1.6.0") "https://angularjs.org"
          "https://example.com/js/angular-route.min.js" VERSION_TYPE;
        Result.mk "akismet" None "https://wordpress.org/plugins/akismet"
          "https://example.com/wp-content/plugins/akismet/a.js" GENERIC_TYPE;
        Result.mk "jquery" None "https://jquery.com" "https://example.com/" HINT_TYPE;
        Result.mk "jquery" None "https://jquery.com" "https://example.com/" HINT_TYPE]
       [logger_debug "%(pname)s & hint %(hname)s detected" "foo" "jquery";
        logger_error "%(pname)s hints an invalid plugin: %(hname)s" "foo" "nowhere";
        logger_debug "%(pname)s & hint %(hname)s detected" "foo" "jquery";
        logger_error "%(pname)s hints an invalid plugin: %(hname)s" "foo" "nowhere"]).
Proof.
  eapply eq_trans.
  - apply (process_har_emit Example.MATCHERS Example.get_most_complete_version
             SHA256.hexdigest (Example.detector []) Example.w0).
    apply (proj1 (passes_return_all Example.MATCHERS SHA256.hexdigest _ _)). vm_compute. reflexivity.
  - vm_compute. reflexivity.
Defined.

(** ** The further theorems at concrete sessions *)


(** X2 on a session whose second entry has a body with a surrogate and
    is one on which the indicator plugin [foo], which has file hashes,
    is present: the INDICATOR Result of [foo] on it is added and the
    lookup raises; and on a session whose third entry makes the second
    generic plugin give a record without [homepage]: the results of the
    first two entries and the GENERIC Result of the first generic
    plugin are added.  In both the entries after are not processed and
    the two queued hints for [jquery] are not added. *)
Lemma process_har_raise_witness :
  process_har Example.MATCHERS Example.get_most_complete_version SHA256.hexdigest
    (ExampleMore.detector_surrogate []) Example.w0 =
    (Raise (UnicodeEncodeError "surrogates not allowed"),
     mkWorld
       [Result.mk "foo" None "https://foo.example" "https://example.com/"
          INDICATOR_TYPE;
        Result.mk "foo" None "https://foo.example" "https://example.com/"
          INDICATOR_TYPE;
        Result.mk "foo" None "https://foo.example"
          "https://example.com/static/app.js" INDICATOR_TYPE]
       [logger_debug "%(pname)s & hint %(hname)s detected" "foo" "jquery";
        logger_error "%(pname)s hints an invalid plugin: %(hname)s" "foo" "nowhere";
        logger_debug "%(pname)s & hint %(hname)s detected" "foo" "jquery";
        logger_error "%(pname)s hints an invalid plugin: %(hname)s" "foo" "nowhere"]) ∧
  process_har Example.MATCHERS Example.get_most_complete_version SHA256.hexdigest
    (ExampleMore.detector_bare []) Example.w0 =
    (Raise (KeyError "homepage"),
     mkWorld
       [Result.mk "foo" None "https://foo.example" "https://example.com/"
          INDICATOR_TYPE;
        Result.mk "foo" None "https://foo.example" "https://example.com/"
          INDICATOR_TYPE;
        Result.mk "foo" None "https://foo.example"
          "https://example.com/static/app.js" INDICATOR_TYPE;
        Result.mk "foo" (Some "1.0") "https://foo.example"
          "https://example.com/static/app.js" VERSION_TYPE;
        Result.mk "akismet" None "https://wordpress.org/plugins/akismet"
          "https://example.com/wp-content/plugins/akismet/a.js" GENERIC_TYPE]
       [logger_debug "%(pname)s & hint %(hname)s detected" "foo" "jquery";
        logger_error "%(pname)s hints an invalid plugin: %(hname)s" "foo" "nowhere";
        logger_debug "%(pname)s & hint %(hname)s detected" "foo" "jquery";
        logger_error "%(pname)s hints an invalid plugin: %(hname)s" "foo" "nowhere"]).
Proof.
  split.
  - eapply eq_trans.
    + apply (proj1 (process_har_raise Example.MATCHERS Example.get_most_complete_version
               SHA256.hexdigest (ExampleMore.detector_surrogate []) Example.w0
               [Example.main_page] Example.app_js_surrogate
               [Example.akismet_js; Example.angular_route_js]
               eq_refl
               (proj1 (passes_return_all Example.MATCHERS SHA256.hexdigest
                         (ExampleMore.detector_surrogate []) [Example.main_page])
                      eq_refl))
               [] Example.foo [] (UnicodeEncodeError "surrogates not allowed")).
      * reflexivity.
      * constructor.
      * vm_compute. reflexivity.
      * discriminate.
      * vm_compute. reflexivity.
    + vm_compute. reflexivity.
  - eapply eq_trans.
    + apply (proj2 (process_har_raise Example.MATCHERS Example.get_most_complete_version
               SHA256.hexdigest (ExampleMore.detector_bare []) Example.w0
               [Example.main_page; Example.app_js] Example.akismet_js
               [Example.angular_route_js]
               eq_refl
               (proj1 (passes_return_all Example.MATCHERS SHA256.hexdigest
                         (ExampleMore.detector_bare [])
                         [Example.main_page; Example.app_js])
                      eq_refl))
               [Example.wp_plugins] Example.wp_plugins_bare
               [Example.wp_plugins_silent]).
      * repeat constructor. intros _ _. eexists. vm_compute. reflexivity.
      * reflexivity.
      * repeat constructor; vm_compute; by eexists.
      * vm_compute. reflexivity.
    + vm_compute. reflexivity.
Defined.

(** X4 on the session with the body that cannot be encoded:
    [process_har] raises, and what it has added holds no HINT Result. *)
Lemma process_har_raises_witness :
  ∃ e w',
    process_har Example.MATCHERS Example.get_most_complete_version SHA256.hexdigest
      (ExampleMore.detector_surrogate []) Example.w0 = (Raise e, w') ∧
    (e = UnicodeEncodeError "surrogates not allowed" ∨ e = KeyError "homepage") ∧
    ∃ results records,
      w' = emit results records Example.w0 ∧
      Forall (λ result, Result.type result ≠ HINT_TYPE) results.
Proof.
  destruct (proj2 (proj1 (process_har_raises Example.MATCHERS
                            Example.get_most_complete_version SHA256.hexdigest
                            (ExampleMore.detector_surrogate []) Example.w0)))
    as (e & w' & Hraise).
  { intros Hall.
    apply (proj2 (passes_return_all Example.MATCHERS SHA256.hexdigest _ _)) in Hall.
    vm_compute in Hall. discriminate Hall. }
  exists e, w'. split; [exact Hraise|].
  exact (proj2 (process_har_raises Example.MATCHERS
                  Example.get_most_complete_version SHA256.hexdigest
                  (ExampleMore.detector_surrogate []) Example.w0) e w' Hraise).
Defined.

(** X5 at the indicator table of [foo]: its two kinds go one to the
    MAIN page and one to [app.js]. *)
Lemma get_matchers_for_entry_partition_witness :
  length (_get_matchers_for_entry "indicators" Example.foo Example.main_page) +
  length (_get_matchers_for_entry "indicators" Example.foo Example.app_js) =
    length (Plugin.get_grouped_matchers Example.foo "indicators").
Proof.
  apply (proj2 (proj2 (get_matchers_for_entry_partition
                         "indicators" Example.foo Example.main_page Example.app_js
                         eq_refl ltac:(discriminate)))).
Defined.

(** X6 on the MAIN page: matchers that would report a version, a
    presence and a module on the url and the body kind change nothing
    for [angular], whose version signature is on the url kind. *)
Lemma eligible_matchers_only_witness :
  get_plugin_version Example.MATCHERS Example.get_most_complete_version
    Example.angular Example.main_page =
    get_plugin_version ExampleMore.MATCHERS_loud Example.get_most_complete_version
      Example.angular Example.main_page ∧
  check_indicator_presence Example.MATCHERS Example.angular Example.main_page =
    check_indicator_presence ExampleMore.MATCHERS_loud Example.angular Example.main_page ∧
  get_plugin_name Example.MATCHERS Example.angular Example.main_page =
    get_plugin_name ExampleMore.MATCHERS_loud Example.angular Example.main_page.
Proof.
  apply (eligible_matchers_only Example.MATCHERS Example.get_most_complete_version
           ExampleMore.MATCHERS_loud Example.angular Example.main_page).
  intros key Hkey. destruct key; try reflexivity; exfalso; by destruct Hkey.
Defined.

(** X7: [jquery], which has no file hashes, gets no version also on a
    body that cannot be encoded; for [foo], which has file hashes, the
    lookup raises on such a body although no file name of [foo] occurs
    in the URL; the version 1.0 that [foo] gets on [app.js] is recorded
    under a file name of the URL with the digest of the body; on
    [app.js] with another body, for which no version is returned, no
    record has the digest. *)
Lemma get_version_via_file_hashes_recorded_witness :
  get_version_via_file_hashes SHA256.hexdigest Example.jquery Example.cdn_js_surrogate =
    Return None ∧
  get_version_via_file_hashes SHA256.hexdigest Example.foo Example.cdn_js_surrogate =
    Raise (UnicodeEncodeError "surrogates not allowed") ∧
  (get_version_via_file_hashes SHA256.hexdigest Example.foo Example.app_js =
     Return (Some "1.0") ∧
   ∃ file hash_dict before after,
     (file, hash_dict) ∈ Plugin.file_hashes Example.foo ∧
     get_url Example.app_js = before +:+ file +:+ after ∧
     ("1.0", SHA256.hexdigest (String.list_byte_of_string "abc")) ∈ hash_dict) ∧
  (get_version_via_file_hashes SHA256.hexdigest Example.foo Example.app_js_modified =
     Return None ∧
   ∀ file hash_dict version before after,
     (file, hash_dict) ∈ Plugin.file_hashes Example.foo →
     get_url Example.app_js_modified = before +:+ file +:+ after →
     (version, SHA256.hexdigest (String.list_byte_of_string "abd")) ∉ hash_dict).
Proof.
  split; [|split; [|split]].
  - apply (proj1 (get_version_via_file_hashes_recorded
                    SHA256.hexdigest Example.jquery Example.cdn_js_surrogate)).
    reflexivity.
  - apply (proj1 (proj2 (get_version_via_file_hashes_recorded
                           SHA256.hexdigest Example.foo Example.cdn_js_surrogate))).
    + discriminate.
    + vm_compute. reflexivity.
  - split; [vm_compute; reflexivity|].
    apply (proj1 (proj2 (proj2 (get_version_via_file_hashes_recorded
                                  SHA256.hexdigest Example.foo Example.app_js))
                    (String.list_byte_of_string "abc") eq_refl) "1.0").
    vm_compute. reflexivity.
  - split; [vm_compute; reflexivity|].
    apply (proj1 (proj2 (proj2 (proj2 (get_version_via_file_hashes_recorded
                                         SHA256.hexdigest Example.foo
                                         Example.app_js_modified))
                           (String.list_byte_of_string "abd") eq_refl))).
    vm_compute. reflexivity.
Defined.

(** X8 at a redirect that the second entry answers, with one script. *)
Lemma prepare_har_census_witness :
  _prepare_har urljoin_absolute "http://example.com/"
    (Response.mk
       [mkHarEntry "http://example.com/" "http://example.com/"
          [Header.mk "Location" "https://example.com/"] "";
        mkHarEntry "https://example.com/" "https://example.com/" [] "<html></html>"]
       ["var a = 1;"] []) =
    Return
      [mkEntry (mkHarEntry "http://example.com/" "http://example.com/"
                  [Header.mk "Location" "https://example.com/"] "") RESOURCE_ENTRY;
       mkEntry (mkHarEntry "https://example.com/" "https://example.com/" []
                  "<html></html>") MAIN_ENTRY;
       _script_to_har_entry "http://example.com/" "var a = 1;"] ∧
  count_type RESOURCE_ENTRY
    [mkEntry (mkHarEntry "http://example.com/" "http://example.com/"
                [Header.mk "Location" "https://example.com/"] "") RESOURCE_ENTRY;
     mkEntry (mkHarEntry "https://example.com/" "https://example.com/" []
                "<html></html>") MAIN_ENTRY;
     _script_to_har_entry "http://example.com/" "var a = 1;"] = 1.
Proof.
  split; [reflexivity|].
  apply (proj2 (prepare_har_census urljoin_absolute "http://example.com/"
                  (Response.mk
                     [mkHarEntry "http://example.com/" "http://example.com/"
                        [Header.mk "Location" "https://example.com/"] "";
                      mkHarEntry "https://example.com/" "https://example.com/" []
                        "<html></html>"]
                     ["var a = 1;"] []))
           _ eq_refl).
Defined.

(** X9 for [react] on [app.js]: its url signature gives no version and
    its body signature the empty version, so nothing is added. *)
Lemma get_plugin_version_resolver_witness :
  process_har_version_plugin Example.MATCHERS Example.get_most_complete_version
    (Example.detector []) Example.app_js [] ExampleMore.react Example.w0 =
    (Return [], Example.w0).
Proof.
  apply (proj2 (get_plugin_version_resolver
                  Example.MATCHERS Example.get_most_complete_version
                  (Example.detector []) ExampleMore.react Example.app_js []
                  Example.w0)).
  - reflexivity.
  - intros key matchers Hin _.
    apply elem_of_cons in Hin as [[= -> ->]|Hin]; [left; reflexivity|].
    apply elem_of_cons in Hin as [[= -> ->]|Hin]; [right; reflexivity|].
    by apply elem_of_nil in Hin.
Defined.

(** X11 on the example session with [jquery] reported by splash, and
    the deduplicated view sorted by name and version: four records. *)
Lemma get_results_records_witness :
  (get_results Example.MATCHERS Example.get_most_complete_version SHA256.hexdigest
     ExampleMore.sorted_results (Example.detector [Software.mk "jquery" "2.1.0"])
     false Example.w0).1 =
    Return
      [[("name", Str "akismet")];
       [("name", Str "angular-route"); ("version", Str "1.6.0")];
       [("name", Str "foo"); ("version", Str "1.0")];
       [("name", Str "jquery"); ("version", Str "2.1.0")]].
Proof.
  eapply eq_trans.
  - apply (f_equal fst).
    apply (get_results_records Example.MATCHERS Example.get_most_complete_version
             SHA256.hexdigest ExampleMore.sorted_results
             (Example.detector [Software.mk "jquery" "2.1.0"]) false Example.w0).
    + apply (proj1 (passes_return_all Example.MATCHERS SHA256.hexdigest _ _)). vm_compute. reflexivity.
    + repeat constructor; by eexists.
  - vm_compute. reflexivity.
Defined.

(** X12 on a session without har entries in which splash reports
    [jquery], with metadata. *)
Lemma get_results_record_shape_witness :
  Forall2 (record_ok true)
    (ExampleMore.sorted_results
       [Result.mk "jquery" (Some "2.1.0") "https://jquery.com"
          "https://example.com/" VERSION_TYPE])
    [[("name", Str "jquery"); ("version", Str "2.1.0");
      ("homepage", Str "https://jquery.com"); ("type", TypeStr VERSION_TYPE);
      ("from_url", Str "https://example.com/")]].
Proof.
  apply (get_results_record_shape Example.MATCHERS Example.get_most_complete_version
           SHA256.hexdigest ExampleMore.sorted_results
           (mkDetector "https://example.com/" [] [Software.mk "jquery" "2.1.0"]
              Example.plugins)
           true Example.w0
           [[("name", Str "jquery"); ("version", Str "2.1.0");
             ("homepage", Str "https://jquery.com"); ("type", TypeStr VERSION_TYPE);
             ("from_url", Str "https://example.com/")]]
           (mkWorld
              [Result.mk "jquery" (Some "2.1.0") "https://jquery.com"
                 "https://example.com/" VERSION_TYPE]
              [])).
  vm_compute. reflexivity.
Defined.

(** X13: on the session with the generic plugin whose record lacks
    [homepage], [get_results] raises as [process_har] does, although
    splash reports a registered software; on the example session with a
    software that is not registered it raises [AttributeError]. *)
Lemma get_results_returns_witness :
  (∃ e w',
     (e = UnicodeEncodeError "surrogates not allowed" ∨ e = KeyError "homepage") ∧
     process_har Example.MATCHERS Example.get_most_complete_version SHA256.hexdigest
       (ExampleMore.detector_bare [Software.mk "jquery" "2.1.0"]) Example.w0 =
       (Raise e, w') ∧
     get_results Example.MATCHERS Example.get_most_complete_version SHA256.hexdigest
       ExampleMore.sorted_results
       (ExampleMore.detector_bare [Software.mk "jquery" "2.1.0"]) false Example.w0 =
       (Raise e, w')) ∧
  (∃ w',
     get_results Example.MATCHERS Example.get_most_complete_version SHA256.hexdigest
       ExampleMore.sorted_results
       (Example.detector [Software.mk "react" "16.0"]) false Example.w0 =
       (Raise (AttributeError "name"), w')).
Proof.
  split.
  - apply (proj1 (proj2 (get_results_returns
                           Example.MATCHERS Example.get_most_complete_version
                           SHA256.hexdigest ExampleMore.sorted_results
                           (ExampleMore.detector_bare [Software.mk "jquery" "2.1.0"])
                           false Example.w0))).
    intros Hall.
    apply (proj2 (passes_return_all Example.MATCHERS SHA256.hexdigest _ _)) in Hall.
    vm_compute in Hall. discriminate Hall.
  - apply (proj2 (proj2 (get_results_returns
                           Example.MATCHERS Example.get_most_complete_version
                           SHA256.hexdigest ExampleMore.sorted_results
                           (Example.detector [Software.mk "react" "16.0"])
                           false Example.w0))).
    + apply (proj1 (passes_return_all Example.MATCHERS SHA256.hexdigest _ _)). vm_compute. reflexivity.
    + intros Hall.
      apply (Forall_lookup_1 _ _ 0 (Software.mk "react" "16.0")) in Hall;
        [|reflexivity].
      vm_compute in Hall. by destruct Hall as [? [=]].
Defined.

(** X14: the default, the empty value, and a value with three commas,
    two of them leaving an empty package name. *)
Lemma PLUGIN_PACKAGES_split_witness :
  settings.PLUGIN_PACKAGES ∅ = ["detectem.plugins"] ∧
  settings.PLUGIN_PACKAGES {[ "DET_PLUGIN_PACKAGES" := "" ]} = [""] ∧
  join "," (settings.PLUGIN_PACKAGES
              {[ "DET_PLUGIN_PACKAGES" := "detectem.plugins,,my.plugins," ]}) =
    "detectem.plugins,,my.plugins,".
Proof.
  split_and!.
  - apply (proj1 (proj2 (proj2 (proj2 (PLUGIN_PACKAGES_split ∅))))).
    reflexivity.
  - apply (proj2 (proj2 (proj2 (proj2
             (PLUGIN_PACKAGES_split {[ "DET_PLUGIN_PACKAGES" := "" ]}))))).
    vm_compute. reflexivity.
  - eapply eq_trans.
    + apply (proj1 (proj2 (proj2
               (PLUGIN_PACKAGES_split
                  {[ "DET_PLUGIN_PACKAGES" := "detectem.plugins,,my.plugins," ]})))).
    + vm_compute. reflexivity.
Defined.

(** X15 on a response with an empty har list and one script: the first
    preparation gives one INLINE_SCRIPT entry; the second gives two
    entries, the script entry of the first as the MAIN entry. *)
Lemma prepare_har_again_witness :
  _prepare_har urljoin_absolute "http://example.com/"
    (Response.mk [] ["var a = 1;"] []) =
    Return [_script_to_har_entry "http://example.com/" "var a = 1;"] ∧
  ∃ old_entries,
    _prepare_har urljoin_absolute "http://example.com/"
      (response_after_prepare_har true (Response.mk [] ["var a = 1;"] [])
         [_script_to_har_entry "http://example.com/" "var a = 1;"]) =
      Return (old_entries ++ [_script_to_har_entry "http://example.com/" "var a = 1;"]) ∧
    har_entry <$> old_entries =
      [mkHarEntry "http://example.com/" "http://example.com/" [] "var a = 1;"] ∧
    length old_entries = 1 ∧
    count_type INLINE_SCRIPT_ENTRY old_entries = 0 ∧
    count_type MAIN_ENTRY old_entries = 1.
Proof.
  split; [reflexivity|].
  apply (prepare_har_again urljoin_absolute "http://example.com/"
           (Response.mk [] ["var a = 1;"] [])
           [_script_to_har_entry "http://example.com/" "var a = 1;"]).
  reflexivity.
Defined.

(** X18 at a first entry that redirects to a URL with an opening
    bracket and no closing one: the preparation and the constructor
    raise the [ValueError] of [urljoin]. *)
Lemma prepare_har_raises_witness :
  _prepare_har urljoin_absolute "http://example.com/"
    (Response.mk
       [mkHarEntry "http://example.com/" "http://example.com/"
          [Header.mk "Location" "http://[::1"] "";
        mkHarEntry "http://example.com/a.js" "http://example.com/a.js" [] "a()"]
       ["var a = 1;"] []) = Raise (ValueError "Invalid IPv6 URL") ∧
  __init__ urljoin_absolute
    (Response.mk
       [mkHarEntry "http://example.com/" "http://example.com/"
          [Header.mk "Location" "http://[::1"] "";
        mkHarEntry "http://example.com/a.js" "http://example.com/a.js" [] "a()"]
       ["var a = 1;"] [])
    Example.plugins "http://example.com/" = Raise (ValueError "Invalid IPv6 URL").
Proof.
  assert (_prepare_har urljoin_absolute "http://example.com/"
            (Response.mk
               [mkHarEntry "http://example.com/" "http://example.com/"
                  [Header.mk "Location" "http://[::1"] "";
                mkHarEntry "http://example.com/a.js" "http://example.com/a.js" [] "a()"]
               ["var a = 1;"] []) = Raise (ValueError "Invalid IPv6 URL")) as Hraise.
  { apply (proj1 (prepare_har_raises urljoin_absolute "http://example.com/"
                    (Response.mk
                       [mkHarEntry "http://example.com/" "http://example.com/"
                          [Header.mk "Location" "http://[::1"] "";
                        mkHarEntry "http://example.com/a.js" "http://example.com/a.js"
                          [] "a()"]
                       ["var a = 1;"] [])
                    Example.plugins (ValueError "Invalid IPv6 URL"))).
    exists (mkHarEntry "http://example.com/" "http://example.com/"
              [Header.mk "Location" "http://[::1"] ""),
      [mkHarEntry "http://example.com/a.js" "http://example.com/a.js" [] "a()"],
      "http://[::1".
    split_and!; [reflexivity..|discriminate|reflexivity]. }
  split; [exact Hraise|].
  apply (proj2 (prepare_har_raises urljoin_absolute "http://example.com/"
                  (Response.mk
                     [mkHarEntry "http://example.com/" "http://example.com/"
                        [Header.mk "Location" "http://[::1"] "";
                      mkHarEntry "http://example.com/a.js" "http://example.com/a.js"
                        [] "a()"]
                     ["var a = 1;"] [])
                  Example.plugins (ValueError "Invalid IPv6 URL"))).
  exact Hraise.
Defined.
